(** * A multi-country, multi-sector trade-equilibrium solver: model and proofs

    This development embeds the Python package [src/model] (files
    [data.py], [equilibrium.py], [optimize.py]) and proves or refutes
    statements of its specification.

    Numbers.  The program computes with NumPy [float64] arrays.  Every
    function is written once, over an interface of float operations
    ([Float64], [Libm]), and the interface has two implementations:

    - [xfloat]: IEEE-754 special values (infinities, NaN) around exact
      real arithmetic on finite values: no rounding, no overflow, one
      unsigned zero.  Algebraic statements are proved here.
    - [float]: the kernel's binary64 numbers, bit for bit the [float64]
      of NumPy for [+ - * /], comparisons, [abs] and negation.  The C
      library functions [log], [exp], [pow] have no kernel counterpart
      and stay parameters there.  Statements about exact results
      ([x / x = 1]) are proved here, and concrete runs that need only
      arithmetic are evaluated here.

    Arrays.  An ndarray of shape [(N,)], [(N,S)] or [(N,N,S)] is its
    index function on [nat], read only below the shape held by
    [ModelDims]; the shape assertions of [ModelData.validate] are then
    carried by the types.  Two arrays of [equilibrium.py] take a shape
    that depends on the path they were computed on, the prices and the
    real incomes: these carry their shape ([price_array],
    [vec_array]), and the operations on them follow NumPy's
    broadcasting.

    Exceptions.  A function that can raise returns a [result]. *)

From Stdlib Require Import ZArith List Bool Lia String Permutation Sorted.
From Stdlib Require Import Reals Lra FunctionalExtensionality.
From Stdlib Require Import Floats.
Import ListNotations.

Set Implicit Arguments.

(** ** Exceptions *)

Inductive exn : Type :=
| ValueError (msg : string)
| IndexError
| OverflowError (msg : string)
| UnboundLocalError (name : string).

Inductive result (A : Type) : Type :=
| Ok (a : A)
| Raise (e : exn).

Arguments Ok {A} a.
Arguments Raise {A} e.

Definition bind {A B : Type} (m : result A) (k : A -> result B) : result B :=
  match m with
  | Ok a => k a
  | Raise e => Raise e
  end.

Declare Scope result_scope.
Delimit Scope result_scope with result.
Notation "x <- m ;; k" := (bind m (fun x => k))
  (at level 61, m at next level, right associativity) : result_scope.
Notation "' p <- m ;; k" := (bind m (fun x => match x with p => k end))
  (at level 61, p pattern, m at next level, right associativity) : result_scope.

Definition returns {A : Type} (m : result A) : Prop := exists a, m = Ok a.

(** ** The float64 interface *)

(** Arithmetic, comparisons and the literals that occur in the source. *)
Class Float64 (F : Type) : Type := {
  fadd : F -> F -> F;
  fsub : F -> F -> F;
  fmul : F -> F -> F;
  fdiv : F -> F -> F;
  fneg : F -> F;
  fabs : F -> F;
  feqb : F -> F -> bool;
  fltb : F -> F -> bool;
  fleb : F -> F -> bool;
  fisfinite : F -> bool;        (* np.isfinite *)
  fsignbit : F -> bool;         (* np.signbit *)
  of_int : Z -> F;              (* float(n) for a Python int n *)
  ftrunc : F -> option Z;       (* truncation toward zero; None if not finite *)
  c_0 : F;                      (* 0.0 *)
  c_1 : F;                      (* 1.0 *)
  c_0_5 : F;                    (* 0.5 *)
  c_100 : F;                    (* 100.0 *)
  c_0_3 : F;                    (* 0.3 *)
  c_1e_8 : F;                   (* 1e-8 *)
  c_1e_9 : F;                   (* 1e-9 *)
  c_1e_12 : F                   (* 1e-12 *)
}.

(** [np.log], [np.exp], [np.power] on float64. *)
Class Libm (F : Type) : Type := {
  flog : F -> F;
  fexp : F -> F;
  fpow : F -> F -> F
}.

Declare Scope np_scope.
Delimit Scope np_scope with np.
Notation "x + y" := (fadd x y) : np_scope.
Notation "x - y" := (fsub x y) : np_scope.
Notation "x * y" := (fmul x y) : np_scope.
Notation "x / y" := (fdiv x y) : np_scope.
Notation "- x" := (fneg x) : np_scope.
Notation "x <? y" := (fltb x y) (at level 70, no associativity) : np_scope.
Notation "x >? y" := (fltb y x) (at level 70, no associativity, only parsing) : np_scope.
Notation "x <=? y" := (fleb x y) (at level 70, no associativity) : np_scope.
Notation "x >=? y" := (fleb y x) (at level 70, no associativity, only parsing) : np_scope.

(** ** Implementation 1: IEEE special values around exact reals *)

Inductive xfloat : Type :=
| Fin (r : R)
| Inf (neg : bool)
| NaN.

Definition Rltb (x y : R) : bool := if Rlt_dec x y then true else false.
Definition Rleb (x y : R) : bool := if Rle_dec x y then true else false.
Definition Reqb (x y : R) : bool := if Req_dec_T x y then true else false.

(** [is_int p]: the real [p] is an integer;  [odd_int p]: an odd one. *)
Definition is_int (p : R) : bool := Reqb (IZR (Int_part p)) p.
Definition odd_int (p : R) : bool := is_int p && Z.odd (Int_part p).

Definition xneg (x : xfloat) : xfloat :=
  match x with
  | Fin r => Fin (- r)
  | Inf s => Inf (negb s)
  | NaN => NaN
  end.

Definition xabs (x : xfloat) : xfloat :=
  match x with
  | Fin r => Fin (Rabs r)
  | Inf _ => Inf false
  | NaN => NaN
  end.

Definition xadd (x y : xfloat) : xfloat :=
  match x, y with
  | NaN, _ | _, NaN => NaN
  | Inf s, Inf t => if Bool.eqb s t then Inf s else NaN
  | Inf s, Fin _ => Inf s
  | Fin _, Inf t => Inf t
  | Fin a, Fin b => Fin (a + b)
  end.

Definition xsub (x y : xfloat) : xfloat :=
  match x, y with
  | NaN, _ | _, NaN => NaN
  | Inf s, Inf t => if Bool.eqb s t then NaN else Inf s
  | Inf s, Fin _ => Inf s
  | Fin _, Inf t => Inf (negb t)
  | Fin a, Fin b => Fin (a - b)
  end.

Definition xmul (x y : xfloat) : xfloat :=
  match x, y with
  | NaN, _ | _, NaN => NaN
  | Inf s, Inf t => Inf (xorb s t)
  | Inf s, Fin b => if Reqb b 0 then NaN else Inf (xorb s (Rltb b 0))
  | Fin a, Inf t => if Reqb a 0 then NaN else Inf (xorb (Rltb a 0) t)
  | Fin a, Fin b => Fin (a * b)
  end.

Definition xdiv (x y : xfloat) : xfloat :=
  match x, y with
  | NaN, _ | _, NaN => NaN
  | Inf _, Inf _ => NaN
  | Inf s, Fin b => Inf (xorb s (Rltb b 0))
  | Fin _, Inf _ => Fin 0
  | Fin a, Fin b =>
      if Reqb b 0
      then (if Reqb a 0 then NaN else Inf (Rltb a 0))
      else Fin (a / b)
  end.

Definition xeqb (x y : xfloat) : bool :=
  match x, y with
  | Fin a, Fin b => Reqb a b
  | Inf s, Inf t => Bool.eqb s t
  | _, _ => false
  end.

Definition xltb (x y : xfloat) : bool :=
  match x, y with
  | NaN, _ | _, NaN => false
  | Fin a, Fin b => Rltb a b
  | Fin _, Inf t => negb t
  | Inf s, Fin _ => s
  | Inf s, Inf t => s && negb t
  end.

Definition xleb (x y : xfloat) : bool :=
  match x, y with
  | NaN, _ | _, NaN => false
  | Fin a, Fin b => Rleb a b
  | Fin _, Inf t => negb t
  | Inf s, Fin _ => s
  | Inf s, Inf t => s || negb t
  end.

Definition xisfinite (x : xfloat) : bool :=
  match x with
  | Fin _ => true
  | _ => false
  end.

Definition xtrunc (x : xfloat) : option Z :=
  match x with
  | Fin r => Some (if Rle_dec 0 r then Int_part r else (- Int_part (- r))%Z)
  | _ => None
  end.

Definition xlog (x : xfloat) : xfloat :=
  match x with
  | Fin r => if Rltb 0 r then Fin (ln r) else if Reqb r 0 then Inf true else NaN
  | Inf false => Inf false
  | Inf true => NaN
  | NaN => NaN
  end.

Definition xexp (x : xfloat) : xfloat :=
  match x with
  | Fin r => Fin (exp r)
  | Inf false => Inf false
  | Inf true => Fin 0
  | NaN => NaN
  end.

(** C99 [pow], which [np.power] calls on float64 operands. *)
Definition xpow (x y : xfloat) : xfloat :=
  if xeqb y (Fin 0) then Fin 1
  else if xeqb x (Fin 1) then Fin 1
  else
    match x, y with
    | NaN, _ | _, NaN => NaN
    | Fin r, Fin p =>
        if Rltb 0 r then Fin (Rpower r p)
        else if Reqb r 0 then (if Rltb 0 p then Fin 0 else Inf false)
        else if is_int p
             then Fin (if odd_int p then - Rpower (- r) p else Rpower (- r) p)
             else NaN
    | Fin r, Inf t =>
        if Reqb (Rabs r) 1 then Fin 1
        else if Bool.eqb (Rltb (Rabs r) 1) t then Inf false else Fin 0
    | Inf false, Fin p => if Rltb 0 p then Inf false else Fin 0
    | Inf true, Fin p => if Rltb 0 p then Inf (odd_int p) else Fin 0
    | Inf _, Inf t => if t then Fin 0 else Inf false
    end.

Definition xsignbit (x : xfloat) : bool :=
  match x with
  | Fin r => Rltb r 0
  | Inf neg => neg
  | NaN => false
  end.

#[export] Instance xfloat_ops : Float64 xfloat := {
  fadd := xadd; fsub := xsub; fmul := xmul; fdiv := xdiv;
  fneg := xneg; fabs := xabs;
  feqb := xeqb; fltb := xltb; fleb := xleb;
  fisfinite := xisfinite;
  fsignbit := xsignbit;
  of_int := fun n => Fin (IZR n);
  ftrunc := xtrunc;
  c_0 := Fin 0;
  c_1 := Fin 1;
  c_0_5 := Fin (1 / 2);
  c_100 := Fin 100;
  c_0_3 := Fin (3 / 10);
  c_1e_8 := Fin (1 / 100000000);
  c_1e_9 := Fin (1 / 1000000000);
  c_1e_12 := Fin (1 / 1000000000000)
}.

#[export] Instance xfloat_libm : Libm xfloat := {
  flog := xlog; fexp := xexp; fpow := xpow
}.

(** ** Implementation 2: binary64 *)

(** [float(n)] is exact below [2^53]; larger Python ints are outside
    what the program converts (array sizes). *)
Definition b64_of_int (n : Z) : float :=
  match n with
  | Z0 => PrimFloat.zero
  | Zpos _ => PrimFloat.of_uint63 (Uint63.of_Z n)
  | Zneg _ => PrimFloat.opp (PrimFloat.of_uint63 (Uint63.of_Z (- n)))
  end.

Definition b64_trunc (x : float) : option Z :=
  match Prim2SF x with
  | S754_zero _ => Some 0%Z
  | S754_finite s m e =>
      let n := match e with
               | Zneg k => Z.shiftr (Zpos m) (Zpos k)
               | _ => Z.shiftl (Zpos m) e
               end in
      Some (if s then (- n)%Z else n)
  | _ => None
  end.

#[export] Instance b64_ops : Float64 float := {
  fadd := PrimFloat.add; fsub := PrimFloat.sub;
  fmul := PrimFloat.mul; fdiv := PrimFloat.div;
  fneg := PrimFloat.opp; fabs := PrimFloat.abs;
  feqb := PrimFloat.eqb; fltb := PrimFloat.ltb; fleb := PrimFloat.leb;
  fisfinite := PrimFloat.is_finite;
  fsignbit := PrimFloat.get_sign;
  of_int := b64_of_int;
  ftrunc := b64_trunc;
  c_0 := 0%float;
  c_1 := 1%float;
  c_0_5 := 0.5%float;
  c_100 := 100%float;
  c_0_3 := 0x1.3333333333333p-2%float;
  c_1e_8 := 0x1.5798ee2308c3ap-27%float;
  c_1e_9 := 0x1.12e0be826d695p-30%float;
  c_1e_12 := 0x1.19799812dea11p-40%float
}.

(** ** NumPy reductions and helpers *)

Section Numpy.
Context {F : Type} {ops : Float64 F}.

Definition arr1 : Type := nat -> F.
Definition arr2 : Type := nat -> nat -> F.
Definition arr3 : Type := nat -> nat -> nat -> F.

(** A reduction starts from the first element; the identity is used
    for an empty axis only. *)
Definition reduce (op : F -> F -> F) (id : F) (l : list F) : F :=
  match l with
  | [] => id
  | x :: t => fold_left op t x
  end.

(** [np.sum] along an axis of length [n]. *)
Definition np_sum (n : nat) (f : nat -> F) : F :=
  reduce fadd c_0 (map f (seq 0 n)).

Definition fisnan (x : F) : bool := negb (feqb x x).

(** [np.maximum]: NaN propagates. *)
Definition np_maximum (x y : F) : F :=
  if fisnan x || (x >=? y)%np then x else y.

(** The check the random generator makes on a parameter that must not
    be negative: [not isnan(val) and signbit(val)]. *)
Definition is_negative (val : F) : bool := negb (fisnan val) && fsignbit val.

(** [np.max]: raises on a zero-size array. *)
Definition np_max (l : list F) : result F :=
  match l with
  | [] => Raise (ValueError "zero-size array to reduction operation maximum which has no identity")
  | x :: t => Ok (fold_left np_maximum t x)
  end.

Definition flat1 (n : nat) (f : arr1) : list F := map f (seq 0 n).
Definition flat2 (n m : nat) (f : arr2) : list F :=
  flat_map (fun i => map (f i) (seq 0 m)) (seq 0 n).

(** Python's builtin [max(x, y)]: [y] only when [y > x]. *)
Definition py_max (x y : F) : F := if (y >? x)%np then y else x.

(** [np.where(c, x, y)] on one element; both [x] and [y] have been computed. *)
Definition np_where (c : bool) (x y : F) : F := if c then x else y.

(** [np.minimum] and [np.clip]. *)
Definition np_minimum (x y : F) : F :=
  if fisnan x || (x <=? y)%np then x else y.

Definition np_clip (x lo hi : F) : F := np_minimum (np_maximum x lo) hi.

(** [np.argmax]: the first index of a maximum; the first NaN, if any,
    counts as the maximum. *)
Fixpoint argmax_from (l : list F) (i best : nat) (bv : F) : nat :=
  match l with
  | [] => best
  | x :: t =>
      if fisnan bv then best
      else if negb (x <=? bv)%np then argmax_from t (S i) i x
      else argmax_from t (S i) best bv
  end.

Definition np_argmax (l : list F) : result nat :=
  match l with
  | [] => Raise (ValueError "attempt to get argmax of an empty sequence")
  | x :: t => Ok (argmax_from t 1 0 x)
  end.

(** [int(x)] for a float [x]. *)
Definition py_int (x : F) : result Z :=
  match ftrunc x with
  | Some n => Ok n
  | None =>
      if fisnan x then Raise (ValueError "cannot convert float NaN to integer")
      else Raise (OverflowError "cannot convert float infinity to integer")
  end.

(** An index [i] into an axis of length [n]: negative indices count
    from the end, anything outside [-n, n) raises [IndexError]. *)
Definition py_index (n i : Z) : result nat :=
  if ((0 <=? i) && (i <? n))%Z then Ok (Z.to_nat i)
  else if ((- n <=? i) && (i <? 0))%Z then Ok (Z.to_nat (n + i))
  else Raise IndexError.

(** [v[0]] on an array of shape [(n,)]. *)
Definition getitem0 (n : nat) (v : arr1) : result F :=
  match n with
  | O => Raise IndexError
  | S _ => Ok (v O)
  end.

(** *** Shapes

    NumPy aligns the shapes of two operands at their last axis; two
    axes go together when their lengths are equal or one of them is 1,
    and a missing leading axis counts as absent. *)
Definition broadcast_axis (n m : nat) : option nat :=
  if n =? m then Some n
  else if n =? 1 then Some m
  else if m =? 1 then Some n
  else None.

(** Both shapes with the last axis first. *)
Fixpoint broadcast_from_last (s t : list nat) : option (list nat) :=
  match s, t with
  | [], _ => Some t
  | _, [] => Some s
  | n :: s', m :: t' =>
      match broadcast_axis n m, broadcast_from_last s' t' with
      | Some k, Some r => Some (k :: r)
      | _, _ => None
      end
  end.

Definition broadcast_shapes (s t : list nat) : option (list nat) :=
  option_map (@rev nat) (broadcast_from_last (rev s) (rev t)).

(** An array of shape [(N, S)], or of shape [(1, N, S)] once an operand
    of three axes has been broadcast into it.  [entries] reads
    [x[i, s]], respectively [x[0, i, s]]. *)
Inductive price_array : Type :=
| Shape_NS (p : arr2)
| Shape_1NS (p : arr2).

Definition entries (x : price_array) : arr2 :=
  match x with
  | Shape_NS p => p
  | Shape_1NS p => p
  end.

Definition price_shape (N S_ : nat) (x : price_array) : list nat :=
  match x with
  | Shape_NS _ => [N; S_]
  | Shape_1NS _ => [1; N; S_]
  end.

Definition price_map (f : F -> F) (x : price_array) : price_array :=
  match x with
  | Shape_NS p => Shape_NS (fun i s => f (p i s))
  | Shape_1NS p => Shape_1NS (fun i s => f (p i s))
  end.

(** An elementwise operation on two such arrays: [(N, S)] against
    [(1, N, S)] gives [(1, N, S)]. *)
Definition price_map2 (op : F -> F -> F) (x y : price_array) : price_array :=
  match x, y with
  | Shape_NS p, Shape_NS q => Shape_NS (fun i s => op (p i s) (q i s))
  | _, _ => Shape_1NS (fun i s => op (entries x i s) (entries y i s))
  end.

(** An array of shape [(len,)], or of shape [(1, len)] when [row] is
    set; [item] reads [v[j]], respectively [v[0, j]]. *)
Record vec_array : Type := {
  row : bool;
  len : nat;
  item : arr1
}.

Definition vec_shape (v : vec_array) : list nat :=
  if row v then [1; len v] else [len v].

Definition vec_map (f : F -> F) (v : vec_array) : vec_array :=
  {| row := row v; len := len v; item := fun j => f (item v j) |}.

(** An elementwise operation on two such arrays; an axis of length 1 is
    read at index 0 throughout. *)
Definition vec_map2 (op : F -> F -> F) (x y : vec_array) : result vec_array :=
  match broadcast_axis (len x) (len y) with
  | Some n =>
      Ok {| row := row x || row y;
            len := n;
            item := fun j => op (item x (if len x =? 1 then 0 else j))
                                (item y (if len y =? 1 then 0 else j)) |}
  | None => Raise (ValueError "operands could not be broadcast together")
  end.

End Numpy.

Arguments arr1 F : clear implicits.
Arguments arr2 F : clear implicits.
Arguments arr3 F : clear implicits.
Arguments price_array F : clear implicits.
Arguments vec_array F : clear implicits.

(** ** data.py *)

Module Data.

Record ModelDims : Type := {
  n_countries : nat;
  n_sectors : nat
}.

Record ModelData (F : Type) : Type := {
  dims : ModelDims;
  countries : list string;
  sectors : list string;
  (* Preferences and endowments *)
  a : arr2 F;
  L : arr1 F;
  D : arr1 F;
  (* Technology *)
  alpha : arr3 F;
  beta : arr2 F;
  z : arr2 F;
  (* Trade *)
  sigma : arr1 F;
  gamma : arr3 F;
  tariff : arr3 F;
  iceberg : arr3 F;
  (* Baseline flows (consumer prices) *)
  trade_flows : option (arr3 F)
}.

(** *** load_inputs *)

(** The CSV files after [csv.DictReader], [int(...)] and [float(...)]:
    one tuple per row, ids as Python ints.  Reading and parsing the
    files is outside the model; an optional file is [None] when its
    path does not exist. *)
Record Inputs (F : Type) : Type := {
  countries_csv : list (Z * string);            (* country_id, code or name *)
  sectors_csv : list (Z * string);              (* sector_id, code or name *)
  trade_flows_csv : list (Z * Z * Z * F);       (* importer_id, exporter_id, sector_id, value *)
  tariffs_baseline_csv : list (Z * Z * Z * F);  (* importer_id, exporter_id, sector_id, rate *)
  io_coeffs_csv : list (Z * Z * Z * F);         (* country_id, sector_id, input_sector_id, share *)
  elasticities_csv : list (Z * F);              (* sector_id, sigma *)
  labor_endowments_csv : list (Z * F);          (* country_id, labor *)
  trade_balance_csv : list (Z * F);             (* country_id, balance *)
  iceberg_costs_csv : option (list (Z * Z * Z * F));
  gamma_weights_csv : option (list (Z * Z * Z * F));
  productivity_csv : option (list (Z * Z * F));
  utility_weights_csv : option (list (Z * Z * F))
}.

Section Load.
Context {F : Type} {ops : Float64 F}.
Local Open Scope np_scope.
Local Open Scope Z_scope.

Definition validate (data : ModelData F) : result unit :=
  (* the shape of every array is the one its type and [dims] give it *)
  Ok tt.

(** [max(int(r[key]) for r in rows) + 1] *)
Definition _infer_size (ids : list Z) : result Z :=
  match ids with
  | [] => Raise (ValueError "max() arg is an empty sequence")
  | x :: t => Ok (fold_left Z.max t x + 1)
  end.

Definition set1 (v : arr1 F) (i : nat) (x : F) : arr1 F :=
  fun i' => if Nat.eqb i' i then x else v i'.
Definition set2 (v : arr2 F) (i j : nat) (x : F) : arr2 F :=
  fun i' j' => if Nat.eqb i' i && Nat.eqb j' j then x else v i' j'.
Definition set3 (v : arr3 F) (i j k : nat) (x : F) : arr3 F :=
  fun i' j' k' => if Nat.eqb i' i && Nat.eqb j' j && Nat.eqb k' k then x else v i' j' k'.

(** [for r in rows: v[int(r[id])] = f(float(r[value]))] *)
Fixpoint fill1 (n : Z) (f : F -> F) (rows : list (Z * F)) (v : arr1 F)
  : result (arr1 F) :=
  match rows with
  | [] => Ok v
  | (i, x) :: rest =>
      (i' <- py_index n i ;; fill1 n f rest (set1 v i' (f x)))%result
  end.

Fixpoint fill2 (n m : Z) (f : F -> F) (rows : list (Z * Z * F)) (v : arr2 F)
  : result (arr2 F) :=
  match rows with
  | [] => Ok v
  | (i, j, x) :: rest =>
      (i' <- py_index n i ;; j' <- py_index m j ;;
       fill2 n m f rest (set2 v i' j' (f x)))%result
  end.

Fixpoint fill3 (n m p : Z) (f : F -> F) (rows : list (Z * Z * Z * F)) (v : arr3 F)
  : result (arr3 F) :=
  match rows with
  | [] => Ok v
  | (i, j, k, x) :: rest =>
      (i' <- py_index n i ;; j' <- py_index m j ;; k' <- py_index p k ;;
       fill3 n m p f rest (set3 v i' j' k' (f x)))%result
  end.

(** [names = [""] * n; for r in rows: names[int(r[id])] = label] *)
Fixpoint set_nth (l : list string) (i : nat) (x : string) : list string :=
  match l, i with
  | [], _ => []
  | _ :: t, O => x :: t
  | y :: t, S i' => y :: set_nth t i' x
  end.

Fixpoint fill_names (rows : list (Z * string)) (names : list string)
  : result (list string) :=
  match rows with
  | [] => Ok names
  | (i, x) :: rest =>
      (i' <- py_index (Z.of_nat (List.length names)) i ;;
       fill_names rest (set_nth names i' x))%result
  end.

Definition load_inputs (inp : Inputs F) : result (ModelData F) :=
  (n_countries <- _infer_size (map fst (countries_csv inp)) ;;
   n_sectors <- _infer_size (map fst (sectors_csv inp)) ;;
   let dims := {| n_countries := Z.to_nat n_countries; n_sectors := Z.to_nat n_sectors |} in
   let N := Data.n_countries dims in
   let S_ := Data.n_sectors dims in
   countries <- fill_names (countries_csv inp) (repeat EmptyString N) ;;
   sectors <- fill_names (sectors_csv inp) (repeat EmptyString S_) ;;
   (* Trade flows *)
   trade_flows <- fill3 n_countries n_countries n_sectors (fun x => x)
                    (trade_flows_csv inp) (fun _ _ _ => c_0) ;;
   (* Tariffs (baseline) *)
   tariff <- fill3 n_countries n_countries n_sectors (fun rate => c_1 + rate)%np
               (tariffs_baseline_csv inp) (fun _ _ _ => c_1) ;;
   (* IO coefficients *)
   alpha <- fill3 n_countries n_sectors n_sectors (fun x => x)
              (io_coeffs_csv inp) (fun _ _ _ => c_0) ;;
   let beta := fun i s => (c_1 - np_sum S_ (fun k => alpha i s k))%np in
   if existsb (fun b => b <? - c_1e_8)%np (flat2 N S_ beta)
   then Raise (ValueError "Labor shares implied by io_coeffs are negative. Check IO shares.")
   else
   (* Elasticities *)
   sigma <- fill1 n_sectors (fun x => x) (elasticities_csv inp) (fun _ => c_0) ;;
   (* Labor endowments *)
   L <- fill1 n_countries (fun x => x) (labor_endowments_csv inp) (fun _ => c_0) ;;
   (* Trade balance *)
   D <- fill1 n_countries (fun x => x) (trade_balance_csv inp) (fun _ => c_0) ;;
   (* Optional iceberg costs *)
   iceberg <-
     match iceberg_costs_csv inp with
     | Some rows => fill3 n_countries n_countries n_sectors (fun x => x) rows (fun _ _ _ => c_1)
     | None => Ok (fun _ _ _ => c_1)
     end ;;
   (* Optional Armington weights *)
   gamma <-
     match gamma_weights_csv inp with
     | Some rows => fill3 n_countries n_countries n_sectors (fun x => x) rows (fun _ _ _ => c_0)
     | None =>
         (* Infer from baseline trade shares *)
         let denom := fun i s => np_sum N (fun j => trade_flows i j s) in
         Ok (fun i j s => np_where (denom i s >? c_0) (trade_flows i j s / denom i s) c_0)%np
     end ;;
   (* Optional productivity *)
   z <-
     match productivity_csv inp with
     | Some rows => fill2 n_countries n_sectors (fun x => x) rows (fun _ _ => c_1)
     | None => Ok (fun _ _ => c_1)
     end ;;
   (* Utility weights (optional) *)
   a <-
     match utility_weights_csv inp with
     | Some rows =>
         a <- fill2 n_countries n_sectors (fun x => x) rows (fun _ _ => c_0) ;;
         (* Normalize to sum to 1 *)
         let a_sum := fun i => np_sum S_ (fun s => a i s) in
         Ok (fun i s => np_where (a_sum i >? c_0) (a i s / a_sum i) (a i s))%np
     | None => Ok (fun _ _ => c_1 / of_int n_sectors)%np
     end ;;
   let data :=
     {| dims := dims; countries := countries; sectors := sectors;
        a := a; L := L; D := D;
        alpha := alpha; beta := beta; z := z;
        sigma := sigma; gamma := gamma; tariff := tariff; iceberg := iceberg;
        trade_flows := Some trade_flows |} in
   _ <- validate data ;;
   Ok data)%result.

End Load.

End Data.

(** ** equilibrium.py *)

Module Equilibrium.
Import Data.

Record EquilibriumResult (F : Type) : Type := {
  wages : arr1 F;
  prices : price_array F;
  trade_shares : arr3 F;
  revenues : arr2 F;
  income : arr1 F;
  tariff_revenue : arr1 F;
  real_income : vec_array F
}.

Section Solver.
Context {F : Type} {ops : Float64 F} {lm : Libm F}.
Variable data : ModelData F.

Let N : nat := n_countries (dims data).
Let S_ : nat := n_sectors (dims data).

Local Open Scope np_scope.

(** The body of [_unit_costs] once [np.einsum] has accepted [log_p]. *)
Definition unit_costs_of (wages : arr1 F) (log_p : arr2 F) : arr2 F :=
  (* log formulation for stability *)
  let log_w := fun i => flog (wages i) in
  let io_term := fun i s => np_sum S_ (fun k => Data.alpha data i s k * log_p i k) in
  let log_c := fun i s => - flog (Data.z data i s) + Data.beta data i s * log_w i + io_term i s in
  fun i s => fexp (log_c i s).

(** [np.einsum("isk,ik->is", alpha, log_p)] takes a [log_p] of two axes
    and no other. *)
Definition _unit_costs (wages : arr1 F) (prices : price_array F) : result (arr2 F) :=
  match price_map flog prices with
  | Shape_NS log_p => Ok (unit_costs_of wages log_p)
  | Shape_1NS _ =>
      Raise (ValueError "operand has more dimensions than subscripts given in einstein sum, but no '...' ellipsis provided to broadcast the extra dimensions.")
  end.

(** The locals of [_price_index], by name. *)
Definition delivered (costs : arr2 F) (tariff iceberg : arr3 F) : arr3 F :=
  fun i j s => costs j s * iceberg i j s * tariff i j s.

(** [power] has shape [(1, 1, S)]: [power s] is [power[0, 0, s]]. *)
Definition power : arr1 F := fun s => c_1 - Data.sigma data s.

Definition term (costs : arr2 F) (tariff iceberg : arr3 F) : arr3 F :=
  fun i j s => Data.gamma data i j s * fpow (delivered costs tariff iceberg i j s) (power s).

Definition denom (costs : arr2 F) (tariff iceberg : arr3 F) : arr2 F :=
  fun i s => np_sum N (fun j => term costs tariff iceberg i j s).

(** [denom] has shape [(N, S)] and [1.0 / power] shape [(1, 1, S)], so
    [prices] has shape [(1, N, S)].  In [trade_shares] both operands
    have three axes. *)
Definition _price_index (costs : arr2 F) (tariff iceberg : arr3 F)
  : price_array F * arr3 F :=
  let term := term costs tariff iceberg in
  let denom := denom costs tariff iceberg in
  let prices := Shape_1NS (fun i s => fpow (denom i s) (c_1 / power s)) in
  let trade_shares :=
    fun i j s => np_where (denom i s >? c_0) (term i j s / denom i s) c_0 in
  (prices, trade_shares).

(** The locals of one pass of the loop of [_solve_income_and_revenue]. *)
Record FlowVars : Type := {
  flows : arr3 F;
  tariff_rev : arr1 F;
  income_new : arr1 F;
  revenues_new : arr2 F
}.

Definition circular_flow (trade_shares tariff iceberg : arr3 F) (wages : arr1 F)
  (income : arr1 F) (revenues : arr2 F) : FlowVars :=
  (* Final consumption expenditure *)
  let exp_final := fun i s => Data.a data i s * income i in
  (* Intermediate input expenditure: einsum("isk,is->ik") *)
  let exp_intermediate :=
    fun i k => np_sum S_ (fun s => Data.alpha data i s k * revenues i s) in
  let total_exp := fun i s => exp_final i s + exp_intermediate i s in
  (* Bilateral expenditure at consumer prices *)
  let flows := fun i j s => trade_shares i j s * total_exp i s in
  (* Tariff revenue: sum over axes (1, 2) *)
  let tariff_component := fun i j s => (tariff i j s - c_1) / tariff i j s in
  let tariff_rev :=
    fun i => np_sum N (fun j => np_sum S_ (fun s => tariff_component i j s * flows i j s)) in
  let income_new := fun i => wages i * Data.L data i + tariff_rev i + Data.D data i in
  (* Producer revenues: sum over axis 0 *)
  let revenues_new :=
    fun j s => np_sum N (fun i => flows i j s / (iceberg i j s * tariff i j s)) in
  {| flows := flows; tariff_rev := tariff_rev;
     income_new := income_new; revenues_new := revenues_new |}.

Definition rel_change1 (new old : arr1 F) : arr1 F :=
  fun i => fabs (new i - old i) / (fabs (old i) + c_1e_12).

Definition rel_change2 (new old : arr2 F) : arr2 F :=
  fun i s => fabs (new i s - old i s) / (fabs (old i s) + c_1e_12).

Definition inner_max_diff (income income_new : arr1 F) (revenues revenues_new : arr2 F)
  : result F :=
  (m1 <- np_max (flat1 N (rel_change1 income_new income)) ;;
   m2 <- np_max (flat2 N S_ (rel_change2 revenues_new revenues)) ;;
   Ok (py_max m1 m2))%result.

Definition blend1 (w : F) (old new : arr1 F) : arr1 F :=
  fun i => (c_1 - w) * old i + w * new i.

Definition half_blend1 (old new : arr1 F) : arr1 F :=
  fun i => c_0_5 * old i + c_0_5 * new i.

Definition half_blend2 (old new : arr2 F) : arr2 F :=
  fun i s => c_0_5 * old i s + c_0_5 * new i s.

(** The [for _ in range(max_iter)] loop; [last] is the binding of
    [tariff_rev], absent before the first pass. *)
Fixpoint income_loop (trade_shares tariff iceberg : arr3 F) (wages : arr1 F) (tol : F)
  (n : nat) (income : arr1 F) (revenues : arr2 F) (last : option (arr1 F))
  : result (arr1 F * arr2 F * arr1 F) :=
  match n with
  | O =>
      match last with
      | Some tariff_rev => Ok (income, revenues, tariff_rev)
      | None => Raise (UnboundLocalError "tariff_rev")
      end
  | S n' =>
      let v := circular_flow trade_shares tariff iceberg wages income revenues in
      (max_diff <- inner_max_diff income (income_new v) revenues (revenues_new v) ;;
       let income' := half_blend1 income (income_new v) in
       let revenues' := half_blend2 revenues (revenues_new v) in
       if max_diff <? tol
       then Ok (income_new v, revenues_new v, tariff_rev v)
       else income_loop trade_shares tariff iceberg wages tol n'
              income' revenues' (Some (tariff_rev v)))%result
  end.

Definition _solve_income_and_revenue (trade_shares tariff iceberg : arr3 F)
  (wages income_init : arr1 F) (revenue_init : arr2 F) (max_iter : nat) (tol : F)
  : result (arr1 F * arr2 F * arr1 F) :=
  income_loop trade_shares tariff iceberg wages tol max_iter income_init revenue_init None.

(** [np.sum(..., axis=1)] runs over the sectors of an array of shape
    [(N, S)] and over the countries of one of shape [(1, N, S)], where
    it leaves shape [(1, S)]; [income] has shape [(N,)]. *)
Definition _real_income (income : arr1 F) (prices : price_array F)
  : result (vec_array F) :=
  let log_price_index :=
    match prices with
    | Shape_NS p =>
        {| row := false; len := N;
           item := fun i => np_sum S_ (fun s => Data.a data i s * flog (p i s)) |}
    | Shape_1NS p =>
        {| row := true; len := S_;
           item := fun s => np_sum N (fun i => Data.a data i s * flog (p i s)) |}
    end in
  let price_index := vec_map fexp log_price_index in
  vec_map2 fdiv {| row := false; len := N; item := income |} price_index.

(** The variables of [solve_equilibrium] that live across passes of its
    loop; [trade_shares] and [tariff_rev] are bound by the first pass. *)
Record LoopState : Type := {
  st_wages : arr1 F;
  st_prices : price_array F;
  st_income : arr1 F;
  st_revenues : arr2 F;
  st_trade_shares : option (arr3 F);
  st_tariff_rev : option (arr1 F)
}.

Definition labor_demand (wages : arr1 F) (revenues : arr2 F) : arr1 F :=
  fun i => np_sum S_ (fun s => Data.beta data i s * revenues i s) / wages i.

(** [wages_new] before the numeraire normalisation. *)
Definition wages_update (damp : F) (wages : arr1 F) (revenues : arr2 F) : arr1 F :=
  fun i => wages i * fpow (labor_demand wages revenues i / Data.L data i) damp.

Definition outer_max_diff (wages wages_new : arr1 F)
  (prices_prev new_prices : price_array F) : result F :=
  (m1 <- np_max (flat1 N (rel_change1 wages_new wages)) ;;
   m2 <- np_max (flat2 N S_ (rel_change2 (entries new_prices) (entries prices_prev))) ;;
   Ok (py_max m1 m2))%result.

(** One pass of the loop body, up to the [break] test: the next state
    and [max_diff]. *)
Definition outer_body (tariff iceberg : arr3 F) (damp : F) (st : LoopState)
  : result (LoopState * F) :=
  let wages := st_wages st in
  let prices := st_prices st in
  (costs <- _unit_costs wages prices ;;
   let '(new_prices, trade_shares) := _price_index costs tariff iceberg in
   '(income, revenues, tariff_rev) <-
     _solve_income_and_revenue trade_shares tariff iceberg wages
       (st_income st) (st_revenues st) 500 c_1e_9 ;;
   let wages_new := wages_update damp wages revenues in
   w0 <- getitem0 N wages_new ;;
   let wages_new := fun i => wages_new i / w0 in (* normalize numeraire *)
   (* Dampen price updates for stability *)
   let prices_prev := prices in
   let prices :=
     price_map2 fadd (price_map (fmul (c_1 - damp)) prices)
                     (price_map (fmul damp) new_prices) in
   max_diff <- outer_max_diff wages wages_new prices_prev new_prices ;;
   Ok ({| st_wages := wages_new; st_prices := prices;
          st_income := income; st_revenues := revenues;
          st_trade_shares := Some trade_shares;
          st_tariff_rev := Some tariff_rev |}, max_diff))%result.

Fixpoint outer_loop (tariff iceberg : arr3 F) (tol damp : F) (n : nat) (st : LoopState)
  : result LoopState :=
  match n with
  | O => Ok st
  | S n' =>
      ('(st', max_diff) <- outer_body tariff iceberg damp st ;;
       if max_diff <? tol then Ok st' else outer_loop tariff iceberg tol damp n' st')%result
  end.

Definition initial_state : LoopState :=
  let wages := fun _ : nat => c_1 in
  {| st_wages := wages;
     st_prices := Shape_NS (fun _ _ => c_1);
     st_income := fun i => wages i * Data.L data i + Data.D data i;
     st_revenues := fun _ _ => c_1;
     st_trade_shares := None;
     st_tariff_rev := None |}.

(** [verbose] only prints and is left out. *)
Definition solve_equilibrium (tariff iceberg : option (arr3 F)) (max_iter : nat)
  (tol damp : F) : result (EquilibriumResult F) :=
  let tariff := match tariff with None => Data.tariff data | Some t => t end in
  let iceberg := match iceberg with None => Data.iceberg data | Some t => t end in
  (st <- outer_loop tariff iceberg tol damp max_iter initial_state ;;
   real_income <- _real_income (st_income st) (st_prices st) ;;
   match st_trade_shares st, st_tariff_rev st with
   | Some trade_shares, Some tariff_rev =>
       Ok {| wages := st_wages st; prices := st_prices st;
             trade_shares := trade_shares; revenues := st_revenues st;
             income := st_income st; tariff_revenue := tariff_rev;
             real_income := real_income |}
   | None, _ => Raise (UnboundLocalError "trade_shares")
   | Some _, None => Raise (UnboundLocalError "tariff_rev")
   end)%result.

End Solver.

Section Welfare.
Context {F : Type} {ops : Float64 F}.
Local Open Scope np_scope.

Definition welfare_change (base new : EquilibriumResult F) : result (vec_array F) :=
  (* Percent change in real income *)
  (ratio <- vec_map2 fdiv (real_income new) (real_income base) ;;
   Ok (vec_map (fun x => (x - c_1) * c_100) ratio))%result.

End Welfare.

End Equilibrium.

(** ** optimize.py *)

Module Optimize.

Record GAConfig (F : Type) : Type := {
  population : Z;
  generations : Z;
  crossover_rate : F;
  mutation_rate : F;
  mutation_scale : F;
  elite_share : F;
  seed : option Z
}.

(** [np.random.Generator]: the state of the bit generator and one
    sample of each distribution the optimizer draws from. *)
Class Generator (G F : Type) : Type := {
  default_rng : option Z -> G;
  sample_uniform : G -> F -> F -> G * F;   (* on [low, high) *)
  sample_integers : G -> Z -> Z -> G * Z;  (* in [low, high) *)
  sample_random : G -> G * F;              (* on [0, 1) *)
  sample_normal : G -> F -> F -> G * F     (* loc, scale *)
}.

(** [np.argsort] on an array of shape [(n,)]; the order among equal
    scores is the library's choice. *)
Class Sorter (F : Type) : Type := {
  argsort : nat -> arr1 F -> list nat
}.

Section GA.
Context {F G : Type} {ops : Float64 F} {gen : Generator G F} {srt : Sorter F}.
Local Open Scope np_scope.

Variable objective : arr1 F -> F.
(** [bounds = (low, high)], both of shape [(dim,)]. *)
Variable dim : nat.
Variables low high : arr1 F.
Variable config : GAConfig F.

(** Draw [n] samples in sequence. *)
Fixpoint samples {X : Type} (draw : nat -> G -> G * X) (k n : nat) (g : G)
  : G * list X :=
  match n with
  | O => (g, [])
  | S n' =>
      let '(g, x) := draw k g in
      let '(g, xs) := samples draw (S k) n' g in
      (g, x :: xs)
  end.

Definition of_list {X : Type} (d : X) (l : list X) : nat -> X := fun i => nth i l d.

(** [rng.uniform(low, high, size=(n, dim))]: the range [high - low]
    is checked, then the output of [n] rows is allocated and filled. *)
Definition rng_uniform (g : G) (n : Z) : result (G * arr2 F) :=
  let range := fun k => high k - low k in
  if negb (forallb (fun k => fisfinite (range k)) (seq 0 dim))
  then Raise (OverflowError "Range exceeds valid bounds")
  else if existsb (fun k => is_negative (range k)) (seq 0 dim)
  then Raise (ValueError "high - low < 0")
  else if (n <? 0)%Z
  then Raise (ValueError "negative dimensions are not allowed")
  else
    let '(g, rows) :=
      samples (fun _ g =>
                 let '(g, row) := samples (fun k g => sample_uniform g (low k) (high k)) 0 dim g in
                 (g, of_list c_0 row)) 0 (Z.to_nat n) g in
    Ok (g, of_list (fun _ => c_0) rows).

(** [rng.integers(lo, hi)] *)
Definition rng_integers (g : G) (lo hi : Z) : result (G * Z) :=
  if (lo <? hi)%Z then Ok (sample_integers g lo hi)
  else Raise (ValueError "low >= high").

(** [rng.integers(lo, hi, size=k)] *)
Definition rng_integers_n (g : G) (lo hi : Z) (k : nat) : result (G * list Z) :=
  if (lo <? hi)%Z then Ok (samples (fun _ g => sample_integers g lo hi) 0 k g)
  else Raise (ValueError "low >= high").

(** [rng.normal(loc, scale, size=dim)] *)
Definition rng_normal (g : G) (loc scale : F) : result (G * arr1 F) :=
  if is_negative scale then Raise (ValueError "scale < 0")
  else
    let '(g, xs) := samples (fun _ g => sample_normal g loc scale) 0 dim g in
    Ok (g, of_list c_0 xs).

Definition elite_n : result nat :=
  (n <- py_int (elite_share config * of_int (population config)) ;;
   Ok (Z.to_nat (Z.max 1 n)))%result.

Fixpoint mapM {X Y : Type} (f : X -> result Y) (l : list X) : result (list Y) :=
  match l with
  | [] => Ok []
  | x :: t => (y <- f x ;; ys <- mapM f t ;; Ok (y :: ys))%result
  end.

(** Selection (tournament), on the sorted population. *)
Definition tournament_select (pop : arr2 F) (scores : arr1 F) (g : G)
  : result (G * arr1 F) :=
  ('(g, idx) <- rng_integers_n g 0 (population config) 3 ;;
   idx <- mapM (py_index (population config)) idx ;;
   b <- np_argmax (map scores idx) ;;
   let best := nth b idx O in
   Ok (g, pop best))%result.

(** One pass of the [while len(new_pop) < config.population] loop. *)
Definition make_child (pop : arr2 F) (scores : arr1 F) (g : G)
  : result (G * arr1 F) :=
  ('(g, parent1) <- tournament_select pop scores g ;;
   '(g, parent2) <- tournament_select pop scores g ;;
   let '(g, u) := sample_random g in
   '(g, child) <-
     (if u <? crossover_rate config
      then
        '(g, cross_point) <- rng_integers g 1 (Z.of_nat dim) ;;
        let cross_point := Z.to_nat cross_point in
        Ok (g, fun k => if Nat.ltb k cross_point then parent1 k else parent2 k)
      else Ok (g, parent1)) ;;
   let '(g, u) := sample_random g in
   '(g, child) <-
     (if u <? mutation_rate config
      then
        '(g, noise) <- rng_normal g c_0 (mutation_scale config) ;;
        Ok (g, fun k => child k + noise k)
      else Ok (g, child)) ;;
   let child := fun k => np_clip (child k) (low k) (high k) in
   Ok (g, child))%result.

Fixpoint breed (pop : arr2 F) (scores : arr1 F) (fuel : nat) (g : G)
  (new_pop : list (arr1 F)) : result (G * list (arr1 F)) :=
  match fuel with
  | O => Ok (g, new_pop)
  | S fuel' =>
      ('(g, child) <- make_child pop scores g ;;
       breed pop scores fuel' g (new_pop ++ [child]))%result
  end.

Record GAState : Type := {
  ga_rng : G;
  ga_pop : arr2 F;
  ga_scores : arr1 F
}.

(** One pass of the [for _ in range(config.generations)] loop. *)
Definition generation (n elite_n : nat) (st : GAState) : result GAState :=
  let order := rev (argsort n (ga_scores st)) in
  let pop := fun i => ga_pop st (nth i order O) in
  let scores := fun i => ga_scores st (nth i order O) in
  (* elites = pop[:elite_n]; new_pop = [elites[i].copy() for i in range(elite_n)] *)
  if Nat.ltb n elite_n then Raise IndexError
  else
    let new_pop := map pop (seq 0 elite_n) in
    ('(g, new_pop) <- breed pop scores (n - List.length new_pop) (ga_rng st) new_pop ;;
     let pop := of_list (fun _ => c_0) new_pop in
     let scores := fun i => objective (pop i) in
     Ok {| ga_rng := g; ga_pop := pop; ga_scores := scores |})%result.

Fixpoint evolve (n elite_n : nat) (k : nat) (st : GAState) : result GAState :=
  match k with
  | O => Ok st
  | S k' => (st' <- generation n elite_n st ;; evolve n elite_n k' st')%result
  end.

Definition initial_population : result GAState :=
  let rng := default_rng (seed config) in
  ('(g, pop) <- rng_uniform rng (population config) ;;
   Ok {| ga_rng := g; ga_pop := pop; ga_scores := fun i => objective (pop i) |})%result.

Definition genetic_optimize : result (arr1 F * F) :=
  let n := Z.to_nat (population config) in
  (st <- initial_population ;;
   elite_n <- elite_n ;;
   st <- evolve n elite_n (Z.to_nat (generations config)) st ;;
   best_idx <- np_argmax (flat1 n (ga_scores st)) ;;
   Ok (ga_pop st best_idx, ga_scores st best_idx))%result.

End GA.

End Optimize.


(** ** scripts/reproduce_tables.py *)

Module Tables.
Import Data Equilibrium.

(** How a run of the script can end early: an exception of the model
    that nothing catches, [SystemExit], or a [TypeError]. *)
Inductive script_exn : Type :=
| ModelError (e : exn)
| SystemExit (msg : string)
| TypeError (msg : string).

(** What [from_model] finds on disk: whether the two files exist whose
    existence it tests, and the rows of the input files (see [Inputs];
    reading and parsing them is outside the model). *)
Record Files (F : Type) : Type := {
  countries_csv_exists : bool;
  inputs : Inputs F;
  scenario_tariffs_csv_exists : bool
}.

Section FromModel.
Context {F : Type} {ops : Float64 F} {lm : Libm F}.

(** [f"{val:.6f}"] for a float [val]. *)
Variable format_6f : F -> string.

Local Open Scope string_scope.

(** The loop [for code, val in zip(countries, real_income)] over an
    array of shape [(n,)], whose items are floats: the lines printed. *)
Fixpoint income_lines (codes : list string) (vals : list F) : list string :=
  match codes, vals with
  | code :: codes', val :: vals' =>
      ("  " ++ code ++ ": " ++ format_6f val) :: income_lines codes' vals'
  | _, _ => []
  end.

(** The same loop over either shape.  An array of shape [(1, n)] has
    one item, an array of one axis, and [ndarray.__format__] takes a
    format specification for an array of no axis only. *)
Definition print_incomes (codes : list string) (real_income : vec_array F)
  : list string * option script_exn :=
  if row real_income
  then
    match codes with
    | [] => ([], None)
    | _ :: _ =>
        ([], Some (TypeError "unsupported format string passed to numpy.ndarray.__format__"))
    end
  else (income_lines codes (flat1 (len real_income) (item real_income)), None).

(** [from_model]: the lines printed, and the exception that ended the
    run, if any. *)
Definition from_model (files : Files F) : list string * option script_exn :=
  if negb (countries_csv_exists files)
  then ([], Some (SystemExit "Missing input data. Add CSVs to data/inputs and retry."))
  else
    match load_inputs (inputs files) with
    | Raise e => ([], Some (ModelError e))
    | Ok data =>
        (* Baseline equilibrium *)
        match solve_equilibrium data None None 2000 c_1e_8 c_0_3 with
        | Raise e => ([], Some (ModelError e))
        | Ok base_eq =>
            (* Load scenario tariffs (optional) *)
            if negb (scenario_tariffs_csv_exists files)
            then ([], Some (SystemExit
                   "Missing data/inputs/scenario_tariffs.csv. Provide scenario tariff matrices to compute model outputs."))
            else
              let header := "Baseline real income (by country):" in
              match print_incomes (countries data) (real_income base_eq) with
              | (lines, Some e) => (header :: lines, Some e)
              | (lines, None) =>
                  (header :: lines ++
                   [String (Ascii.ascii_of_nat 10) "Scenario tariff matrices detected, but scenario parsing is not implemented yet.";
                    "Add a parser for scenario_tariffs.csv once you decide its schema."],
                   None)
              end
        end
    end.

End FromModel.

End Tables.
(** * The vocabulary of the statements

    Definitions that the theorems below are stated with: readings of a
    result, the loops taken pass by pass, the conditions some statements
    need, the formulas of the specification where they differ from the
    program's, and the concrete inputs the statements are applied to. *)

(** ** Results and numbers *)

(** The exception a call raised, if any. *)
Definition raised {A : Type} (m : result A) : option exn :=
  match m with
  | Ok _ => None
  | Raise e => Some e
  end.

(** Sums of real numbers, from the left as [np_sum] adds. *)
Definition Rlist_sum (l : list R) : R := fold_right Rplus 0%R l.

(** The sum of [g 0 .. g (n-1)]. *)
Definition RSum (n : nat) (g : nat -> R) : R := Rlist_sum (map g (seq 0 n)).

(** An [xfloat] that is a real number, the number it holds (0 for the
    special values), and a positive real number. *)
Definition finite (x : xfloat) : Prop := exists r, x = Fin r.

Definition toR (x : xfloat) : R :=
  match x with
  | Fin r => r
  | _ => 0%R
  end.

Definition positive_real (x : xfloat) : Prop := exists r, x = Fin r /\ (0 < r)%R.

(** What the exactness statements use, and both implementations
    satisfy: a finite nonzero number divided by itself is 1, and the two
    constant computations [1 - 1] and [0 * 100]. *)
Class ExactLaws (F : Type) {ops : Float64 F} : Prop := {
  div_self : forall x : F, fisfinite x = true -> feqb x c_0 = false -> (x / x)%np = c_1;
  one_minus_one : (c_1 - c_1)%np = c_0;
  zero_times_100 : (c_0 * c_100)%np = c_0
}.

Arguments ExactLaws F {ops}.

(** ** The income-revenue loop, pass by pass *)

Section IncomeLoop.
Import Data Equilibrium.
Local Open Scope np_scope.
Context {F : Type} {ops : Float64 F}.
Variable data : ModelData F.
Variables (trade_shares tariff iceberg : arr3 F) (wages : arr1 F) (tol : F).

(** The pair [(income, revenues)] at the head of a pass, the locals the
    pass computes from it, its [max_diff], and the pair the next pass
    starts from. *)
Definition flow_vars (x : arr1 F * arr2 F) : FlowVars :=
  circular_flow data trade_shares tariff iceberg wages (fst x) (snd x).

Definition flow_max_diff (x : arr1 F * arr2 F) : result F :=
  let v := flow_vars x in
  inner_max_diff data (fst x) (income_new v) (snd x) (revenues_new v).

Definition flow_step (x : arr1 F * arr2 F) : arr1 F * arr2 F :=
  let v := flow_vars x in
  (half_blend1 (fst x) (income_new v), half_blend2 (snd x) (revenues_new v)).

Fixpoint flow_iterate (k : nat) (x : arr1 F * arr2 F) : arr1 F * arr2 F :=
  match k with
  | O => x
  | S k' => flow_iterate k' (flow_step x)
  end.

(** Pass [k] (counted from 0) ends with [max_diff] not below [tol]. *)
Definition pass_continues (x : arr1 F * arr2 F) (k : nat) : Prop :=
  exists md, flow_max_diff (flow_iterate k x) = Ok md /\ (md <? tol) = false.

(** Pass [k] ends with [max_diff] below [tol]. *)
Definition pass_converges (x : arr1 F * arr2 F) (k : nat) : Prop :=
  exists md, flow_max_diff (flow_iterate k x) = Ok md /\ (md <? tol) = true.

End IncomeLoop.

(** ** The wage-price loop, pass by pass *)

Section OuterLoop.
Import Data Equilibrium.
Local Open Scope np_scope.
Context {F : Type} {ops : Float64 F} {lm : Libm F}.
Variable data : ModelData F.
Variables (tariff iceberg : arr3 F) (tol damp : F).

(** The unit costs of a pass, from the state at its head, and the CES
    prices (before damping) and trade shares the pass computes from
    them: entry by entry, whatever the shape of the price array. *)
Definition pass_costs (st : LoopState) : arr2 F :=
  unit_costs_of data (st_wages st) (fun i k => flog (entries (st_prices st) i k)).

Definition ces_prices (st : LoopState) : arr2 F :=
  entries (fst (_price_index data (pass_costs st) tariff iceberg)).

Definition ces_shares (st : LoopState) : arr3 F :=
  snd (_price_index data (pass_costs st) tariff iceberg).

(** [wages_new[0]] of a pass, before the division by it; the pass is
    given by the state at its head and the state it leaves. *)
Definition numeraire_update (p : LoopState * LoopState) : F :=
  wages_update data damp (st_wages (fst p)) (st_revenues (snd p)) 0.

(** The passes the loop runs from [st] with a budget of [n]: for each,
    the state at its head and the state it leaves. *)
Fixpoint outer_passes (n : nat) (st : LoopState) : list (LoopState * LoopState) :=
  match n with
  | O => []
  | S n' =>
      match outer_body data tariff iceberg damp st with
      | Ok (st', max_diff) =>
          (st, st') :: (if max_diff <? tol then [] else outer_passes n' st')
      | Raise _ => []
      end
  end.

End OuterLoop.

(** The message of [np.einsum] for an operand with an axis too many. *)
Definition einsum_message : string :=
  "operand has more dimensions than subscripts given in einstein sum, but no '...' ellipsis provided to broadcast the extra dimensions.".

(** ** Parameters and guesses of the homogeneity statement *)

Section Homogeneity.
Import Data Equilibrium.
Local Open Scope np_scope.

Variable data : ModelData xfloat.
Variables (tariff iceberg : arr3 xfloat).

Let N : nat := n_countries (dims data).
Let S_ : nat := n_sectors (dims data).

(** Parameters as the data model of the specification wants them: the
    labor share is one minus the input shares, productivities, tariff
    and iceberg factors are positive, and no elasticity is 1. *)
Record valid_parameters : Prop := {
  vp_alpha : forall i s k, (i < N)%nat -> (s < S_)%nat -> (k < S_)%nat ->
             finite (Data.alpha data i s k);
  vp_beta : forall i s, (i < N)%nat -> (s < S_)%nat ->
            Data.beta data i s = c_1 - np_sum S_ (fun k => Data.alpha data i s k);
  vp_z : forall i s, (i < N)%nat -> (s < S_)%nat -> positive_real (Data.z data i s);
  vp_sigma : forall s, (s < S_)%nat ->
             exists r, Data.sigma data s = Fin r /\ r <> 1%R;
  vp_gamma : forall i j s, (i < N)%nat -> (j < N)%nat -> (s < S_)%nat ->
             finite (Data.gamma data i j s);
  vp_tariff : forall i j s, (i < N)%nat -> (j < N)%nat -> (s < S_)%nat ->
              positive_real (tariff i j s);
  vp_iceberg : forall i j s, (i < N)%nat -> (j < N)%nat -> (s < S_)%nat ->
               positive_real (iceberg i j s)
}.

(** A guess of positive wages and prices. *)
Definition positive_guess (wages : arr1 xfloat) (prices : arr2 xfloat) : Prop :=
  (forall i, (i < N)%nat -> positive_real (wages i)) /\
  (forall i k, (i < N)%nat -> (k < S_)%nat -> positive_real (prices i k)).

End Homogeneity.

(** ** Inputs of [load_inputs] *)

Section LoadChecks.
Import Data.
Local Open Scope np_scope.
Context {F : Type} {ops : Float64 F}.

(** The inputs with every sigma of [elasticities.csv] replaced by [f sigma]. *)
Definition map_sigma (f : F -> F) (inp : Inputs F) : Inputs F :=
  {| countries_csv := countries_csv inp;
     sectors_csv := sectors_csv inp;
     trade_flows_csv := trade_flows_csv inp;
     tariffs_baseline_csv := tariffs_baseline_csv inp;
     io_coeffs_csv := io_coeffs_csv inp;
     elasticities_csv := map (fun r => (fst r, f (snd r))) (elasticities_csv inp);
     labor_endowments_csv := labor_endowments_csv inp;
     trade_balance_csv := trade_balance_csv inp;
     iceberg_costs_csv := iceberg_costs_csv inp;
     gamma_weights_csv := gamma_weights_csv inp;
     productivity_csv := productivity_csv inp;
     utility_weights_csv := utility_weights_csv inp |}.

Definition labor_shares_message : string :=
  "Labor shares implied by io_coeffs are negative. Check IO shares.".

End LoadChecks.

(** ** Laws of the generator and of the sort *)

Section GALaws.
Import Optimize.
Local Open Scope np_scope.
Context {G : Type} {gen : Generator G xfloat} {srt : Sorter xfloat}.

(** [rng.integers(lo, hi)] draws from [lo, hi). *)
Definition integers_in_range : Prop :=
  forall (g : G) (lo hi : Z), (lo < hi)%Z ->
    (lo <= snd (sample_integers g lo hi) < hi)%Z.

(** [np.argsort] of [n] numbers: a permutation of the indices along
    which the scores do not decrease. *)
Definition argsort_sorts (n : nat) : Prop :=
  forall scores : arr1 xfloat,
    Permutation (argsort n scores) (seq 0 n) /\
    ((forall i, (i < n)%nat -> fisnan (scores i) = false) ->
     StronglySorted (fun i j => xleb (scores i) (scores j) = true) (argsort n scores)).

(** A configuration and bounds on which no call of the run raises:
    a population of at least one, between 1 and [population] elites, at
    least two coordinates (a crossover point exists), a mutation scale
    that is not negative, and bounds of finite width, the lower one not
    above the upper one. *)
Record runnable (dim : nat) (low high : arr1 xfloat) (config : GAConfig xfloat)
  (elites : nat) : Prop := {
  run_population : (1 <= population config)%Z;
  run_elite_n : elite_n config = Ok elites;
  run_elites : (elites <= Z.to_nat (population config))%nat;
  run_dim : (2 <= dim)%nat;
  run_scale : is_negative (mutation_scale config) = false;
  run_bounds : forall k, (k < dim)%nat -> fisfinite (high k - low k) = true;
  run_order : forall k, (k < dim)%nat -> is_negative (high k - low k) = false
}.

(** The scores of a state are the objective of its rows. *)
Definition consistent (objective : arr1 xfloat -> xfloat) (st : @GAState xfloat G) : Prop :=
  forall i, ga_scores st i = objective (ga_pop st i).

End GALaws.

(** ** The formulas of the specification *)

Section Claimed.
Import Data Equilibrium.
Context {F : Type} {ops : Float64 F}.

(** The producer revenue as the specification words it: for importer
    [i], the sum over the exporters [j]. *)
Definition claimed_revenue_new (n : nat) (flows iceberg tariff : arr3 F) : arr2 F :=
  fun i s => np_sum n (fun j => fdiv (flows i j s) (fmul (iceberg i j s) (tariff i j s))).

(** The convergence measure as the specification words it: the largest
    relative change between consecutive iterates of wages and prices. *)
Definition claimed_max_diff (n m : nat) (prev next : LoopState (F := F)) : result F :=
  (m1 <- np_max (flat1 n (rel_change1 (st_wages next) (st_wages prev))) ;;
   m2 <- np_max (flat2 n m (rel_change2 (entries (st_prices next))
                                        (entries (st_prices prev)))) ;;
   Ok (py_max m1 m2))%result.

End Claimed.

(** ** Worked inputs in binary64 *)

Section Examples64.
Import Data Equilibrium.
Local Open Scope float_scope.

(** A one-country, one-sector economy in binary64. *)
Definition autarky : ModelData float :=
  {| dims := {| n_countries := 1; n_sectors := 1 |};
     countries := ["A"%string]; sectors := ["x"%string];
     a := fun _ _ => 1; L := fun _ => 1; D := fun _ => 0;
     alpha := fun _ _ _ => 0; beta := fun _ _ => 1; z := fun _ _ => 1;
     sigma := fun _ => 2; gamma := fun _ _ _ => 1;
     tariff := fun _ _ _ => 1; iceberg := fun _ _ _ => 1;
     trade_flows := None |}.

(** Two countries that both buy their one good from country 0. *)
Definition hub : ModelData float :=
  {| dims := {| n_countries := 2; n_sectors := 1 |};
     countries := ["A"%string; "B"%string]; sectors := ["x"%string];
     a := fun _ _ => 1; L := fun _ => 1; D := fun _ => 0;
     alpha := fun _ _ _ => 0; beta := fun _ _ => 1; z := fun _ _ => 1;
     sigma := fun _ => 2; gamma := fun _ j _ => if Nat.eqb j 0 then 1 else 0;
     tariff := fun _ _ _ => 1; iceberg := fun _ _ _ => 1;
     trade_flows := None |}.

Definition hub_shares : arr3 float := fun _ j _ => if Nat.eqb j 0 then 1 else 0.

(** A state whose real incomes are 2.5, with the shapes that
    [EquilibriumResult] documents. *)
Definition some_state : EquilibriumResult float :=
  {| wages := fun _ => 1; prices := Shape_NS (fun _ _ => 1);
     trade_shares := fun _ _ _ => 0.5; revenues := fun _ _ => 1;
     income := fun _ => 2.5; tariff_revenue := fun _ => 0;
     real_income := {| row := false; len := 2; item := fun _ => 2.5 |} |}.

End Examples64.

Section LoadExamples.
Import Data.
Local Open Scope float_scope.
Local Open Scope Z_scope.

(** One country, one sector, read from files whose [io_coeffs.csv] has
    the one row [share] and whose [elasticities.csv] has the one row
    [sigma]; none of the optional files exists. *)
Definition one_by_one (share sigma : float) : Inputs float :=
  {| countries_csv := [(0, "A"%string)];
     sectors_csv := [(0, "x"%string)];
     trade_flows_csv := [(0, 0, 0, 1%float)];
     tariffs_baseline_csv := [(0, 0, 0, 0%float)];
     io_coeffs_csv := [(0, 0, 0, share)];
     elasticities_csv := [(0, sigma)];
     labor_endowments_csv := [(0, 1%float)];
     trade_balance_csv := [(0, 0%float)];
     iceberg_costs_csv := None;
     gamma_weights_csv := None;
     productivity_csv := None;
     utility_weights_csv := None |}.

End LoadExamples.

(** ** Worked economies in exact arithmetic *)

Section ExamplesX.
Import Data Equilibrium.

(** The free-trade scenario of the specification: two countries, one
    sector, no intermediate inputs, [sigma = 4], no tariffs, equal labor
    endowments, balanced trade, Armington weights 0.5/0.5. *)
Definition free_trade : ModelData xfloat :=
  {| dims := {| n_countries := 2; n_sectors := 1 |};
     countries := ["A"%string; "B"%string]; sectors := ["x"%string];
     a := fun _ _ => Fin 1; L := fun _ => Fin 1; D := fun _ => Fin 0;
     alpha := fun _ _ _ => Fin 0; beta := fun _ _ => Fin 1; z := fun _ _ => Fin 1;
     sigma := fun _ => Fin 4; gamma := fun _ _ _ => Fin (1 / 2);
     tariff := fun _ _ _ => Fin 1; iceberg := fun _ _ _ => Fin 1;
     trade_flows := None |}.

(** One country, one sector, [sigma = 2], Armington weight 2: the CES
    price of the first pass is 1/2. *)
Definition lone : ModelData xfloat :=
  {| dims := {| n_countries := 1; n_sectors := 1 |};
     countries := ["A"%string]; sectors := ["x"%string];
     a := fun _ _ => Fin 1; L := fun _ => Fin 1; D := fun _ => Fin 0;
     alpha := fun _ _ _ => Fin 0; beta := fun _ _ => Fin 1; z := fun _ _ => Fin 1;
     sigma := fun _ => Fin 2; gamma := fun _ _ _ => Fin 2;
     tariff := fun _ _ _ => Fin 1; iceberg := fun _ _ _ => Fin 1;
     trade_flows := None |}.

(** Two countries and two sectors, no intermediate inputs, [sigma = 2],
    Armington weights 0.5/0.5; both countries spend all their income on
    sector 0, so that every row of [a] sums to 1 and its columns sum to
    2 and to 0. *)
Definition two_goods : ModelData xfloat :=
  {| dims := {| n_countries := 2; n_sectors := 2 |};
     countries := ["A"%string; "B"%string]; sectors := ["x"%string; "y"%string];
     a := fun _ s => match s with O => Fin 1 | _ => Fin 0 end;
     L := fun _ => Fin 1; D := fun _ => Fin 0;
     alpha := fun _ _ _ => Fin 0; beta := fun _ _ => Fin 1; z := fun _ _ => Fin 1;
     sigma := fun _ => Fin 2; gamma := fun _ _ _ => Fin (1 / 2);
     tariff := fun _ _ _ => Fin 1; iceberg := fun _ _ _ => Fin 1;
     trade_flows := None |}.

(** A state of unit wages, incomes and revenues. *)
Definition unit_state (prices : price_array xfloat)
  (ts : option (arr3 xfloat)) (tr : option (arr1 xfloat)) : LoopState (F := xfloat) :=
  {| st_wages := fun _ => Fin 1; st_prices := prices;
     st_income := fun _ => Fin 1; st_revenues := fun _ _ => Fin 1;
     st_trade_shares := ts; st_tariff_rev := tr |}.

(** The state the solver starts from when [L = 1] and [D = 0]. *)
Definition rest_state : LoopState (F := xfloat) :=
  unit_state (Shape_NS (fun _ _ => Fin 1)) None None.

End ExamplesX.

(** *** A generator and a sort to run the optimizer with *)

Section GAInstances.
Import Optimize.
Local Open Scope np_scope.

(** A counter standing in for the bit generator: the state is the
    number of draws so far, and every sample is a fixed function of it. *)
Definition counter_unit (g : Z) : xfloat := Fin (IZR (g mod 10) / 10).

#[export] Instance counter_rng : Generator Z xfloat := {
  default_rng := fun seed => match seed with Some s => s | None => 0%Z end;
  sample_uniform := fun g lo hi => ((g + 1)%Z, lo + counter_unit g * (hi - lo));
  sample_integers := fun g lo hi => ((g + 1)%Z, (lo + g mod (hi - lo))%Z);
  sample_random := fun g => ((g + 1)%Z, counter_unit g);
  sample_normal := fun g loc scale => ((g + 1)%Z, loc + scale * (counter_unit g - Fin (1 / 2)))
}.

(** A stable insertion argsort; NaN sorts last, as in NumPy. *)
Definition nan_last_leb (x y : xfloat) : bool := (x <=? y) || fisnan y.

Fixpoint insert_index (scores : arr1 xfloat) (i : nat) (l : list nat) : list nat :=
  match l with
  | [] => [i]
  | j :: t =>
      if nan_last_leb (scores j) (scores i) then j :: insert_index scores i t
      else i :: l
  end.

#[export] Instance insertion_sorter : Sorter xfloat := {
  argsort := fun n scores => fold_left (fun l i => insert_index scores i l) (seq 0 n) []
}.

(** The objective of the worked run: minus the square of the first
    coordinate, and 0 where that is not a number. *)
Definition first_square (x : arr1 xfloat) : xfloat :=
  match x O with
  | Fin r => Fin (- (r * r))
  | _ => Fin 0
  end.

Definition small_run : GAConfig xfloat :=
  {| population := 4; generations := 3;
     crossover_rate := Fin (4 / 5); mutation_rate := Fin (1 / 10);
     mutation_scale := Fin (1 / 20); elite_share := Fin (1 / 2);
     seed := Some 7%Z |}.

End GAInstances.

(** ** More worked inputs *)

Section MoreExamples.
Import Data Equilibrium.

(** Two countries and three sectors, no intermediate inputs, [sigma =
    2], Armington weights 1. *)
Definition two_by_three : ModelData xfloat :=
  {| dims := {| n_countries := 2; n_sectors := 3 |};
     countries := ["A"%string; "B"%string];
     sectors := ["x"%string; "y"%string; "z"%string];
     a := fun _ _ => Fin (1 / 3); L := fun _ => Fin 3; D := fun _ => Fin 0;
     alpha := fun _ _ _ => Fin 0; beta := fun _ _ => Fin 1; z := fun _ _ => Fin 1;
     sigma := fun _ => Fin 2; gamma := fun _ _ _ => Fin 1;
     tariff := fun _ _ _ => Fin 1; iceberg := fun _ _ _ => Fin 1;
     trade_flows := None |}.

(** A model with sectors and no country. *)
Definition no_countries : ModelData xfloat :=
  {| dims := {| n_countries := 0; n_sectors := 1 |};
     countries := []; sectors := ["x"%string];
     a := fun _ _ => Fin 1; L := fun _ => Fin 1; D := fun _ => Fin 0;
     alpha := fun _ _ _ => Fin 0; beta := fun _ _ => Fin 1; z := fun _ _ => Fin 1;
     sigma := fun _ => Fin 2; gamma := fun _ _ _ => Fin 1;
     tariff := fun _ _ _ => Fin 1; iceberg := fun _ _ _ => Fin 1;
     trade_flows := None |}.

End MoreExamples.

Section MoreExamplesX.
Import Data Equilibrium.

(** [free_trade] with the elasticity of substitution set to 1. *)
Definition unit_elasticity : ModelData xfloat :=
  {| dims := dims free_trade;
     countries := countries free_trade; sectors := sectors free_trade;
     a := a free_trade; L := L free_trade; D := D free_trade;
     alpha := alpha free_trade; beta := beta free_trade; z := z free_trade;
     sigma := fun _ => Fin 1; gamma := gamma free_trade;
     tariff := tariff free_trade; iceberg := iceberg free_trade;
     trade_flows := None |}.

End MoreExamplesX.

Section MoreStates.
Import Data Equilibrium.

(** A state of two countries with real income [y] in both, in exact
    arithmetic, with the shapes that [EquilibriumResult] documents. *)
Definition state_of_income (y : R) : EquilibriumResult xfloat :=
  {| wages := fun _ => Fin 1; prices := Shape_NS (fun _ _ => Fin 1);
     trade_shares := fun _ _ _ => Fin (1 / 2); revenues := fun _ _ => Fin 1;
     income := fun _ => Fin y; tariff_revenue := fun _ => Fin 0;
     real_income := {| row := false; len := 2; item := fun _ => Fin y |} |}.

End MoreStates.

(** ** Rows of a CSV file *)

Section Rows.
Context {F : Type}.

(** The value of the last row that addresses entry [k] of an axis of
    length [n]: by the id [k] or by the negative id [k - n]. *)
Fixpoint last_value (n : Z) (k : nat) (rows : list (Z * F)) : option F :=
  match rows with
  | [] => None
  | (i, x) :: rest =>
      match last_value n k rest with
      | Some y => Some y
      | None => if ((i =? Z.of_nat k) || (i =? Z.of_nat k - n))%Z then Some x else None
      end
  end.

(** An id that addresses no entry of an axis of length [n]. *)
Definition out_of_range (n i : Z) : Prop := (i < - n \/ n <= i)%Z.

End Rows.

Section MoreInputs.
Import Data.
Context {F : Type} {ops : Float64 F}.

(** Two countries and one sector: trade flows 3 and 1 into country 0,
    2 and 2 into country 1; a tariff rate of 0.5 on one flow; input
    shares 0.5; labor endowments 1 and, under the id [-1], 2; an empty
    file of trade balances; utility weights 1 and 3; no file of
    iceberg costs, Armington weights or productivities. *)
Definition two_country_inputs : Inputs F :=
  {| countries_csv := [(0, "A"%string); (1, "B"%string)]%Z;
     sectors_csv := [(0, "x"%string)]%Z;
     trade_flows_csv := [(0, 0, 0, of_int 3); (0, 1, 0, of_int 1);
                         (1, 0, 0, of_int 2); (1, 1, 0, of_int 2)]%Z;
     tariffs_baseline_csv := [(0, 1, 0, c_0_5)]%Z;
     io_coeffs_csv := [(0, 0, 0, c_0_5); (1, 0, 0, c_0_5)]%Z;
     elasticities_csv := [(0, of_int 4)]%Z;
     labor_endowments_csv := [(0, of_int 1); (-1, of_int 2)]%Z;
     trade_balance_csv := []%Z;
     iceberg_costs_csv := None;
     gamma_weights_csv := None;
     productivity_csv := None;
     utility_weights_csv := Some [(0, 0, of_int 1); (1, 0, of_int 3)]%Z |}.

End MoreInputs.


(** ** More runs of the optimizer *)

Section MoreRuns.
Import Optimize.

(** [small_run] with an empty population. *)
Definition empty_run : GAConfig xfloat :=
  {| population := 0; generations := generations small_run;
     crossover_rate := crossover_rate small_run; mutation_rate := mutation_rate small_run;
     mutation_scale := mutation_scale small_run; elite_share := elite_share small_run;
     seed := seed small_run |}.

(** [small_run] with an elite share of 2: eight elites for four
    candidates. *)
Definition crowded_run : GAConfig xfloat :=
  {| population := population small_run; generations := generations small_run;
     crossover_rate := crossover_rate small_run; mutation_rate := mutation_rate small_run;
     mutation_scale := mutation_scale small_run; elite_share := Fin 2;
     seed := seed small_run |}.

End MoreRuns.

(** ** Candidates and bounds *)

Section Bounds.
Import Optimize.
Context {G : Type} {gen : Generator G xfloat}.

(** [rng.uniform(l, h)] draws a real number from [l] to [h]. *)
Definition uniform_in_range : Prop :=
  forall (g : G) (l h : R), (l <= h)%R ->
    exists x, snd (sample_uniform g (Fin l) (Fin h)) = Fin x /\ (l <= x <= h)%R.

(** [rng.normal] with a real mean and a real scale draws a real number. *)
Definition normal_is_finite : Prop :=
  forall (g : G) (loc scale : R), finite (snd (sample_normal g (Fin loc) (Fin scale))).

(** Real bounds, the lower one not above the upper one. *)
Definition ordered_bounds (dim : nat) (low high : arr1 xfloat) : Prop :=
  forall k, (k < dim)%nat ->
    exists l h, low k = Fin l /\ high k = Fin h /\ (l <= h)%R.

(** A candidate whose coordinates are real numbers within the bounds. *)
Definition within (dim : nat) (low high x : arr1 xfloat) : Prop :=
  forall k, (k < dim)%nat ->
    exists l v h, low k = Fin l /\ x k = Fin v /\ high k = Fin h /\ (l <= v <= h)%R.

End Bounds.
(** * Proofs *)

(** ** Results *)

Lemma bind_Ok {A B : Type} (m : result A) (k : A -> result B) (b : B) :
  bind m k = Ok b -> exists x, m = Ok x /\ k x = Ok b.
Proof.
  destruct m as [x|e]; simpl; intros H; [exists x; auto | discriminate].
Qed.

(** ** Sums in exact arithmetic *)

Section ExactSums.
Local Open Scope R_scope.

Lemma fold_left_Rplus (l : list R) (x : R) :
  fold_left Rplus l x = x + Rlist_sum l.
Proof.
  revert x; induction l as [|y l IH]; intros x; simpl.
  - lra.
  - rewrite IH. lra.
Qed.

Lemma Rlist_sum_scal (c : R) (l : list R) :
  Rlist_sum (map (fun x => c * x) l) = c * Rlist_sum l.
Proof.
  induction l as [|y l IH]; simpl; [lra | rewrite IH; lra].
Qed.

Lemma RSum_ext (n : nat) (g h : nat -> R) :
  (forall k, (k < n)%nat -> g k = h k) -> RSum n g = RSum n h.
Proof.
  intros E. unfold RSum. f_equal. apply map_ext_in.
  intros k Hk. apply in_seq in Hk. apply E. lia.
Qed.

Lemma RSum_scal (n : nat) (c : R) (g : nat -> R) :
  RSum n (fun k => c * g k) = c * RSum n g.
Proof.
  unfold RSum. rewrite <- Rlist_sum_scal, map_map. reflexivity.
Qed.

Lemma RSum_div (n : nat) (d : R) (g : nat -> R) :
  RSum n (fun k => g k / d) = RSum n g / d.
Proof.
  unfold Rdiv. rewrite (Rmult_comm _ (/ d)), <- RSum_scal.
  apply RSum_ext. intros; lra.
Qed.

Lemma RSum_plus (n : nat) (g h : nat -> R) :
  RSum n (fun k => g k + h k) = RSum n g + RSum n h.
Proof.
  unfold RSum. induction (seq 0 n) as [|y l IH]; simpl; [lra | rewrite IH; lra].
Qed.

Lemma RSum_const (n : nat) (c : R) (g : nat -> R) :
  RSum n (fun _ => c) = INR n * c.
Proof.
  unfold RSum. generalize 0%nat.
  induction n as [|n IH]; intros s.
  - simpl. lra.
  - rewrite S_INR. simpl. rewrite IH. lra.
Qed.

End ExactSums.

(** ** The float interface at [xfloat] *)

Section XFloat.
Local Open Scope np_scope.

Lemma Rltb_true (x y : R) : (x < y)%R -> Rltb x y = true.
Proof. intros H. unfold Rltb. destruct (Rlt_dec x y); [reflexivity | contradiction]. Qed.

Lemma Rltb_false (x y : R) : (y <= x)%R -> Rltb x y = false.
Proof. intros H. unfold Rltb. destruct (Rlt_dec x y); [lra | reflexivity]. Qed.

Lemma Rleb_true (x y : R) : (x <= y)%R -> Rleb x y = true.
Proof. intros H. unfold Rleb. destruct (Rle_dec x y); [reflexivity | contradiction]. Qed.

Lemma Rleb_false (x y : R) : (y < x)%R -> Rleb x y = false.
Proof. intros H. unfold Rleb. destruct (Rle_dec x y); [lra | reflexivity]. Qed.

Lemma Reqb_true (x y : R) : x = y -> Reqb x y = true.
Proof. intros H. unfold Reqb. destruct (Req_dec_T x y); [reflexivity | contradiction]. Qed.

Lemma Reqb_false (x y : R) : x <> y -> Reqb x y = false.
Proof. intros H. unfold Reqb. destruct (Req_dec_T x y); [contradiction | reflexivity]. Qed.

Lemma xdiv_Fin (x y : R) : y <> 0%R -> Fin x / Fin y = Fin (x / y).
Proof. intros H. simpl. rewrite (Reqb_false H). reflexivity. Qed.

Lemma fold_left_xadd_Fin (l : list R) (x : R) :
  fold_left xadd (map Fin l) (Fin x) = Fin (x + Rlist_sum l).
Proof.
  revert x; induction l as [|y l IH]; intros x; simpl.
  - f_equal; lra.
  - rewrite IH. f_equal; lra.
Qed.

Lemma np_sum_ext {F : Type} {ops : Float64 F} (n : nat) (f g : nat -> F) :
  (forall k, (k < n)%nat -> f k = g k) -> np_sum n f = np_sum n g.
Proof.
  intros E. unfold np_sum. f_equal. apply map_ext_in.
  intros k Hk. apply in_seq in Hk. apply E. lia.
Qed.

Lemma np_sum_Fin (n : nat) (g : nat -> R) :
  np_sum n (fun k => Fin (g k)) = Fin (RSum n g).
Proof.
  unfold np_sum, RSum.
  rewrite <- (map_map g Fin).
  destruct (map g (seq 0 n)) as [|x l]; simpl; [reflexivity|].
  rewrite fold_left_xadd_Fin. reflexivity.
Qed.

(** A sum is finite only if every summand is. *)
Lemma fold_left_xadd_stuck (l : list xfloat) (x : xfloat) :
  ~ finite x -> ~ finite (fold_left xadd l x).
Proof.
  revert x; induction l as [|y l IH]; intros x Hx; simpl; [exact Hx|].
  apply IH. intros [r Hr]. apply Hx.
  destruct x as [a|s|]; [exists a; reflexivity | |]; destruct y as [b|t|]; simpl in Hr;
    try discriminate; destruct (Bool.eqb s t); discriminate.
Qed.

Lemma fold_left_xadd_finite (l : list xfloat) (x : xfloat) :
  finite (fold_left xadd l x) -> finite x /\ Forall finite l.
Proof.
  revert x; induction l as [|y l IH]; intros x H; simpl in *.
  - split; [exact H | constructor].
  - destruct (IH _ H) as [Hxy Hl].
    destruct x as [a|s|], y as [b|t|]; simpl in Hxy; destruct Hxy as [r Hr];
      try discriminate; try (destruct (Bool.eqb s t); discriminate).
    split; [exists a; reflexivity | constructor; [exists b; reflexivity | exact Hl]].
Qed.

Lemma np_sum_finite (n : nat) (f : nat -> xfloat) :
  (0 < n)%nat -> finite (np_sum n f) -> forall k, (k < n)%nat -> finite (f k).
Proof.
  intros Hn H k Hk. unfold np_sum in H.
  assert (Hall : Forall finite (map f (seq 0 n))).
  { destruct (map f (seq 0 n)) as [|x l] eqn:E.
    - constructor.
    - simpl in H. apply fold_left_xadd_finite in H. constructor; tauto. }
  rewrite Forall_forall in Hall. apply Hall.
  apply in_map. apply in_seq. lia.
Qed.

End XFloat.

(** ** Evaluation in exact arithmetic *)

(** Evaluation of the model on concrete reals: unfold, then decide each
    comparison by linear arithmetic. *)
Ltac xdecide :=
  repeat (match goal with
  | |- context [Reqb ?a ?b] =>
      first [rewrite (@Reqb_true a b) by lra | rewrite (@Reqb_false a b) by lra]
  | |- context [Rltb ?a ?b] =>
      first [rewrite (@Rltb_true a b) by lra | rewrite (@Rltb_false a b) by lra]
  | |- context [Rleb ?a ?b] =>
      first [rewrite (@Rleb_true a b) by lra | rewrite (@Rleb_false a b) by lra]
  | |- context [Rabs ?a] =>
      first [rewrite (@Rabs_pos_eq a) by lra | rewrite (@Rabs_left1 a) by lra]
  | |- context [ln 1] => rewrite ln_1
  | |- context [exp ?a] => replace (exp a) with 1%R by (rewrite <- exp_0; f_equal; lra)
  end; cbv beta iota).

Ltac xmodel :=
  cbv [Equilibrium._unit_costs Equilibrium.unit_costs_of Equilibrium._price_index Equilibrium.delivered
       Equilibrium.power Equilibrium.term Equilibrium.denom Equilibrium.circular_flow
       Equilibrium.rel_change1 Equilibrium.rel_change2 Equilibrium.inner_max_diff
       Equilibrium.outer_max_diff Equilibrium.half_blend1 Equilibrium.half_blend2
       Equilibrium._real_income Equilibrium.labor_demand Equilibrium.wages_update
       Equilibrium.flows Equilibrium.tariff_rev Equilibrium.income_new
       Equilibrium.revenues_new Equilibrium.initial_state
       Equilibrium.st_wages Equilibrium.st_prices Equilibrium.st_income
       Equilibrium.st_revenues Equilibrium.st_trade_shares Equilibrium.st_tariff_rev
       flow_vars flow_max_diff flow_step flow_iterate pass_costs ces_prices ces_shares
       claimed_max_diff unit_state entries price_map price_map2 vec_map vec_map2
       broadcast_axis row len item Nat.eqb
       np_sum reduce np_max np_maximum fisnan py_max np_where getitem0 flat1 flat2
       seq map flat_map app fold_left bind fst snd
       Data.dims Data.n_countries Data.n_sectors Data.a Data.L Data.D Data.alpha
       Data.beta Data.z Data.sigma Data.gamma Data.tariff Data.iceberg
       fadd fsub fmul fdiv fneg fabs feqb fltb fleb fisfinite flog fexp fpow
       c_0 c_1 c_0_5 c_100 c_0_3 c_1e_8 c_1e_9 c_1e_12
       xfloat_ops xfloat_libm
       xadd xsub xmul xdiv xneg xabs xeqb xltb xleb xisfinite xlog xexp xpow
       negb orb andb Bool.eqb xorb].

Ltac xeval := repeat (progress (xmodel; xdecide)).
Ltac funext := repeat (apply functional_extensionality; intro).
Ltac fin :=
  try reflexivity;
  repeat match goal with
         | |- Ok _ = Ok _ => f_equal
         | |- Fin _ = Fin _ => f_equal
         | |- (_, _) = (_, _) => f_equal
         end;
  first [lra | field; lra].


(** Expose the [xfloat] operations behind the interface and compute
    those applied to real numbers. *)
Ltac xops :=
  cbn [fadd fsub fmul fdiv fneg fabs feqb fltb fleb flog fexp fpow c_0 c_1
       xfloat_ops xfloat_libm xadd xsub xmul xneg xabs xexp].


(** ** Shapes *)

Section Shapes.
Context {F : Type} {ops : Float64 F}.

Lemma broadcast_axis_same (n : nat) : broadcast_axis n n = Some n.
Proof. unfold broadcast_axis. rewrite Nat.eqb_refl. reflexivity. Qed.

Lemma broadcast_axis_one (n : nat) : broadcast_axis n 1 = Some n.
Proof.
  unfold broadcast_axis. destruct (n =? 1) eqn:E.
  - apply Nat.eqb_eq in E. subst n. reflexivity.
  - reflexivity.
Qed.

Lemma broadcast_one_axis (n : nat) : broadcast_axis 1 n = Some n.
Proof.
  unfold broadcast_axis. destruct (1 =? n) eqn:E.
  - apply Nat.eqb_eq in E. subst n. reflexivity.
  - reflexivity.
Qed.

Lemma broadcast_axis_none (n m : nat) :
  n <> m -> n <> 1 -> m <> 1 -> broadcast_axis n m = None.
Proof.
  intros H H1 H2. unfold broadcast_axis.
  apply Nat.eqb_neq in H, H1, H2. rewrite H, H1, H2. reflexivity.
Qed.

(** The shape of [np.power(denom, 1.0 / power)] in [_price_index]. *)
Lemma price_index_shape (N S_ : nat) :
  broadcast_shapes [N; S_] [1; 1; S_] = Some [1; N; S_].
Proof.
  unfold broadcast_shapes. cbn [rev app broadcast_from_last].
  rewrite broadcast_axis_same, broadcast_axis_one. reflexivity.
Qed.

(** The shape of an elementwise operation on two price arrays. *)
Lemma price_map2_shape (N S_ : nat) (op : F -> F -> F) (x y : price_array F) :
  broadcast_shapes (price_shape N S_ x) (price_shape N S_ y) =
  Some (price_shape N S_ (price_map2 op x y)).
Proof.
  unfold broadcast_shapes.
  destruct x, y; cbn [price_shape price_map2 rev app broadcast_from_last];
    rewrite !broadcast_axis_same; reflexivity.
Qed.

(** The shape of an elementwise operation on two vectors. *)
Lemma vec_map2_shape (op : F -> F -> F) (x y : vec_array F) :
  broadcast_shapes (vec_shape x) (vec_shape y) =
  match vec_map2 op x y with
  | Ok r => Some (vec_shape r)
  | Raise _ => None
  end.
Proof.
  unfold broadcast_shapes, vec_map2, vec_shape.
  destruct (row x), (row y); cbn [rev app broadcast_from_last orb];
    destruct (broadcast_axis (len x) (len y)); cbn [row len];
    rewrite ?broadcast_axis_same; reflexivity.
Qed.

(** Vectors of one length: the operation goes entry by entry. *)
Lemma vec_map2_same (op : F -> F -> F) (x y : vec_array F) :
  len x = len y ->
  exists r, vec_map2 op x y = Ok r /\ row r = row x || row y /\ len r = len x /\
            forall j, (j < len x)%nat -> item r j = op (item x j) (item y j).
Proof.
  intros E. unfold vec_map2. rewrite <- E, broadcast_axis_same.
  eexists. split; [reflexivity|]. cbn [row len item].
  split; [reflexivity|]. split; [reflexivity|].
  intros j Hj. destruct (len x =? 1) eqn:E1; [|reflexivity].
  apply Nat.eqb_eq in E1. replace j with 0%nat by lia. reflexivity.
Qed.

End Shapes.

(** ** C1: trade shares *)

Section TradeShares.
Import Data Equilibrium.
Local Open Scope np_scope.

Variable data : ModelData xfloat.
Variables (costs : arr2 xfloat) (tariff iceberg : arr3 xfloat).

Let N : nat := n_countries (dims data).

(** C1.  [_price_index] returns a pair of arrays and has no raising
    path: [np.where] selects after both branches were computed, and a
    float64 division by zero is a value (inf or NaN), not an exception.
    For an importer [i] and a sector [s] whose CES denominator is a real
    number [d]: when [d] is positive the trade shares sum to 1 over the
    exporters; when [d] is zero every trade share is 0. *)
Theorem trade_shares_sum (i s : nat) (d : R) :
  denom data costs tariff iceberg i s = Fin d ->
  let shares := snd (_price_index data costs tariff iceberg) in
  ((0 < d)%R -> np_sum N (fun j => shares i j s) = Fin 1) /\
  (d = 0%R -> forall j, shares i j s = Fin 0).
Proof.
  intros Hd. unfold _price_index; cbv zeta; cbn [snd]. fold N. split.
  - intros Hpos.
    assert (HN : (0 < N)%nat).
    { destruct N eqn:E; [|lia]. unfold denom in Hd. fold N in Hd. rewrite E in Hd.
      simpl in Hd. injection Hd as Hd. lra. }
    assert (Hfin : forall j, (j < N)%nat -> finite (term data costs tariff iceberg i j s)).
    { apply (@np_sum_finite N (fun j => term data costs tariff iceberg i j s) HN).
      exists d. exact Hd. }
    set (t := fun j => match term data costs tariff iceberg i j s with Fin r => r | _ => 0%R end).
    assert (Ht : forall j, (j < N)%nat -> term data costs tariff iceberg i j s = Fin (t j)).
    { intros j Hj. destruct (Hfin j Hj) as [r Hr]. unfold t. rewrite Hr. reflexivity. }
    assert (Hsum : RSum N t = d).
    { unfold denom in Hd. fold N in Hd.
      rewrite (np_sum_ext _ (fun j => Fin (t j)) Ht), np_sum_Fin in Hd.
      injection Hd as Hd. exact Hd. }
    rewrite (np_sum_ext _ (fun j => Fin (t j / d))).
    + rewrite np_sum_Fin, RSum_div, Hsum. f_equal. field. lra.
    + intros j Hj. rewrite Hd, (Ht j Hj). cbn.
      rewrite (Rltb_true Hpos), Reqb_false by lra. reflexivity.
  - intros H0 j. rewrite Hd. cbn. rewrite Rltb_false by lra. reflexivity.
Qed.

End TradeShares.

Section TradeSharesCheck.
Import Data Equilibrium.
Local Open Scope np_scope.

Lemma free_trade_denom :
  denom free_trade (fun _ _ => Fin 1) (tariff free_trade) (iceberg free_trade) 0 0 = Fin 1.
Proof. unfold free_trade. xeval. fin. Qed.

(** C1 on [free_trade] at unit costs: the denominator is 1 and the two
    shares of importer 0 sum to 1. *)
Lemma trade_shares_sum_witness :
  np_sum 2 (fun j => snd (_price_index free_trade (fun _ _ => Fin 1)
                            (tariff free_trade) (iceberg free_trade)) 0 j 0) = Fin 1.
Proof.
  apply (proj1 (trade_shares_sum free_trade (fun _ _ => Fin 1)
                  (tariff free_trade) (iceberg free_trade) 0 0 free_trade_denom)).
  lra.
Defined.

(** A binary64 state whose real incomes are 2.5. *)

End TradeSharesCheck.

(** ** Exact results in binary64 *)

Section Binary64.
Local Open Scope Z_scope.

(** The quotient of a finite nonzero binary64 number by itself rounds
    to exactly 1. *)
Lemma SF64div_self (s : bool) (m : positive) (e : Z) :
  SF64div (S754_finite s m e) (S754_finite s m e) = Prim2SF 1%float.
Proof.
  unfold SF64div, SFdiv, SFdiv_core_binary.
  replace (Z.sub (Z.add (Zdigits2 (Zpos m)) e) (Z.add (Zdigits2 (Zpos m)) e)) with 0 by lia.
  replace (Z.sub e e) with 0 by lia.
  change (Z.min (SpecFloat.fexp prec emax 0) 0) with (-53).
  change (0 - -53) with 53.
  cbv iota beta.
  rewrite Z.shiftl_mul_pow2 by lia.
  assert (H : Z.div_eucl (Z.pos m * 2 ^ 53) (Z.pos m) = (2 ^ 53, 0)).
  { pose proof (Z.div_mul (2 ^ 53) (Z.pos m)) as Hd.
    pose proof (Z.mod_mul (2 ^ 53) (Z.pos m)) as Hm.
    unfold Z.modulo, Z.div in *. rewrite (Z.mul_comm (Z.pos m)).
    destruct (Z.div_eucl (2 ^ 53 * Z.pos m) (Z.pos m)) as [q r].
    rewrite Hd, Hm by lia. reflexivity. }
  rewrite H.
  replace (new_location (Z.pos m) 0) with loc_Exact.
  2:{ unfold new_location, new_location_even, new_location_odd.
      destruct (Z.even (Z.pos m)); reflexivity. }
  destruct s; reflexivity.
Qed.

Lemma b64_finite_nonzero (x : float) :
  PrimFloat.is_finite x = true -> PrimFloat.eqb x 0%float = false ->
  exists s m e, Prim2SF x = S754_finite s m e.
Proof.
  unfold PrimFloat.is_finite, PrimFloat.is_nan, PrimFloat.is_infinity.
  rewrite !eqb_spec, abs_spec.
  destruct (Prim2SF x) as [s|s| |s m e]; intros Hf Hz.
  - destruct s; discriminate Hz.
  - destruct s; discriminate Hf.
  - discriminate Hf.
  - exists s, m, e. reflexivity.
Qed.

Lemma b64_div_self (x : float) :
  PrimFloat.is_finite x = true -> PrimFloat.eqb x 0%float = false ->
  PrimFloat.div x x = 1%float.
Proof.
  intros Hf Hz. destruct (b64_finite_nonzero Hf Hz) as (s & m & e & H).
  rewrite <- (SF2Prim_Prim2SF (PrimFloat.div x x)), div_spec, H, SF64div_self.
  apply SF2Prim_Prim2SF.
Qed.

End Binary64.

(** ** Laws of exact results *)

#[export] Instance b64_exact : ExactLaws float.
Proof.
  split.
  - exact b64_div_self.
  - reflexivity.
  - reflexivity.
Qed.

#[export] Instance xfloat_exact : ExactLaws xfloat.
Proof.
  split.
  - intros [r|s|] Hf Hz; try discriminate Hf. cbn in Hz |- *.
    unfold Reqb in *. destruct (Req_dec_T r 0); [discriminate|].
    f_equal. field. assumption.
  - cbn. f_equal. lra.
  - cbn. f_equal. lra.
Qed.

(** ** C9: welfare change *)

Section WelfareChange.
Import Data Equilibrium.
Local Open Scope np_scope.
Context {F : Type} {ops : Float64 F} {laws : ExactLaws F}.

(** C9.  For two states whose real incomes have one length,
    [welfare_change base new] returns an array of that length whose
    entry for country [i] is
    [(new.real_income[i] / base.real_income[i] - 1) * 100]; and the
    welfare change of a state [x] against itself is exactly 0 wherever
    the real income of [x] is finite and nonzero.  (For an array of
    shape [(1, n)] the entry for [i] is the one at [[0, i]]; the
    result has that shape when one of the two real incomes has.) *)
Theorem welfare_change_spec (base new x : EquilibriumResult F) :
  (len (real_income new) = len (real_income base) ->
   exists r, welfare_change base new = Ok r /\
             row r = row (real_income new) || row (real_income base) /\
             len r = len (real_income new) /\
             forall i, (i < len r)%nat ->
               item r i =
               (item (real_income new) i / item (real_income base) i - c_1) * c_100) /\
  (exists r, welfare_change x x = Ok r /\
             len r = len (real_income x) /\
             forall i, (i < len r)%nat ->
               fisfinite (item (real_income x) i) = true ->
               feqb (item (real_income x) i) c_0 = false ->
               item r i = c_0).
Proof.
  assert (formula : forall b n : EquilibriumResult F,
            len (real_income n) = len (real_income b) ->
            exists r, welfare_change b n = Ok r /\
                      row r = row (real_income n) || row (real_income b) /\
                      len r = len (real_income n) /\
                      forall i, (i < len r)%nat ->
                        item r i =
                        (item (real_income n) i / item (real_income b) i - c_1) * c_100).
  { intros b n E. unfold welfare_change.
    destruct (vec_map2_same fdiv (real_income n) (real_income b) E)
      as (q & Hq & Hrow & Hlen & Hitem).
    rewrite Hq. cbn [bind]. eexists. split; [reflexivity|].
    cbn [vec_map row len item]. split; [exact Hrow|]. split; [exact Hlen|].
    intros i Hi. rewrite Hitem by lia. reflexivity. }
  split; [apply formula|].
  destruct (formula x x eq_refl) as (r & Hr & _ & Hlen & Hitem).
  exists r. split; [exact Hr|]. split; [exact Hlen|].
  intros i Hi Hf Hz. rewrite Hitem by exact Hi.
  rewrite div_self by assumption. rewrite one_minus_one. apply zero_times_100.
Qed.

End WelfareChange.

Section WelfareCheck.
Import Data Equilibrium.
Local Open Scope float_scope.

(** C9 on [some_state], in binary64: the state against itself. *)
Lemma welfare_change_spec_witness :
  len (real_income some_state) = len (real_income some_state) /\
  exists r, welfare_change some_state some_state = Ok r /\
            len r = 2%nat /\ item r 1%nat = 0.
Proof.
  split; [reflexivity|].
  destruct (welfare_change_spec (laws := b64_exact) some_state some_state some_state)
    as ((r & Hr & _ & Hlen & Hitem) & (r' & Hr' & _ & Hzero)); [reflexivity|].
  assert (E : r' = r) by congruence. subst r'.
  exists r. split; [exact Hr|]. split; [exact Hlen|].
  apply Hzero; [rewrite Hlen; cbn; lia | reflexivity | reflexivity].
Defined.

End WelfareCheck.

(** ** The income-revenue loop, pass by pass *)

Section IncomeLoopProofs.
Import Data Equilibrium.
Local Open Scope np_scope.
Context {F : Type} {ops : Float64 F}.
Variable data : ModelData F.
Variables (trade_shares tariff iceberg : arr3 F) (wages : arr1 F) (tol : F).

Lemma income_loop_S (n : nat) (income : arr1 F) (revenues : arr2 F)
  (last : option (arr1 F)) (md : F) :
  flow_max_diff data trade_shares tariff iceberg wages (income, revenues) = Ok md ->
  income_loop data trade_shares tariff iceberg wages tol (S n) income revenues last =
  let v := flow_vars data trade_shares tariff iceberg wages (income, revenues) in
  if md <? tol then Ok (income_new v, revenues_new v, tariff_rev v)
  else income_loop data trade_shares tariff iceberg wages tol n
         (half_blend1 income (income_new v)) (half_blend2 revenues (revenues_new v))
         (Some (tariff_rev v)).
Proof.
  intros H. unfold flow_max_diff, flow_vars in H. cbn [fst snd] in H.
  cbn [income_loop]. rewrite H. reflexivity.
Qed.

Lemma income_loop_exhausted (n : nat) :
  forall (income : arr1 F) (revenues : arr2 F) (last : option (arr1 F)),
  (forall k, (k < S n)%nat -> pass_continues data trade_shares tariff iceberg wages tol (income, revenues) k) ->
  income_loop data trade_shares tariff iceberg wages tol (S n) income revenues last =
  Ok (fst (flow_iterate data trade_shares tariff iceberg wages (S n) (income, revenues)),
      snd (flow_iterate data trade_shares tariff iceberg wages (S n) (income, revenues)),
      tariff_rev (flow_vars data trade_shares tariff iceberg wages (flow_iterate data trade_shares tariff iceberg wages n (income, revenues)))).
Proof.
  induction n as [|n IH]; intros income revenues last H.
  - destruct (H O) as (md & Hmd & Hlt); [lia|]. cbn [flow_iterate] in Hmd.
    erewrite income_loop_S by exact Hmd. cbv zeta. rewrite Hlt. reflexivity.
  - destruct (H O) as (md & Hmd & Hlt); [lia|]. cbn [flow_iterate] in Hmd.
    erewrite income_loop_S by exact Hmd. cbv zeta. rewrite Hlt.
    rewrite IH.
    + reflexivity.
    + intros k Hk. destruct (H (S k)) as (md' & Hmd' & Hlt'); [lia|].
      exists md'. split; assumption.
Qed.

Lemma income_loop_converged (k : nat) :
  forall (n : nat) (income : arr1 F) (revenues : arr2 F) (last : option (arr1 F)),
  (k < n)%nat ->
  (forall j, (j < k)%nat -> pass_continues data trade_shares tariff iceberg wages tol (income, revenues) j) ->
  pass_converges data trade_shares tariff iceberg wages tol (income, revenues) k ->
  let v := flow_vars data trade_shares tariff iceberg wages (flow_iterate data trade_shares tariff iceberg wages k (income, revenues)) in
  income_loop data trade_shares tariff iceberg wages tol n income revenues last =
  Ok (income_new v, revenues_new v, tariff_rev v).
Proof.
  induction k as [|k IH]; intros n income revenues last Hk Hbefore (md & Hmd & Hlt).
  - destruct n as [|n]; [lia|]. cbn [flow_iterate] in *.
    erewrite income_loop_S by exact Hmd. cbv zeta. rewrite Hlt. reflexivity.
  - destruct n as [|n]; [lia|].
    destruct (Hbefore O) as (md0 & Hmd0 & Hlt0); [lia|]. cbn [flow_iterate] in Hmd0.
    erewrite income_loop_S by exact Hmd0. cbv zeta. rewrite Hlt0.
    apply IH.
    + lia.
    + intros j Hj. destruct (Hbefore (S j)) as (md' & Hmd' & Hlt'); [lia|].
      exists md'. split; assumption.
    + exists md. split; assumption.
Qed.

End IncomeLoopProofs.

(** ** C3, C10: what a pass computes, and what the loop returns *)

Section IncomePass.
Import Data Equilibrium.
Local Open Scope np_scope.
Context {F : Type} {ops : Float64 F}.
Variable data : ModelData F.
Variables (trade_shares tariff iceberg : arr3 F) (wages : arr1 F) (tol : F).

Let N : nat := n_countries (dims data).
Let S_ : nat := n_sectors (dims data).

Lemma flow_iterate_end (k : nat) :
  forall x : arr1 F * arr2 F,
  flow_iterate data trade_shares tariff iceberg wages (S k) x =
  flow_step data trade_shares tariff iceberg wages
    (flow_iterate data trade_shares tariff iceberg wages k x).
Proof.
  induction k as [|k IH]; intros x; [reflexivity|].
  change (flow_iterate data trade_shares tariff iceberg wages (S (S k)) x)
    with (flow_iterate data trade_shares tariff iceberg wages (S k)
            (flow_step data trade_shares tariff iceberg wages x)).
  rewrite IH. reflexivity.
Qed.

(** C3 (as the code has it).  One pass of the income-revenue loop
    computes, from the pair [(income, revenues)] at its head,
    [flows[i,j,s]], [tariff_rev[i]] and [income_new[i]] as the claim
    gives them, and the revenue of exporter [j] in sector [s] as the
    sum over IMPORTERS [i] of [flows[i,j,s] / (iceberg[i,j,s] *
    tariff[i,j,s])] ([np.sum(..., axis=0)]); a pass whose [max_diff] is
    not below [tol] hands the next pass the blend [0.5*old + 0.5*new]
    of both the income vector and the revenue matrix. *)
Theorem circular_flow_pass (income : arr1 F) (revenues : arr2 F) (i j s : nat) :
  let v := circular_flow data trade_shares tariff iceberg wages income revenues in
  flows v i j s =
    trade_shares i j s *
    (Data.a data i s * income i + np_sum S_ (fun s' => Data.alpha data i s' s * revenues i s')) /\
  tariff_rev v i =
    np_sum N (fun j => np_sum S_ (fun s =>
      (tariff i j s - c_1) / tariff i j s * flows v i j s)) /\
  income_new v i = wages i * Data.L data i + tariff_rev v i + Data.D data i /\
  revenues_new v j s =
    np_sum N (fun i => flows v i j s / (iceberg i j s * tariff i j s)) /\
  (forall (n : nat) (last : option (arr1 F)) (max_diff : F),
     inner_max_diff data income (income_new v) revenues (revenues_new v) = Ok max_diff ->
     (max_diff <? tol) = false ->
     income_loop data trade_shares tariff iceberg wages tol (S n) income revenues last =
     income_loop data trade_shares tariff iceberg wages tol n
       (fun i => c_0_5 * income i + c_0_5 * income_new v i)
       (fun i s => c_0_5 * revenues i s + c_0_5 * revenues_new v i s)
       (Some (tariff_rev v))).
Proof.
  cbv zeta. repeat split.
  intros n last md Hmd Hlt.
  erewrite income_loop_S by exact Hmd. cbv zeta. rewrite Hlt. reflexivity.
Qed.

(** C10.  Let [y] be the pair [(income, revenues)] at the head of the
    last pass the loop runs and [v] the locals that pass computes from
    [y].  If that pass is the first whose [max_diff] is below [tol], the
    call returns [income_new] and [revenues_new] of [v] themselves; if
    the budget of [max_iter] passes runs out with no such pass, it
    returns the blends [0.5*y + 0.5*new].  [tariff_rev] is that of [v]
    on both paths. *)
Theorem income_loop_exits (income_init : arr1 F) (revenue_init : arr2 F) (max_iter : nat) :
  let x := (income_init, revenue_init) in
  let head k := flow_iterate data trade_shares tariff iceberg wages k x in
  let vars k := flow_vars data trade_shares tariff iceberg wages (head k) in
  (forall k, (k < max_iter)%nat ->
     (forall j, (j < k)%nat ->
        pass_continues data trade_shares tariff iceberg wages tol x j) ->
     pass_converges data trade_shares tariff iceberg wages tol x k ->
     _solve_income_and_revenue data trade_shares tariff iceberg wages
       income_init revenue_init max_iter tol =
     Ok (income_new (vars k), revenues_new (vars k), tariff_rev (vars k))) /\
  (forall k, max_iter = S k ->
     (forall j, (j < max_iter)%nat ->
        pass_continues data trade_shares tariff iceberg wages tol x j) ->
     _solve_income_and_revenue data trade_shares tariff iceberg wages
       income_init revenue_init max_iter tol =
     Ok (half_blend1 (fst (head k)) (income_new (vars k)),
         half_blend2 (snd (head k)) (revenues_new (vars k)),
         tariff_rev (vars k))).
Proof.
  cbv zeta. split.
  - intros k Hk Hbefore Hconv. unfold _solve_income_and_revenue.
    apply income_loop_converged; assumption.
  - intros k -> Hall. unfold _solve_income_and_revenue.
    rewrite income_loop_exhausted by exact Hall.
    rewrite flow_iterate_end. reflexivity.
Qed.

End IncomePass.

Section Checks64.
Import Data Equilibrium.
Local Open Scope float_scope.


(** C3, refuted as worded: in [hub], with unit incomes and revenues, the
    pass gives country 0 the revenue 2 (both countries buy from it),
    where the claim's sum over exporters gives 1. *)
Lemma revenue_sums_over_importers :
  let v := circular_flow hub hub_shares (tariff hub) (iceberg hub)
             (fun _ => 1) (fun _ => 1) (fun _ _ => 1) in
  revenues_new v 0%nat 0%nat = 2 /\
  claimed_revenue_new 2 (flows v) (iceberg hub) (tariff hub) 0%nat 0%nat = 1 /\
  PrimFloat.eqb (revenues_new v 0%nat 0%nat)
    (claimed_revenue_new 2 (flows v) (iceberg hub) (tariff hub) 0%nat 0%nat) = false.
Proof. vm_compute. auto. Qed.

(** C10 on [autarky] with unit trade share and wage, started from
    income 1 and revenue 3 with tolerance 0.5: pass 0 leaves [max_diff]
    = 2/3, pass 1 meets the tolerance.  With a budget of two passes the
    call returns the fresh values, with a budget of one the blends. *)
Lemma income_loop_exits_witness :
  (exists inc rev tr,
     _solve_income_and_revenue autarky (fun _ _ _ => 1) (tariff autarky) (iceberg autarky)
       (fun _ => 1) (fun _ => 1) (fun _ _ => 3) 2 0.5 = Ok (inc, rev, tr) /\
     inc 0%nat = 1 /\ rev 0%nat 0%nat = 1 /\ tr 0%nat = 0) /\
  (exists inc rev tr,
     _solve_income_and_revenue autarky (fun _ _ _ => 1) (tariff autarky) (iceberg autarky)
       (fun _ => 1) (fun _ => 1) (fun _ _ => 3) 1 0.5 = Ok (inc, rev, tr) /\
     inc 0%nat = 1 /\ rev 0%nat 0%nat = 2 /\ tr 0%nat = 0).
Proof.
  split.
  - do 3 eexists. split.
    + apply (proj1 (income_loop_exits autarky (fun _ _ _ => 1) (tariff autarky)
                      (iceberg autarky) (fun _ => 1) 0.5 (fun _ => 1) (fun _ _ => 3) 2) 1%nat).
      * lia.
      * intros j Hj. assert (j = 0%nat) by lia. subst j.
        eexists. split; vm_compute; reflexivity.
      * eexists. split; vm_compute; reflexivity.
    + vm_compute. auto.
  - do 3 eexists. split.
    + apply (proj2 (income_loop_exits autarky (fun _ _ _ => 1) (tariff autarky)
                      (iceberg autarky) (fun _ => 1) 0.5 (fun _ => 1) (fun _ _ => 3) 1) 0%nat).
      * reflexivity.
      * intros j Hj. assert (j = 0%nat) by lia. subst j.
        eexists. split; vm_compute; reflexivity.
    + vm_compute. auto.
Defined.

End Checks64.

Section IncomePassCheck.
Import Data Equilibrium.
Local Open Scope np_scope.

(** C3 on [autarky] started off its rest point: the pass does not meet
    the tolerance 0.5 and the next pass starts from the blends. *)
Lemma circular_flow_pass_witness :
  let v := circular_flow autarky (fun _ _ _ => 1%float) (tariff autarky) (iceberg autarky)
             (fun _ => 1%float) (fun _ => 1%float) (fun _ _ => 3%float) in
  income_loop autarky (fun _ _ _ => 1%float) (tariff autarky) (iceberg autarky)
    (fun _ => 1%float) 0.5%float 1 (fun _ => 1%float) (fun _ _ => 3%float) None =
  income_loop autarky (fun _ _ _ => 1%float) (tariff autarky) (iceberg autarky)
    (fun _ => 1%float) 0.5%float 0
    (fun i => c_0_5 * 1%float + c_0_5 * income_new v i)
    (fun i s => c_0_5 * 3%float + c_0_5 * revenues_new v i s)
    (Some (tariff_rev v)).
Proof.
  cbv zeta.
  refine (proj2 (proj2 (proj2 (proj2
            (circular_flow_pass autarky (fun _ _ _ => 1%float) (tariff autarky)
               (iceberg autarky) (fun _ => 1%float) 0.5%float
               (fun _ => 1%float) (fun _ _ => 3%float) 0 0 0))))
            0%nat None _ _ _).
  - vm_compute. reflexivity.
  - vm_compute. reflexivity.
Defined.


End IncomePassCheck.

(** ** The wage-price loop, pass by pass *)

Section OuterLoopProofs.
Import Data Equilibrium.
Local Open Scope np_scope.
Context {F : Type} {ops : Float64 F} {lm : Libm F}.
Variable data : ModelData F.
Variables (tariff iceberg : arr3 F) (tol damp : F).

Let N : nat := n_countries (dims data).
Let S_ : nat := n_sectors (dims data).

#[local] Opaque _solve_income_and_revenue.

Lemma unit_costs_NS (wages : arr1 F) (p : arr2 F) :
  _unit_costs data wages (Shape_NS p) =
  Ok (unit_costs_of data wages (fun i k => flog (p i k))).
Proof. reflexivity. Qed.

Lemma unit_costs_1NS (wages : arr1 F) (p : arr2 F) :
  _unit_costs data wages (Shape_1NS p) = Raise (ValueError einsum_message).
Proof. reflexivity. Qed.

(** A pass that returns started from prices of shape [(N, S)], and
    leaves prices of shape [(1, N, S)]. *)
Lemma outer_body_inv (st st' : LoopState) (md : F) :
  outer_body data tariff iceberg damp st = Ok (st', md) ->
  exists p income revenues tariff_rev,
    st_prices st = Shape_NS p /\
    _solve_income_and_revenue data (ces_shares data tariff iceberg st) tariff iceberg
      (st_wages st) (st_income st) (st_revenues st) 500 c_1e_9 =
      Ok (income, revenues, tariff_rev) /\
    (0 < N)%nat /\
    st' = {| st_wages := fun i => wages_update data damp (st_wages st) revenues i
                                  / wages_update data damp (st_wages st) revenues 0;
             st_prices := Shape_1NS (fun i s =>
                            (c_1 - damp) * p i s
                            + damp * ces_prices data tariff iceberg st i s);
             st_income := income;
             st_revenues := revenues;
             st_trade_shares := Some (ces_shares data tariff iceberg st);
             st_tariff_rev := Some tariff_rev |} /\
    outer_max_diff data (st_wages st) (st_wages st') (st_prices st)
      (Shape_1NS (ces_prices data tariff iceberg st)) = Ok md.
Proof.
  unfold outer_body, ces_shares, ces_prices, pass_costs. cbv zeta.
  destruct (st_prices st) as [p|p] eqn:Ep; [|rewrite unit_costs_1NS; discriminate].
  rewrite unit_costs_NS. cbn [bind]. unfold _price_index. cbv zeta. cbn [fst snd entries].
  intros H. apply bind_Ok in H. destruct H as ([[income revenues] tariff_rev] & Hin & H).
  apply bind_Ok in H. destruct H as (w0 & Hw0 & H).
  apply bind_Ok in H. destruct H as (md' & Hmd & H).
  injection H as Hst Hmd'. subst md'.
  exists p, income, revenues, tariff_rev.
  unfold getitem0 in Hw0. fold N in Hw0.
  destruct N as [|n] eqn:EN; [discriminate|]. injection Hw0 as Hw0. subst w0.
  split; [reflexivity|]. split; [exact Hin|]. split; [lia|].
  split; [symmetry; exact Hst|].
  rewrite <- Hst. cbn [st_wages]. exact Hmd.
Qed.

(** From prices of shape [(1, N, S)] the pass raises at once. *)
Lemma outer_body_lifted (st : LoopState) (p : arr2 F) :
  st_prices st = Shape_1NS p ->
  outer_body data tariff iceberg damp st = Raise (ValueError einsum_message).
Proof. intros E. unfold outer_body. cbv zeta. rewrite E, unit_costs_1NS. reflexivity. Qed.

(** So the pass after a pass that returned raises. *)
Lemma second_pass_raises (st st' : LoopState) (md : F) :
  outer_body data tariff iceberg damp st = Ok (st', md) ->
  outer_body data tariff iceberg damp st' = Raise (ValueError einsum_message).
Proof.
  intros H. apply outer_body_inv in H.
  destruct H as (p & income & revenues & tr & _ & _ & _ & Hst & _).
  eapply outer_body_lifted. rewrite Hst. reflexivity.
Qed.

Lemma outer_loop_S (n : nat) (st st' : LoopState) (md : F) :
  outer_body data tariff iceberg damp st = Ok (st', md) ->
  outer_loop data tariff iceberg tol damp (S n) st =
  if md <? tol then Ok st' else outer_loop data tariff iceberg tol damp n st'.
Proof. intros H. cbn [outer_loop]. rewrite H. reflexivity. Qed.

(** A first pass that does not meet the tolerance: with a budget of one
    pass the loop ends there, with a larger budget it raises. *)
Lemma outer_loop_unconverged (n : nat) (st st' : LoopState) (md : F) :
  outer_body data tariff iceberg damp st = Ok (st', md) ->
  (md <? tol) = false ->
  outer_loop data tariff iceberg tol damp (S n) st =
  match n with
  | O => Ok st'
  | S _ => Raise (ValueError einsum_message)
  end.
Proof.
  intros Hb Hlt. erewrite outer_loop_S by exact Hb. rewrite Hlt.
  destruct n as [|n]; [reflexivity|].
  cbn [outer_loop]. rewrite (second_pass_raises st Hb). reflexivity.
Qed.

(** The state the loop returns is the one its last pass leaves. *)
Lemma outer_loop_last (n : nat) :
  forall st stf : LoopState,
  outer_loop data tariff iceberg tol damp n st = Ok stf ->
  (n = O /\ stf = st) \/
  (exists l prev, outer_passes data tariff iceberg tol damp n st = l ++ [(prev, stf)]).
Proof.
  induction n as [|n IH]; intros st stf H.
  - left. injection H as H. auto.
  - right. cbn [outer_loop] in H. apply bind_Ok in H.
    destruct H as ([st' md] & Hb & H). cbn [outer_passes]. rewrite Hb.
    destruct (md <? tol).
    + injection H as H. subst st'. exists [], st. reflexivity.
    + destruct (IH _ _ H) as [[Hn Hst] | (l & prev & Hl)].
      * subst n stf. exists [], st. reflexivity.
      * exists ((st, st') :: l), prev. rewrite Hl. reflexivity.
Qed.

(** Every recorded pass is a pass of the body. *)
Lemma outer_passes_body (n : nat) :
  forall (st : LoopState) (p : LoopState * LoopState),
  In p (outer_passes data tariff iceberg tol damp n st) ->
  exists md, outer_body data tariff iceberg damp (fst p) = Ok (snd p, md).
Proof.
  induction n as [|n IH]; intros st p Hp; cbn [outer_passes] in Hp.
  - contradiction.
  - destruct (outer_body data tariff iceberg damp st) as [[st' md]|e] eqn:Hb; [|contradiction].
    destruct Hp as [Hp | Hp].
    + subst p. exists md. exact Hb.
    + destruct (md <? tol); [contradiction|]. exact (IH _ _ Hp).
Qed.

End OuterLoopProofs.

(** ** C2: the numeraire *)

Section Numeraire.
Import Data Equilibrium.
Local Open Scope np_scope.
Context {F : Type} {ops : Float64 F} {lm : Libm F} {laws : ExactLaws F}.
Variable data : ModelData F.
Variables (tariff iceberg : option (arr3 F)) (tol damp : F).

#[local] Opaque _solve_income_and_revenue.

Let tariff' : arr3 F := match tariff with None => Data.tariff data | Some t => t end.
Let iceberg' : arr3 F := match iceberg with None => Data.iceberg data | Some t => t end.

Lemma outer_body_numeraire (st st' : LoopState) (md : F) :
  outer_body data tariff' iceberg' damp st = Ok (st', md) ->
  fisfinite (numeraire_update data damp (st, st')) = true ->
  feqb (numeraire_update data damp (st, st')) c_0 = false ->
  st_wages st' 0 = c_1.
Proof.
  intros Hb Hf Hz. apply outer_body_inv in Hb.
  destruct Hb as (p & income & revenues & tr & _ & _ & _ & Hst & _).
  unfold numeraire_update in Hf, Hz. cbn [fst snd] in Hf, Hz.
  rewrite Hst in Hf, Hz |- *. cbn [st_wages st_revenues] in *.
  apply div_self; assumption.
Qed.

(** C2.  Whenever the wage update of country 0 is finite and nonzero in
    every pass the loop runs, [wages[0]] is exactly 1 after every pass,
    and in the state [solve_equilibrium] returns. *)
Theorem numeraire_is_one (max_iter : nat) :
  let passes := outer_passes data tariff' iceberg' tol damp max_iter (initial_state data) in
  Forall (fun p => fisfinite (numeraire_update data damp p) = true /\
                   feqb (numeraire_update data damp p) c_0 = false) passes ->
  Forall (fun p => st_wages (snd p) 0 = c_1) passes /\
  (forall r, solve_equilibrium data tariff iceberg max_iter tol damp = Ok r ->
             wages r 0 = c_1).
Proof.
  intros passes Hreg.
  assert (Hall : Forall (fun p => st_wages (snd p) 0 = c_1) passes).
  { rewrite Forall_forall in Hreg |- *. intros p Hp.
    destruct (Hreg _ Hp) as [Hf Hz].
    apply outer_passes_body in Hp. destruct Hp as (md & Hb).
    destruct p as [st st']. cbn [fst snd] in *.
    eapply outer_body_numeraire; eassumption. }
  split; [exact Hall|].
  intros r Hr. unfold solve_equilibrium in Hr. fold tariff' iceberg' in Hr.
  apply bind_Ok in Hr. destruct Hr as (stf & Hloop & Hr).
  apply bind_Ok in Hr. destruct Hr as (ri & _ & Hr).
  apply outer_loop_last in Hloop. destruct Hloop as [[_ Hst] | (l & prev & Hl)].
  - subst stf. cbn in Hr. discriminate Hr.
  - assert (Hw : st_wages stf 0 = c_1).
    { rewrite Forall_forall in Hall.
      apply (Hall (prev, stf)). fold passes in Hl. rewrite Hl.
      apply in_or_app. right. left. reflexivity. }
    destruct (st_trade_shares stf); [|discriminate Hr].
    destruct (st_tariff_rev stf); [|discriminate Hr].
    injection Hr as Hr. subst r. exact Hw.
Qed.

End Numeraire.

(** ** C5: the test that ends the loop *)

Section BreakTest.
Import Data Equilibrium.
Local Open Scope np_scope.
Context {F : Type} {ops : Float64 F} {lm : Libm F}.
Variable data : ModelData F.

#[local] Opaque _solve_income_and_revenue.

Let N : nat := n_countries (dims data).
Let S_ : nat := n_sectors (dims data).

(** C5 (as the code has it).  After a pass, the loop stops exactly when
    that pass's [max_diff] is below [tol]; [max_diff] is Python's [max]
    of the largest relative change of the wages, from the previous to
    the new (normalised) wage iterate, and the largest relative distance
    of the freshly computed CES prices from the previous price iterate
    -- the prices before damping, not the damped iterate the pass
    stores; every denominator is the previous iterate's absolute value
    plus 1e-12. *)
Theorem outer_loop_break (tariff iceberg : arr3 F) (tol damp : F)
  (n : nat) (st st' : LoopState) (max_diff : F) :
  outer_body data tariff iceberg damp st = Ok (st', max_diff) ->
  outer_loop data tariff iceberg tol damp (S n) st =
    (if max_diff <? tol then Ok st' else outer_loop data tariff iceberg tol damp n st') /\
  (forall i s, entries (st_prices st') i s =
     (c_1 - damp) * entries (st_prices st) i s
     + damp * ces_prices data tariff iceberg st i s) /\
  exists m1 m2,
    np_max (flat1 N (fun i =>
      fabs (st_wages st' i - st_wages st i) / (fabs (st_wages st i) + c_1e_12))) = Ok m1 /\
    np_max (flat2 N S_ (fun i s =>
      fabs (ces_prices data tariff iceberg st i s - entries (st_prices st) i s)
      / (fabs (entries (st_prices st) i s) + c_1e_12))) = Ok m2 /\
    max_diff = py_max m1 m2.
Proof.
  intros Hb. split; [apply outer_loop_S; exact Hb|].
  apply outer_body_inv in Hb.
  destruct Hb as (p & income & revenues & tr & Hp & _ & _ & Hst & Hmd).
  split.
  - intros i s. rewrite Hst, Hp. reflexivity.
  - unfold outer_max_diff in Hmd. fold N S_ in Hmd.
    apply bind_Ok in Hmd. destruct Hmd as (m1 & H1 & Hmd).
    apply bind_Ok in Hmd. destruct Hmd as (m2 & H2 & Hmd).
    injection Hmd as Hmd. exists m1, m2. auto.
Qed.

End BreakTest.

(** ** The worked economies, evaluated *)

Section ChecksX.
Import Data Equilibrium.
Local Open Scope np_scope.

Lemma initial_state_at_rest (data : ModelData xfloat) :
  (forall i, Data.L data i = Fin 1) -> (forall i, Data.D data i = Fin 0) ->
  initial_state data = rest_state.
Proof.
  intros HL HD. unfold initial_state, rest_state, unit_state. f_equal.
  funext. rewrite HL, HD. xeval. fin.
Qed.

(** In [free_trade] the inner loop started at rest returns at once. *)
Lemma free_trade_income :
  _solve_income_and_revenue free_trade (fun _ _ _ => Fin (1 / 2))
    (tariff free_trade) (iceberg free_trade) (fun _ => Fin 1)
    (fun _ => Fin 1) (fun _ _ => Fin 1) 500 c_1e_9 =
  Ok (fun _ => Fin 1, fun _ _ => Fin 1, fun _ => Fin 0).
Proof.
  unfold _solve_income_and_revenue.
  rewrite (@income_loop_converged _ _ free_trade (fun _ _ _ => Fin (1 / 2))
             (tariff free_trade) (iceberg free_trade) (fun _ => Fin 1) c_1e_9 0 500).
  - f_equal. f_equal; [f_equal|]; funext; unfold free_trade; xeval; fin.
  - lia.
  - intros j Hj. lia.
  - exists (Fin 0). unfold free_trade. xeval. split; fin.
Qed.

(** In [lone] too. *)
Lemma lone_income :
  _solve_income_and_revenue lone (fun _ _ _ => Fin 1)
    (tariff lone) (iceberg lone) (fun _ => Fin 1)
    (fun _ => Fin 1) (fun _ _ => Fin 1) 500 c_1e_9 =
  Ok (fun _ => Fin 1, fun _ _ => Fin 1, fun _ => Fin 0).
Proof.
  unfold _solve_income_and_revenue.
  rewrite (@income_loop_converged _ _ lone (fun _ _ _ => Fin 1)
             (tariff lone) (iceberg lone) (fun _ => Fin 1) c_1e_9 0 500).
  - f_equal. f_equal; [f_equal|]; funext; unfold lone; xeval; fin.
  - lia.
  - intros j Hj. lia.
  - exists (Fin 0). unfold lone. xeval. split; fin.
Qed.

End ChecksX.

Section ChecksX2.
Import Data Equilibrium.
Local Open Scope np_scope.

#[local] Opaque _solve_income_and_revenue.

Lemma free_trade_costs :
  _unit_costs free_trade (fun _ => Fin 1) (Shape_NS (fun _ _ => Fin 1)) =
  Ok (fun _ _ => Fin 1).
Proof. rewrite unit_costs_NS. f_equal. funext. unfold free_trade. xeval. reflexivity. Qed.

Lemma free_trade_price_index :
  _price_index free_trade (fun _ _ => Fin 1) (tariff free_trade) (iceberg free_trade)
  = (Shape_1NS (fun _ _ => Fin 1), fun _ _ _ => Fin (1 / 2)).
Proof.
  unfold _price_index. f_equal; [f_equal|]; funext; unfold free_trade; xeval; fin.
Qed.

(** The first pass of the solver on [free_trade]: the economy is at
    rest, and [max_diff] is 0. *)
Lemma free_trade_pass :
  outer_body free_trade (tariff free_trade) (iceberg free_trade) c_0_3 rest_state =
  Ok (unit_state (Shape_1NS (fun _ _ => Fin 1))
        (Some (fun _ _ _ => Fin (1 / 2))) (Some (fun _ => Fin 0)), Fin 0).
Proof.
  unfold outer_body, rest_state.
  cbn [unit_state st_wages st_prices st_income st_revenues].
  rewrite free_trade_costs. cbn [bind]. rewrite free_trade_price_index.
  rewrite free_trade_income. cbn [bind].
  unfold free_trade. xeval.
  f_equal. f_equal; [|fin]. unfold unit_state. f_equal; [|f_equal]; funext; fin.
Qed.

Lemma outer_passes_one {F : Type} {ops : Float64 F} {lm : Libm F} (data : ModelData F)
  (tariff iceberg : arr3 F) (tol damp : F) (n : nat) (st st' : LoopState) (md : F) :
  outer_body data tariff iceberg damp st = Ok (st', md) ->
  (md <? tol) = true ->
  outer_passes data tariff iceberg tol damp (S n) st = [(st, st')].
Proof. intros Hb Hlt. cbn [outer_passes]. rewrite Hb, Hlt. reflexivity. Qed.

Lemma free_trade_initial : initial_state free_trade = rest_state.
Proof. apply initial_state_at_rest; reflexivity. Qed.

(** [free_trade] under the default arguments of [solve_equilibrium]:
    the loop runs one pass. *)
Lemma free_trade_passes :
  outer_passes free_trade (tariff free_trade) (iceberg free_trade)
    c_1e_8 c_0_3 2000 (initial_state free_trade) =
  [(rest_state,
    unit_state (Shape_1NS (fun _ _ => Fin 1))
      (Some (fun _ _ _ => Fin (1 / 2))) (Some (fun _ => Fin 0)))].
Proof.
  rewrite free_trade_initial.
  change 2000%nat with (S 1999).
  erewrite outer_passes_one;
    [ reflexivity | exact free_trade_pass | xeval; reflexivity ].
Qed.

Lemma free_trade_numeraire :
  let p := (rest_state,
            unit_state (Shape_1NS (fun _ _ => Fin 1))
              (Some (fun _ _ _ => Fin (1 / 2))) (Some (fun _ => Fin 0))) in
  fisfinite (numeraire_update free_trade c_0_3 p) = true /\
  feqb (numeraire_update free_trade c_0_3 p) c_0 = false.
Proof. unfold numeraire_update, rest_state, free_trade. xeval. split; reflexivity. Qed.

(** C2 on [free_trade] with the default arguments. *)
Lemma numeraire_is_one_witness :
  Forall (fun p => st_wages (snd p) 0 = Fin 1)
    (outer_passes free_trade (tariff free_trade) (iceberg free_trade)
       c_1e_8 c_0_3 2000 (initial_state free_trade)) /\
  (forall r, solve_equilibrium free_trade None None 2000 c_1e_8 c_0_3 = Ok r ->
             wages r 0 = Fin 1).
Proof.
  apply (numeraire_is_one (laws := xfloat_exact) free_trade None None c_1e_8 c_0_3 2000).
  cbv zeta. rewrite free_trade_passes.
  constructor; [exact free_trade_numeraire | constructor].
Defined.

Lemma Rpower_2_m1 : Rpower (2 * 1) (1 / (1 - 2)) = (1 / 2)%R.
Proof.
  replace (2 * 1)%R with 2%R by lra.
  replace (1 / (1 - 2))%R with (Ropp 1) by lra.
  rewrite Rpower_Ropp, Rpower_1 by lra. lra.
Qed.

Lemma lone_price_index :
  _price_index lone (fun _ _ => Fin 1) (tariff lone) (iceberg lone)
  = (Shape_1NS (fun _ _ => Fin (1 / 2)), fun _ _ _ => Fin 1).
Proof.
  unfold _price_index. f_equal; [f_equal|]; funext; unfold lone; xeval;
    rewrite ?Rpower_2_m1; fin.
Qed.

Lemma lone_costs :
  _unit_costs lone (fun _ => Fin 1) (Shape_NS (fun _ _ => Fin 1)) = Ok (fun _ _ => Fin 1).
Proof. rewrite unit_costs_NS. f_equal. funext. unfold lone. xeval. reflexivity. Qed.

(** [lone]: the first pass from rest leaves wages at 1, computes the
    CES price 1/2 and stores the damped price 0.85, in an array of
    shape [(1, 1, 1)]. *)
Lemma lone_pass :
  outer_body lone (tariff lone) (iceberg lone) c_0_3 rest_state =
  Ok (unit_state (Shape_1NS (fun _ _ => Fin (17 / 20)))
        (Some (fun _ _ _ => Fin 1)) (Some (fun _ => Fin 0)),
      Fin (1 / 2 / (1 + 1 / 1000000000000))).
Proof.
  unfold outer_body, rest_state.
  cbn [unit_state st_wages st_prices st_income st_revenues].
  rewrite lone_costs. cbn [bind]. rewrite lone_price_index.
  rewrite lone_income. cbn [bind].
  unfold lone. xeval.
  f_equal. f_equal; [|fin]. unfold unit_state. f_equal; [|f_equal]; funext; fin.
Qed.

(** C5, refuted as worded: on [lone] with [tol = damp = 0.3], the
    largest relative change between the consecutive iterates of the
    first pass is 0.15/(1+1e-12), below [tol], yet the [max_diff] the
    loop tests is 0.5/(1+1e-12), not below [tol]: the loop does not stop
    there, and with a budget of two passes it enters the second. *)
Lemma break_test_is_undamped :
  exists st' max_diff m,
    outer_body lone (tariff lone) (iceberg lone) c_0_3 (initial_state lone)
      = Ok (st', max_diff) /\
    claimed_max_diff 1 1 (initial_state lone) st' = Ok m /\
    (m <? c_0_3) = true /\
    (max_diff <? c_0_3) = false /\
    outer_loop lone (tariff lone) (iceberg lone) c_0_3 c_0_3 2 (initial_state lone) =
    outer_loop lone (tariff lone) (iceberg lone) c_0_3 c_0_3 1 st'.
Proof.
  rewrite (initial_state_at_rest lone) by reflexivity.
  do 2 eexists. exists (Fin (3 / 20 / (1 + 1 / 1000000000000))).
  split; [exact lone_pass|].
  assert (Hmd : (Fin (1 / 2 / (1 + 1 / 1000000000000)) <? c_0_3) = false).
  { xeval. reflexivity. }
  split; [|split; [|split]].
  - unfold rest_state. xeval. fin.
  - xeval. reflexivity.
  - exact Hmd.
  - erewrite outer_loop_S by exact lone_pass. rewrite Hmd. reflexivity.
Qed.

(** C5 on [lone] with the default arguments: the first pass. *)
Lemma outer_loop_break_witness :
  outer_loop lone (tariff lone) (iceberg lone) c_1e_8 c_0_3 2000 rest_state =
  outer_loop lone (tariff lone) (iceberg lone) c_1e_8 c_0_3 1999
    (unit_state (Shape_1NS (fun _ _ => Fin (17 / 20)))
       (Some (fun _ _ _ => Fin 1)) (Some (fun _ => Fin 0))).
Proof.
  destruct (@outer_loop_break _ _ _ lone (tariff lone) (iceberg lone) c_1e_8 c_0_3 1999
              _ _ _ lone_pass) as [H _].
  rewrite H.
  replace (Fin (1 / 2 / (1 + 1 / 1000000000000)) <? c_1e_8) with false; [reflexivity|].
  symmetry. xeval. reflexivity.
Defined.

End ChecksX2.

(** ** C4: the budget of the wage-price loop *)

Section BudgetClaim.
Import Data Equilibrium.
Local Open Scope np_scope.
Context {F : Type} {ops : Float64 F} {lm : Libm F}.
Variable data : ModelData F.

#[local] Opaque _solve_income_and_revenue.

Let N : nat := n_countries (dims data).
Let S_ : nat := n_sectors (dims data).

(** Real income from prices of shape [(N, S)]: one entry per country. *)
Lemma real_income_NS (income : arr1 F) (p : arr2 F) :
  exists r, _real_income data income (Shape_NS p) = Ok r /\
            row r = false /\ len r = N /\
            forall i, (i < N)%nat ->
              item r i =
              income i / fexp (np_sum S_ (fun s => Data.a data i s * flog (p i s))).
Proof.
  unfold _real_income. fold N S_.
  match goal with
  | |- exists r, vec_map2 _ ?x ?y = _ /\ _ =>
      destruct (@vec_map2_same F fdiv x y eq_refl) as (r & Hr & Hrow & Hlen & Hitem)
  end.
  exists r. split; [exact Hr|]. split; [exact Hrow|]. split; [exact Hlen|].
  intros i Hi. rewrite Hitem by exact Hi. reflexivity.
Qed.

(** Real income from prices of shape [(1, N, S)]: the price index has
    one entry per sector, and the division by it raises unless [N] and
    [S] are equal or one of them is 1. *)
Lemma real_income_1NS (income : arr1 F) (p : arr2 F) :
  N <> S_ -> N <> 1%nat -> S_ <> 1%nat ->
  _real_income data income (Shape_1NS p) =
  Raise (ValueError "operands could not be broadcast together").
Proof.
  intros H H1 H2. unfold _real_income, vec_map2. fold N S_. cbn [vec_map len].
  rewrite broadcast_axis_none by assumption. reflexivity.
Qed.

(** When the first pass does not meet the tolerance and the budget
    allows a second one, [solve_equilibrium] raises. *)
Lemma solve_unconverged (tariff iceberg : option (arr3 F)) (tol damp : F) (n : nat)
  (st' : LoopState) (md : F) :
  outer_body data
    (match tariff with None => Data.tariff data | Some t => t end)
    (match iceberg with None => Data.iceberg data | Some t => t end)
    damp (initial_state data) = Ok (st', md) ->
  (md <? tol) = false ->
  solve_equilibrium data tariff iceberg (S (S n)) tol damp =
  Raise (ValueError einsum_message).
Proof.
  intros Hb Hlt. unfold solve_equilibrium.
  erewrite outer_loop_unconverged by eassumption. reflexivity.
Qed.

End BudgetClaim.

Section BudgetCheck.
Import Data Equilibrium.
Local Open Scope np_scope.

#[local] Opaque _solve_income_and_revenue.

(** C4, refuted by the code on [lone]: under the default arguments of
    [solve_equilibrium] the first pass leaves [max_diff] at
    0.5/(1+1e-12), above the tolerance, and stores prices of shape
    [(1, 1, 1)]; the second pass raises the [ValueError] of
    [np.einsum] in [_unit_costs].  The budget of 2000 passes is never
    exhausted, and no iterate is returned. *)
Theorem unconverged_solve_raises :
  solve_equilibrium lone None None 2000 c_1e_8 c_0_3 =
  Raise (ValueError einsum_message).
Proof.
  change 2000%nat with (S (S 1998)).
  eapply solve_unconverged.
  - rewrite (initial_state_at_rest lone) by reflexivity. exact lone_pass.
  - xeval. reflexivity.
Qed.

End BudgetCheck.

(** ** C6: homogeneity of degree zero *)

Section HomogeneityProofs.
Import Data Equilibrium.
Local Open Scope np_scope.

Lemma finite_toR (x : xfloat) : finite x -> x = Fin (toR x).
Proof. intros [r ->]. reflexivity. Qed.

Lemma positive_toR (x : xfloat) : positive_real x -> x = Fin (toR x) /\ (0 < toR x)%R.
Proof. intros (r & -> & Hr). split; [reflexivity | exact Hr]. Qed.

Lemma xlog_pos (r : R) : (0 < r)%R -> xlog (Fin r) = Fin (ln r).
Proof. intros H. unfold xlog. rewrite Rltb_true by exact H. reflexivity. Qed.

Lemma Rpower_one (p : R) : Rpower 1 p = 1%R.
Proof. unfold Rpower. rewrite ln_1, Rmult_0_r. apply exp_0. Qed.

Lemma scale_exp (c x y : R) : (0 < c)%R -> x = (ln c + y)%R -> exp x = (c * exp y)%R.
Proof. intros Hc ->. rewrite exp_plus, exp_ln by exact Hc. reflexivity. Qed.

Lemma xpow_pos (r p : R) : (0 < r)%R -> xpow (Fin r) (Fin p) = Fin (Rpower r p).
Proof.
  intros Hr. unfold xpow, xeqb.
  unfold Reqb at 1. destruct (Req_dec_T p 0) as [->|Hp].
  - rewrite Rpower_O by exact Hr. reflexivity.
  - unfold Reqb. destruct (Req_dec_T r 1) as [->|Hr1].
    + rewrite Rpower_one. reflexivity.
    + rewrite Rltb_true by exact Hr. reflexivity.
Qed.

Variable data : ModelData xfloat.
Variables (tariff iceberg : arr3 xfloat).
Variables (wages : arr1 xfloat) (prices : arr2 xfloat).
Variable c : R.

Let N : nat := n_countries (dims data).
Let S_ : nat := n_sectors (dims data).

Hypothesis valid : valid_parameters data tariff iceberg.
Hypothesis guess : positive_guess data wages prices.
Hypothesis c_pos : (0 < c)%R.

(** The guess scaled by [c]. *)
Let wages' : arr1 xfloat := fun i => Fin c * wages i.
Let prices' : arr2 xfloat := fun i k => Fin c * prices i k.

Lemma unit_costs_scaled (i s : nat) :
  (i < N)%nat -> (s < S_)%nat ->
  exists r, (0 < r)%R /\
    unit_costs_of data wages (fun i k => flog (prices i k)) i s = Fin r /\
    unit_costs_of data wages' (fun i k => flog (prices' i k)) i s = Fin (c * r).
Proof.
  intros Hi Hs.
  destruct guess as [Hw Hp].
  destruct (positive_toR (Hw i Hi)) as [Ew Pw].
  destruct (positive_toR (vp_z valid Hi Hs)) as [Ez Pz].
  set (al := fun k => toR (Data.alpha data i s k)).
  set (p := fun k => toR (prices i k)).
  assert (Eal : forall k, (k < S_)%nat -> Data.alpha data i s k = Fin (al k)).
  { intros k Hk. apply finite_toR. apply (vp_alpha valid); assumption. }
  assert (Ep : forall k, (k < S_)%nat -> prices i k = Fin (p k) /\ (0 < p k)%R).
  { intros k Hk. apply positive_toR. apply Hp; assumption. }
  assert (Eb : Data.beta data i s = Fin (1 - RSum S_ al)).
  { rewrite (vp_beta valid Hi Hs). fold S_.
    rewrite (np_sum_ext _ (fun k => Fin (al k)) Eal), np_sum_Fin. reflexivity. }
  exists (exp (- ln (toR (Data.z data i s)) + (1 - RSum S_ al) * ln (toR (wages i))
               + RSum S_ (fun k => (al k * ln (p k))%R))).
  split; [apply exp_pos|]. split.
  - unfold unit_costs_of. fold S_. rewrite Ez, Eb, Ew.
    rewrite (np_sum_ext _ (fun k => Fin (al k * ln (p k)))).
    + rewrite np_sum_Fin. xops. rewrite !xlog_pos by assumption. reflexivity.
    + intros k Hk. rewrite (Eal k Hk). destruct (Ep k Hk) as [-> Hpk].
      xops. rewrite xlog_pos by assumption. reflexivity.
  - unfold unit_costs_of, wages', prices'. fold S_. rewrite Ez, Eb, Ew.
    rewrite (np_sum_ext _ (fun k => Fin (al k * ln (c * p k)))).
    + rewrite np_sum_Fin. xops.
      rewrite !xlog_pos by (try assumption; apply Rmult_lt_0_compat; assumption).
      xops. f_equal. apply scale_exp; [exact c_pos|].
      rewrite ln_mult by assumption.
      rewrite (@RSum_ext S_ (fun k => (al k * ln (c * p k))%R)
                 (fun k => (ln c * al k + al k * ln (p k))%R)).
      * rewrite RSum_plus, RSum_scal. cbn [toR]. ring.
      * intros k Hk. destruct (Ep k Hk) as [_ Hpk]. rewrite ln_mult by assumption. ring.
    + intros k Hk. rewrite (Eal k Hk). destruct (Ep k Hk) as [-> Hpk].
      xops. rewrite xlog_pos by (apply Rmult_lt_0_compat; assumption). reflexivity.
Qed.

Let costs : arr2 xfloat := unit_costs_of data wages (fun i k => flog (prices i k)).
Let costs' : arr2 xfloat := unit_costs_of data wages' (fun i k => flog (prices' i k)).

Lemma power_finite (s : nat) :
  (s < S_)%nat -> exists p, power data s = Fin p /\ p <> 0%R.
Proof.
  intros Hs. destruct (vp_sigma valid Hs) as (r & Hr & Hne).
  exists (1 - r)%R. unfold power. rewrite Hr. split; [reflexivity | lra].
Qed.

Lemma term_scaled (i j s : nat) (p : R) :
  (i < N)%nat -> (j < N)%nat -> (s < S_)%nat -> power data s = Fin p ->
  exists t,
    term data costs tariff iceberg i j s = Fin t /\
    term data costs' tariff iceberg i j s = Fin (Rpower c p * t).
Proof.
  intros Hi Hj Hs Hp.
  destruct (unit_costs_scaled Hj Hs) as (r & Hr & Ec & Ec').
  destruct (positive_toR (vp_tariff valid Hi Hj Hs)) as [Et Pt].
  destruct (positive_toR (vp_iceberg valid Hi Hj Hs)) as [Ei Pi].
  pose proof (finite_toR (vp_gamma valid Hi Hj Hs)) as Eg.
  set (d := (r * toR (iceberg i j s) * toR (tariff i j s))%R).
  assert (Hd : (0 < d)%R) by (unfold d; repeat apply Rmult_lt_0_compat; assumption).
  exists (toR (Data.gamma data i j s) * Rpower d p)%R.
  unfold term, delivered. fold costs costs'. unfold costs, costs'.
  rewrite Ec, Ec', Et, Ei, Eg, Hp. xops. cbn [toR]. fold d. split.
  - rewrite xpow_pos by exact Hd. reflexivity.
  - replace (c * r * toR (iceberg i j s) * toR (tariff i j s))%R with (c * d)%R
      by (unfold d; ring).
    rewrite xpow_pos by (apply Rmult_lt_0_compat; assumption).
    xops. f_equal. rewrite <- Rpower_mult_distr by assumption. ring.
Qed.

Lemma denom_scaled (i s : nat) (p : R) :
  (i < N)%nat -> (s < S_)%nat -> power data s = Fin p ->
  exists t : nat -> R,
    (forall j, (j < N)%nat -> term data costs tariff iceberg i j s = Fin (t j)) /\
    (forall j, (j < N)%nat ->
       term data costs' tariff iceberg i j s = Fin (Rpower c p * t j)) /\
    denom data costs tariff iceberg i s = Fin (RSum N t) /\
    denom data costs' tariff iceberg i s = Fin (Rpower c p * RSum N t).
Proof.
  intros Hi Hs Hp.
  exists (fun j => toR (term data costs tariff iceberg i j s)).
  assert (H1 : forall j, (j < N)%nat ->
            term data costs tariff iceberg i j s =
            Fin (toR (term data costs tariff iceberg i j s))).
  { intros j Hj. destruct (term_scaled Hi Hj Hs Hp) as (t & Et & _).
    rewrite Et. reflexivity. }
  assert (H2 : forall j, (j < N)%nat ->
            term data costs' tariff iceberg i j s =
            Fin (Rpower c p * toR (term data costs tariff iceberg i j s))).
  { intros j Hj. destruct (term_scaled Hi Hj Hs Hp) as (t & Et & Et').
    rewrite Et', Et. reflexivity. }
  split; [exact H1|]. split; [exact H2|]. split.
  - unfold denom. fold N. rewrite (np_sum_ext _ _ H1). apply np_sum_Fin.
  - unfold denom. fold N. rewrite (np_sum_ext _ _ H2), np_sum_Fin, RSum_scal.
    reflexivity.
Qed.

Lemma xpow_scaled (D q cp : R) :
  (0 < cp)%R -> q <> 0%R -> Rpower cp q = c ->
  xpow (Fin (cp * D)) (Fin q) = Fin c * xpow (Fin D) (Fin q).
Proof.
  intros Hcp Hq Hc.
  destruct (Rlt_dec 0 D) as [HD | HD].
  - rewrite !xpow_pos by (try apply Rmult_lt_0_compat; assumption).
    xops. f_equal. rewrite <- Rpower_mult_distr by assumption. rewrite Hc. reflexivity.
  - assert (Hle : (cp * D <= 0)%R) by nra.
    unfold xpow, xeqb.
    rewrite (Reqb_false Hq).
    rewrite (@Reqb_false (cp * D) 1) by lra.
    rewrite (@Reqb_false D 1) by lra.
    rewrite (@Rltb_false 0 (cp * D)) by lra.
    rewrite (@Rltb_false 0 D) by lra.
    destruct (Req_dec_T D 0) as [-> | HD0].
    + rewrite (@Reqb_true (cp * 0) 0) by lra. rewrite (@Reqb_true 0 0) by reflexivity.
      destruct (Rltb 0 q); xops.
      * f_equal. lra.
      * rewrite Reqb_false by lra. rewrite Rltb_false by lra. reflexivity.
    + rewrite (@Reqb_false (cp * D) 0) by nra. rewrite (Reqb_false HD0).
      destruct (is_int q); [|reflexivity].
      assert (E : Rpower (- (cp * D)) q = (c * Rpower (- D) q)%R).
      { replace (- (cp * D))%R with (cp * - D)%R by ring.
        rewrite <- Rpower_mult_distr by lra. rewrite Hc. reflexivity. }
      rewrite E. destruct (odd_int q); xops; f_equal; ring.
Qed.

(** C6.  In exact arithmetic, for valid parameters, a guess of positive
    wages and prices and a scalar [c > 0], and for countries [i], [j]
    and a sector [s] in range: [_unit_costs] returns on the guess and on
    the scaled guess, and computing CES prices and trade shares from the
    two gives the same trade shares and [c] times the CES prices; and
    the wages normalised by the numeraire do not change. *)
Theorem scaling_invariance (i j s : nat) :
  (i < N)%nat -> (j < N)%nat -> (s < S_)%nat ->
  exists unit_costs scaled_costs,
    _unit_costs data wages (Shape_NS prices) = Ok unit_costs /\
    _unit_costs data (fun i => Fin c * wages i)
      (Shape_NS (fun i k => Fin c * prices i k)) = Ok scaled_costs /\
    let base := _price_index data unit_costs tariff iceberg in
    let scaled := _price_index data scaled_costs tariff iceberg in
    snd scaled i j s = snd base i j s /\
    entries (fst scaled) i s = Fin c * entries (fst base) i s /\
    (Fin c * wages i) / (Fin c * wages 0) = wages i / wages 0.
Proof.
  intros Hi Hj Hs.
  change (fun i => Fin c * wages i) with wages'.
  change (fun i k => Fin c * prices i k) with prices'.
  exists costs, costs'. split; [reflexivity|]. split; [reflexivity|].
  cbv zeta. unfold _price_index. cbn [fst snd entries].
  destruct (power_finite Hs) as (p & Hp & Hp0).
  destruct (denom_scaled Hi Hs Hp) as (t & Ht & Ht' & HD & HD').
  assert (Hcp : (0 < Rpower c p)%R) by apply exp_pos.
  split; [|split].
  - rewrite HD, HD', (Ht j Hj), (Ht' j Hj). unfold np_where. xops. unfold xltb, xdiv.
    destruct (Rlt_dec 0 (RSum N t)) as [Hpos | Hneg].
    + rewrite (Rltb_true Hpos).
      rewrite (@Rltb_true 0 (Rpower c p * RSum N t)) by (apply Rmult_lt_0_compat; assumption).
      rewrite (@Reqb_false (RSum N t) 0) by lra.
      rewrite (@Reqb_false (Rpower c p * RSum N t) 0) by nra.
      f_equal. field. split; lra.
    + rewrite (@Rltb_false 0 (RSum N t)) by lra.
      rewrite (@Rltb_false 0 (Rpower c p * RSum N t)) by nra.
      reflexivity.
  - rewrite HD, HD', Hp. xops. unfold xdiv. rewrite (Reqb_false Hp0).
    apply xpow_scaled.
    + exact Hcp.
    + intros E. apply Hp0. apply (f_equal (fun x => (x * p)%R)) in E.
      unfold Rdiv in E. rewrite Rmult_assoc, Rinv_l, Rmult_0_l in E by exact Hp0. lra.
    + rewrite Rpower_mult. replace (p * (1 / p))%R with 1%R by (field; exact Hp0).
      apply Rpower_1. exact c_pos.
  - destruct guess as [Hw _].
    assert (H0 : (0 < N)%nat) by lia.
    destruct (positive_toR (Hw i Hi)) as [Ei Pi].
    destruct (positive_toR (Hw O H0)) as [E0 P0].
    rewrite Ei, E0. xops. unfold xdiv.
    rewrite (@Reqb_false (c * toR (wages 0)) 0) by nra.
    rewrite (@Reqb_false (toR (wages 0)) 0) by lra.
    f_equal. field. split; lra.
Qed.

End HomogeneityProofs.

Section HomogeneityCheck.
Import Data Equilibrium.
Local Open Scope np_scope.

Lemma free_trade_valid :
  valid_parameters free_trade (tariff free_trade) (iceberg free_trade).
Proof.
  split; intros; cbn.
  - exists 0%R. reflexivity.
  - f_equal. lra.
  - exists 1%R. split; [reflexivity | lra].
  - exists 4%R. split; [reflexivity | lra].
  - exists (1 / 2)%R. reflexivity.
  - exists 1%R. split; [reflexivity | lra].
  - exists 1%R. split; [reflexivity | lra].
Qed.

Lemma unit_guess_positive :
  positive_guess free_trade (fun _ => Fin 1) (fun _ _ => Fin 1).
Proof. split; intros; exists 1%R; split; [reflexivity | lra | reflexivity | lra]. Qed.

(** C6 on [free_trade]: the unit guess scaled by 2. *)
Lemma scaling_invariance_witness :
  exists unit_costs scaled_costs,
    _unit_costs free_trade (fun _ => Fin 1) (Shape_NS (fun _ _ => Fin 1)) = Ok unit_costs /\
    _unit_costs free_trade (fun _ => Fin 2 * Fin 1)
      (Shape_NS (fun _ _ => Fin 2 * Fin 1)) = Ok scaled_costs /\
    let base := _price_index free_trade unit_costs (tariff free_trade) (iceberg free_trade) in
    let scaled :=
      _price_index free_trade scaled_costs (tariff free_trade) (iceberg free_trade) in
    snd scaled 0 1 0 = snd base 0 1 0 /\
    entries (fst scaled) 0 0 = Fin 2 * entries (fst base) 0 0.
Proof.
  assert (H2 : (0 < 2)%R) by lra.
  assert (Hi : (0 < n_countries (dims free_trade))%nat) by (cbn; lia).
  assert (Hj : (1 < n_countries (dims free_trade))%nat) by (cbn; lia).
  assert (Hs : (0 < n_sectors (dims free_trade))%nat) by (cbn; lia).
  destruct (@scaling_invariance free_trade (tariff free_trade) (iceberg free_trade)
              (fun _ => Fin 1) (fun _ _ => Fin 1) 2 free_trade_valid
              unit_guess_positive H2 0 1 0 Hi Hj Hs)
    as (u & u' & Hu & Hu' & Hshares & Hprices & _).
  exists u, u'. split; [exact Hu|]. split; [exact Hu'|].
  cbv zeta in Hshares, Hprices |- *. split; assumption.
Defined.

Lemma two_goods_costs (w : R) :
  (0 < w)%R ->
  _unit_costs two_goods (fun _ => Fin w) (Shape_NS (fun _ _ => Fin w))
  = Ok (fun _ _ => Fin w).
Proof.
  intros Hw. rewrite unit_costs_NS. f_equal. funext.
  unfold unit_costs_of, two_goods.
  cbn [Data.z Data.beta Data.alpha dims n_sectors np_sum reduce fold_left seq map].
  xops. rewrite !xlog_pos by lra. xops.
  f_equal. rewrite ln_1.
  replace (- 0 + 1 * ln w + (0 * ln w + 0 * ln w))%R with (ln w) by lra.
  apply exp_ln. exact Hw.
Qed.

Lemma Rpower_inv (c : R) : (0 < c)%R -> Rpower c (1 - 2) = (/ c)%R.
Proof.
  intros Hc. replace (1 - 2)%R with (Ropp 1) by lra.
  rewrite Rpower_Ropp, Rpower_1 by exact Hc. reflexivity.
Qed.

Lemma two_goods_price_index (c : R) :
  (0 < c)%R ->
  fst (_price_index two_goods (fun _ _ => Fin c) (tariff two_goods) (iceberg two_goods))
  = Shape_1NS (fun _ _ => Fin c).
Proof.
  intros Hc. unfold _price_index. cbn [fst]. f_equal. funext.
  unfold denom, term, delivered, power, two_goods.
  cbn [Data.sigma Data.gamma Data.tariff Data.iceberg dims n_countries np_sum reduce
       fold_left seq map].
  xops. replace (c * 1 * 1)%R with c by lra.
  rewrite xpow_pos by exact Hc. xops. rewrite Rpower_inv by exact Hc.
  assert (Hi : (0 < / c)%R) by (apply Rinv_0_lt_compat; exact Hc).
  replace (1 / 2 * / c + 1 / 2 * / c)%R with (/ c)%R by lra.
  unfold xdiv. rewrite Reqb_false by lra.
  replace (1 / (1 - 2))%R with (1 - 2)%R by lra.
  rewrite xpow_pos by exact Hi. rewrite Rpower_inv by exact Hi.
  f_equal. apply Rinv_inv.
Qed.

Lemma two_goods_real_income (c : R) :
  (0 < c)%R ->
  exists r,
    _real_income two_goods (fun _ => Fin c) (Shape_1NS (fun _ _ => Fin c)) = Ok r /\
    row r = true /\ len r = 2%nat /\
    item r 0%nat = Fin (1 / c) /\ item r 1%nat = Fin c.
Proof.
  intros Hc. unfold _real_income, vec_map2, vec_map, two_goods.
  cbn [Data.a dims n_countries n_sectors np_sum reduce fold_left seq map row len item
       broadcast_axis Nat.eqb orb].
  eexists. split; [reflexivity|]. cbn [row len item].
  split; [reflexivity|]. split; [reflexivity|].
  assert (E2 : exp (1 * ln c + 1 * ln c) = (c * c)%R).
  { replace (1 * ln c + 1 * ln c)%R with (ln c + ln c)%R by lra.
    rewrite exp_plus, exp_ln by exact Hc. reflexivity. }
  assert (E0 : exp (0 * ln c + 0 * ln c) = 1%R).
  { replace (0 * ln c + 0 * ln c)%R with 0%R by lra. apply exp_0. }
  xops. rewrite !xlog_pos by exact Hc. xops. rewrite E2, E0. unfold xdiv.
  assert (Hcc : (0 < c * c)%R) by (apply Rmult_lt_0_compat; exact Hc).
  rewrite !Reqb_false by lra.
  split; f_equal; field; lra.
Qed.

(** C6, refuted as worded.  On [two_goods], where every row of [a] sums
    to 1, scale the unit guess by 2: the real income of country 0, which
    [_real_income] computes from the prices that [_price_index] returns
    (an array of shape [(1, N, S)], summed over countries instead of
    sectors), is 1 before the scaling and 1/2 after it.  And in binary64
    the equalities are not exact: wages 7 and 3 scaled by 0.1 and
    normalised by the numeraire differ from the normalised wages. *)
Lemma scaling_changes_real_income :
  (exists unit_costs scaled_costs r r',
     np_sum 2 (fun s => Data.a two_goods 0 s) = Fin 1 /\
     np_sum 2 (fun s => Data.a two_goods 1 s) = Fin 1 /\
     _unit_costs two_goods (fun _ => Fin 1) (Shape_NS (fun _ _ => Fin 1)) = Ok unit_costs /\
     _unit_costs two_goods (fun _ => Fin 2 * Fin 1)
       (Shape_NS (fun _ _ => Fin 2 * Fin 1)) = Ok scaled_costs /\
     let base :=
       _price_index two_goods unit_costs (tariff two_goods) (iceberg two_goods) in
     let scaled :=
       _price_index two_goods scaled_costs (tariff two_goods) (iceberg two_goods) in
     _real_income two_goods (fun _ => Fin 1) (fst base) = Ok r /\
     _real_income two_goods (fun _ => Fin 2 * Fin 1) (fst scaled) = Ok r' /\
     item r 0%nat = Fin 1 /\ item r' 0%nat = Fin (1 / 2)) /\
  (let w : arr1 float := fun i => match i with O => 7%float | _ => 3%float end in
   let c : float := 0x1.999999999999ap-4%float in
   feqb ((c * w 1%nat) / (c * w 0%nat)) (w 1%nat / w 0%nat) = false).
Proof.
  split; [|vm_compute; reflexivity].
  assert (H1 : (0 < 1)%R) by lra.
  assert (H2 : (0 < 2 * 1)%R) by lra.
  destruct (two_goods_real_income H1) as (r & Hr & _ & _ & Hr0 & _).
  destruct (two_goods_real_income H2) as (r' & Hr' & _ & _ & Hr0' & _).
  exists (fun _ _ => Fin 1), (fun _ _ => Fin (2 * 1)), r, r'.
  split; [cbn; f_equal; lra|]. split; [cbn; f_equal; lra|].
  split; [exact (two_goods_costs H1)|]. split; [exact (two_goods_costs H2)|].
  cbv zeta. rewrite (two_goods_price_index H1), (two_goods_price_index H2).
  split; [exact Hr|]. split; [exact Hr'|].
  split; [rewrite Hr0; f_equal; lra | rewrite Hr0'; f_equal; lra].
Qed.

End HomogeneityCheck.

(** ** C8: what [load_inputs] checks *)

Section LoadProofs.
Import Data.
Local Open Scope np_scope.
Context {F : Type} {ops : Float64 F}.

Lemma existsb_flat2 (P : F -> bool) (n m : nat) (f : arr2 F) :
  existsb P (flat2 n m f) = true <->
  exists i s, (i < n)%nat /\ (s < m)%nat /\ P (f i s) = true.
Proof.
  rewrite existsb_exists. unfold flat2. split.
  - intros (x & Hin & HP). apply in_flat_map in Hin. destruct Hin as (i & Hi & Hin).
    apply in_map_iff in Hin. destruct Hin as (s & <- & Hs).
    apply in_seq in Hi. apply in_seq in Hs. exists i, s. repeat split; try lia. exact HP.
  - intros (i & s & Hi & Hs & HP). exists (f i s). split; [|exact HP].
    apply in_flat_map. exists i. split; [apply in_seq; lia|].
    apply in_map. apply in_seq. lia.
Qed.

(** Whether filling an array raises depends on the ids alone. *)
Lemma fill1_raised (n : Z) (g f : F -> F) (rows : list (Z * F)) :
  forall v v' : arr1 F,
  raised (fill1 n g (map (fun r => (fst r, f (snd r))) rows) v') = raised (fill1 n g rows v).
Proof.
  induction rows as [|[i x] rows IH]; intros v v'; [reflexivity|].
  cbn [map fill1 fst snd]. destruct (py_index n i) as [i'|e]; cbn [bind]; [|reflexivity].
  apply IH.
Qed.


Lemma raised_bind {A B B' : Type} (m m' : result A)
  (K : A -> result B) (K' : A -> result B') :
  raised m' = raised m ->
  (forall a a', raised (K' a') = raised (K a)) ->
  raised (bind m' K') = raised (bind m K).
Proof.
  intros Hm HK. destruct m as [a|e], m' as [a'|e']; cbn in *; try discriminate.
  - apply HK.
  - exact Hm.
Qed.

Lemma raised_bind_same {A B B' : Type} (m : result A)
  (K : A -> result B) (K' : A -> result B') :
  (forall a, raised (K' a) = raised (K a)) ->
  raised (bind m K') = raised (bind m K).
Proof. intros HK. destruct m as [a|e]; cbn; [apply HK | reflexivity]. Qed.

(** Loading raises on the same inputs whatever the sigmas are. *)
Lemma load_inputs_ignores_sigma (f : F -> F) (inp : Inputs F) :
  raised (load_inputs (map_sigma f inp)) = raised (load_inputs inp).
Proof.
  unfold load_inputs.
  cbn [map_sigma countries_csv sectors_csv trade_flows_csv tariffs_baseline_csv
       io_coeffs_csv elasticities_csv labor_endowments_csv trade_balance_csv
       iceberg_costs_csv gamma_weights_csv productivity_csv utility_weights_csv].
  do 7 (apply raised_bind_same; intros ?).
  match goal with |- context [existsb ?P ?l] => destruct (existsb P l) end;
    [reflexivity|].
  apply raised_bind; [apply fill1_raised|]. intros sigma sigma'.
  do 6 (apply raised_bind_same; intros ?).
  reflexivity.
Qed.

(** C8 (as the code has it).  [load_inputs] raises the labor-share
    [ValueError] when the files up to [io_coeffs.csv] load and some
    implied labor share [1 - sum_k alpha[i,s,k]] is below [-1e-8]; data
    it returns have every labor share not below [-1e-8] (a share in
    [-1e-8, 0) passes).  It makes no check on the elasticities: whether
    it raises, and what, does not depend on the sigma values, so
    [sigma[s] = 1] is accepted wherever any other value is. *)
Theorem load_inputs_checks (inp : Inputs F) :
  (forall n_c n_s cs ss tf tar al,
     _infer_size (map fst (countries_csv inp)) = Ok n_c ->
     _infer_size (map fst (sectors_csv inp)) = Ok n_s ->
     fill_names (countries_csv inp) (repeat EmptyString (Z.to_nat n_c)) = Ok cs ->
     fill_names (sectors_csv inp) (repeat EmptyString (Z.to_nat n_s)) = Ok ss ->
     fill3 n_c n_c n_s (fun x => x) (trade_flows_csv inp) (fun _ _ _ => c_0) = Ok tf ->
     fill3 n_c n_c n_s (fun rate => c_1 + rate) (tariffs_baseline_csv inp)
       (fun _ _ _ => c_1) = Ok tar ->
     fill3 n_c n_s n_s (fun x => x) (io_coeffs_csv inp) (fun _ _ _ => c_0) = Ok al ->
     (exists i s, (i < Z.to_nat n_c)%nat /\ (s < Z.to_nat n_s)%nat /\
        (c_1 - np_sum (Z.to_nat n_s) (fun k => al i s k) <? - c_1e_8) = true) ->
     load_inputs inp = Raise (ValueError labor_shares_message)) /\
  (forall data, load_inputs inp = Ok data ->
     forall i s, (i < n_countries (dims data))%nat -> (s < n_sectors (dims data))%nat ->
       beta data i s = c_1 - np_sum (n_sectors (dims data)) (fun k => alpha data i s k) /\
       (beta data i s <? - c_1e_8) = false) /\
  (forall f : F -> F, raised (load_inputs (map_sigma f inp)) = raised (load_inputs inp)).
Proof.
  split; [|split].
  - intros n_c n_s cs ss tf tar al H1 H2 H3 H4 H5 H6 H7 Hneg.
    unfold load_inputs. rewrite H1, H2. cbn [bind n_countries n_sectors].
    rewrite H3, H4, H5, H6, H7. cbn [bind].
    apply (existsb_flat2 (fun b => b <? - c_1e_8)) in Hneg. rewrite Hneg. reflexivity.
  - intros data H i s Hi Hs. unfold load_inputs in H.
    apply bind_Ok in H; destruct H as (n_c & _ & H).
    apply bind_Ok in H; destruct H as (n_s & _ & H).
    do 4 (apply bind_Ok in H; destruct H as (? & _ & H)).
    apply bind_Ok in H; destruct H as (al & _ & H).
    cbn [n_countries n_sectors] in H.
    destruct (existsb (fun b => b <? - c_1e_8)
                (flat2 (Z.to_nat n_c) (Z.to_nat n_s)
                   (fun i s => c_1 - np_sum (Z.to_nat n_s) (fun k => al i s k))))
      eqn:Hex; [discriminate H|].
    do 8 (apply bind_Ok in H; destruct H as (? & _ & H)).
    injection H as H. subst data.
    cbn [dims beta alpha n_sectors n_countries] in *.
    split; [reflexivity|].
    destruct (c_1 - np_sum (Z.to_nat n_s) (fun k => al i s k) <? - c_1e_8) eqn:Hb;
      [|reflexivity].
    assert (Hex' : existsb (fun b => b <? - c_1e_8)
                     (flat2 (Z.to_nat n_c) (Z.to_nat n_s)
                        (fun i s => c_1 - np_sum (Z.to_nat n_s) (fun k => al i s k))) = true).
    { apply existsb_flat2. exists i, s. auto. }
    rewrite Hex' in Hex. discriminate Hex.
  - intros f. apply load_inputs_ignores_sigma.
Qed.

End LoadProofs.

Section LoadChecks64.
Import Data.
Local Open Scope float_scope.
Local Open Scope Z_scope.

(** C8, refuted as worded: [sigma = 1] loads, and leaves the CES
    exponent [1 - sigma] at 0; and an input share of [1 + 2^-30], which
    implies the negative labor share [-2^-30], loads too. *)
Lemma load_inputs_accepts :
  (exists data, load_inputs (one_by_one 0.5 1) = Ok data /\
                sigma data O = 1%float /\ Equilibrium.power data O = 0%float) /\
  (exists data, load_inputs (one_by_one 0x1.00000004p+0 4) = Ok data /\
                PrimFloat.ltb (beta data O O) 0 = true).
Proof.
  split; eexists; (split; [vm_compute; reflexivity|]); vm_compute; auto.
Qed.

(** C8 at work: an input share of 1.5 implies the labor share -0.5, and
    loading raises; and data that load have labor shares not below
    [-1e-8]. *)
Lemma load_inputs_checks_witness :
  load_inputs (one_by_one 1.5 4) = Raise (ValueError labor_shares_message) /\
  (exists data, load_inputs (one_by_one 0.5 4) = Ok data /\
                fltb (beta data O O) (fneg c_1e_8) = false).
Proof.
  split.
  - eapply (proj1 (load_inputs_checks (one_by_one 1.5 4)));
      try (vm_compute; reflexivity).
    exists O, O. vm_compute. auto.
  - eexists. split; [vm_compute; reflexivity|].
    eapply (fun H Hi Hs =>
              proj2 (proj1 (proj2 (load_inputs_checks (one_by_one 0.5 4))) _ H O O Hi Hs)).
    + vm_compute. reflexivity.
    + vm_compute. lia.
    + vm_compute. lia.
Defined.

End LoadChecks64.

(** ** C7: the genetic optimizer keeps its best candidate *)

Section XOrder.
Local Open Scope np_scope.

Lemma xnan_false (x : xfloat) : fisnan x = false -> x <> NaN.
Proof. intros H ->. discriminate H. Qed.

Lemma xleb_refl (x : xfloat) : fisnan x = false -> xleb x x = true.
Proof.
  destruct x as [r|s|]; cbn; intros H.
  - apply Rleb_true. lra.
  - destruct s; reflexivity.
  - discriminate H.
Qed.

Lemma xleb_trans (x y z : xfloat) :
  xleb x y = true -> xleb y z = true -> xleb x z = true.
Proof.
  destruct x as [a|[]|], y as [b|[]|], z as [d|[]|]; cbn;
    try discriminate; try reflexivity; try tauto.
  unfold Rleb. destruct (Rle_dec a b), (Rle_dec b d), (Rle_dec a d);
    try discriminate; try reflexivity. lra.
Qed.

(** On numbers, [not (x <= y)] is [y < x]. *)
Lemma xleb_false (x y : xfloat) :
  fisnan x = false -> fisnan y = false -> xleb x y = false -> xleb y x = true.
Proof.
  destruct x as [a|[]|], y as [b|[]|]; cbn; try discriminate; try reflexivity.
  unfold Rleb. destruct (Rle_dec a b), (Rle_dec b a); try discriminate; try reflexivity. lra.
Qed.

(** [np.argmax] on numbers: an index of a largest element. *)
Lemma argmax_from_spec (v : nat -> xfloat) (len : nat) :
  forall i best : nat,
  (best < i)%nat ->
  (forall j, (j < i + len)%nat -> fisnan (v j) = false) ->
  (forall j, (j < i)%nat -> xleb (v j) (v best) = true) ->
  let b := argmax_from (map v (seq i len)) i best (v best) in
  (b < i + len)%nat /\ forall j, (j < i + len)%nat -> xleb (v j) (v b) = true.
Proof.
  induction len as [|len IH]; intros i best Hb Hnan Hmax; cbn [seq map argmax_from].
  - cbv zeta. split; [lia|]. intros j Hj. apply Hmax. lia.
  - rewrite (Hnan best) by lia.
    destruct (negb (v i <=? v best)) eqn:Hcmp.
    + apply negb_true_iff in Hcmp.
      specialize (IH (S i) i). cbv zeta in IH.
      destruct IH as [Hlt Hall].
      * lia.
      * intros j Hj. apply Hnan. lia.
      * intros j Hj. destruct (Nat.eq_dec j i) as [->|Hne].
        -- apply xleb_refl. apply Hnan. lia.
        -- apply xleb_trans with (v best); [apply Hmax; lia|].
           apply xleb_false; try (apply Hnan; lia). exact Hcmp.
      * split; [lia|]. intros j Hj. apply Hall. lia.
    + apply negb_false_iff in Hcmp.
      specialize (IH (S i) best). cbv zeta in IH.
      destruct IH as [Hlt Hall].
      * lia.
      * intros j Hj. apply Hnan. lia.
      * intros j Hj. destruct (Nat.eq_dec j i) as [->|Hne].
        -- exact Hcmp.
        -- apply Hmax. lia.
      * split; [lia|]. intros j Hj. apply Hall. lia.
Qed.

Lemma np_argmax_spec (n : nat) (scores : arr1 xfloat) :
  (0 < n)%nat ->
  (forall j, (j < n)%nat -> fisnan (scores j) = false) ->
  exists b, np_argmax (flat1 n scores) = Ok b /\ (b < n)%nat /\
            forall j, (j < n)%nat -> xleb (scores j) (scores b) = true.
Proof.
  intros Hn Hnan. destruct n as [|n]; [lia|].
  unfold flat1. cbn [seq map np_argmax].
  exists (argmax_from (map scores (seq 1 n)) 1 0 (scores 0%nat)).
  split; [reflexivity|].
  apply (@argmax_from_spec scores n 1 0).
  - lia.
  - intros j Hj. apply Hnan. lia.
  - intros j Hj. assert (j = O) by lia. subst j. apply xleb_refl. apply Hnan. lia.
Qed.

End XOrder.

Section GAProofs.
Import Optimize.
Local Open Scope np_scope.
Context {G : Type} {gen : Generator G xfloat} {srt : Sorter xfloat}.

Variable objective : arr1 xfloat -> xfloat.
Variable dim : nat.
Variables low high : arr1 xfloat.
Variable config : GAConfig xfloat.
Variable elites : nat.

Let n : nat := Z.to_nat (population config).

Hypothesis rng_law : integers_in_range.
Hypothesis sort_law : argsort_sorts n.
Hypothesis objective_number : forall x, fisnan (objective x) = false.
Hypothesis run : runnable dim low high config elites.

Lemma samples_Forall {X : Type} (P : X -> Prop) (draw : nat -> G -> G * X) (m : nat) :
  (forall k g, P (snd (draw k g))) ->
  forall k g, Forall P (snd (samples draw k m g)) /\
              List.length (snd (samples draw k m g)) = m.
Proof.
  intros Hd. induction m as [|m IH]; intros k g; cbn [samples].
  - split; [constructor | reflexivity].
  - destruct (draw k g) as [g1 x] eqn:E1.
    destruct (samples draw (S k) m g1) as [g2 xs] eqn:E2. cbn [snd].
    specialize (IH (S k) g1). rewrite E2 in IH. cbn [snd] in IH. destruct IH as [IH1 IH2].
    split; [|cbn; lia].
    constructor; [|exact IH1]. specialize (Hd k g). rewrite E1 in Hd. exact Hd.
Qed.

Lemma mapM_index (m : Z) (l : list Z) :
  Forall (fun i => (0 <= i < m)%Z) l ->
  exists ys, mapM (py_index m) l = Ok ys /\ List.length ys = List.length l.
Proof.
  induction 1 as [|i l Hi Hl IH]; cbn [mapM].
  - exists []. split; reflexivity.
  - destruct IH as (ys & -> & Hlen). unfold py_index.
    replace ((0 <=? i) && (i <? m))%Z with true
      by (symmetry; apply andb_true_iff; split; [apply Z.leb_le | apply Z.ltb_lt]; lia).
    cbn [bind]. exists (Z.to_nat i :: ys). split; [reflexivity | cbn; lia].
Qed.

Lemma population_positive : (0 < population config)%Z /\ (0 < n)%nat.
Proof. pose proof (run_population run). unfold n. lia. Qed.

Lemma tournament_returns (pop : arr2 xfloat) (scores : arr1 xfloat) (g : G) :
  returns (tournament_select config pop scores g).
Proof.
  destruct population_positive as [Hp _].
  unfold tournament_select, rng_integers_n.
  replace (0 <? population config)%Z with true by (symmetry; apply Z.ltb_lt; exact Hp).
  cbn [bind].
  destruct (samples (fun _ g0 => sample_integers g0 0 (population config)) 0 3 g)
    as [g' idx] eqn:E.
  pose proof (@samples_Forall Z (fun i => (0 <= i < population config)%Z)
                (fun _ g0 => sample_integers g0 0 (population config)) 3
                (fun _ g0 => rng_law g0 Hp) 0%nat g) as [Hall Hlen].
  rewrite E in Hall, Hlen. cbn [snd] in Hall, Hlen.
  destruct (mapM_index Hall) as (ys & -> & Hlen'). cbn [bind].
  destruct ys as [|y ys]; [cbn in Hlen'; lia|].
  cbn [map np_argmax bind]. eexists. reflexivity.
Qed.

Lemma returns_bind {A B : Type} (m : result A) (K : A -> result B) :
  returns m -> (forall a, returns (K a)) -> returns (bind m K).
Proof. intros [a ->] HK. apply HK. Qed.

Lemma make_child_returns (pop : arr2 xfloat) (scores : arr1 xfloat) (g : G) :
  returns (make_child dim low high config pop scores g).
Proof.
  unfold make_child.
  apply returns_bind; [apply tournament_returns | intros [g1 p1]].
  apply returns_bind; [apply tournament_returns | intros [g2 p2]].
  destruct (sample_random g2) as [g3 u].
  apply returns_bind.
  - destruct (u <? crossover_rate config); [|eexists; reflexivity].
    unfold rng_integers.
    replace (1 <? Z.of_nat dim)%Z with true
      by (symmetry; apply Z.ltb_lt; pose proof (run_dim run); lia).
    cbn [bind]. destruct (sample_integers g3 1 (Z.of_nat dim)). eexists. reflexivity.
  - intros [g4 child]. destruct (sample_random g4) as [g5 u'].
    apply returns_bind.
    + destruct (u' <? mutation_rate config); [|eexists; reflexivity].
      unfold rng_normal. rewrite (run_scale run).
      destruct (samples (fun _ g0 => sample_normal g0 c_0 (mutation_scale config)) 0 dim g5).
      eexists. reflexivity.
    + intros [g6 child']. eexists. reflexivity.
Qed.

Lemma breed_returns (pop : arr2 xfloat) (scores : arr1 xfloat) (fuel : nat) :
  forall (g : G) (new_pop : list (arr1 xfloat)),
  exists g' l, breed dim low high config pop scores fuel g new_pop = Ok (g', new_pop ++ l).
Proof.
  induction fuel as [|fuel IH]; intros g new_pop; cbn [breed].
  - exists g, []. rewrite app_nil_r. reflexivity.
  - destruct (make_child_returns pop scores g) as ([g1 child] & ->). cbn [bind].
    destruct (IH g1 (new_pop ++ [child])) as (g' & l & ->).
    exists g', (child :: l). rewrite <- app_assoc. reflexivity.
Qed.


Lemma nth0_rev {X : Type} (l : list X) (d : X) : nth 0 (rev l) d = last l d.
Proof.
  induction l as [|x l IH]; [reflexivity|].
  cbn [rev]. destruct l as [|y l].
  - reflexivity.
  - change (last (x :: y :: l) d) with (last (y :: l) d). rewrite <- IH.
    rewrite app_nth1; [reflexivity|].
    cbn [rev]. rewrite length_app. cbn. lia.
Qed.

Lemma StronglySorted_app {X : Type} (R : X -> X -> Prop) (l1 l2 : list X) :
  StronglySorted R (l1 ++ l2) -> forall x y, In x l1 -> In y l2 -> R x y.
Proof.
  induction l1 as [|a l1 IH]; intros Hs x y Hx Hy; [contradiction|].
  cbn in Hs. apply StronglySorted_inv in Hs. destruct Hs as [Hs Hall].
  destruct Hx as [->|Hx].
  - rewrite Forall_forall in Hall. apply Hall. apply in_or_app. right. exact Hy.
  - apply IH; assumption.
Qed.

(** The last index of the sort is that of a largest score. *)
Lemma last_is_max (scores : arr1 xfloat) :
  (forall i, (i < n)%nat -> fisnan (scores i) = false) ->
  let b := last (argsort n scores) O in
  (b < n)%nat /\ forall i, (i < n)%nat -> xleb (scores i) (scores b) = true.
Proof.
  intros Hnan. destruct (sort_law scores) as [Hperm Hsorted].
  specialize (Hsorted Hnan).
  destruct population_positive as [_ Hn].
  assert (Hlen : List.length (argsort n scores) = n).
  { rewrite (Permutation_length Hperm). apply length_seq. }
  destruct (argsort n scores) as [|a l] eqn:E using rev_ind; [cbn in Hlen; lia|].
  clear IHl. cbv zeta. rewrite last_last.
  assert (Hb : (a < n)%nat).
  { assert (In a (seq 0 n)) as Hin
      by (apply (Permutation_in _ Hperm); apply in_or_app; right; left; reflexivity).
    apply in_seq in Hin. lia. }
  split; [exact Hb|]. intros i Hi.
  assert (Hin : In i (l ++ [a])).
  { apply (Permutation_in _ (Permutation_sym Hperm)). apply in_seq. lia. }
  apply in_app_or in Hin. destruct Hin as [Hin | [<- | []]].
  - apply (StronglySorted_app _ _ Hsorted i a Hin). left. reflexivity.
  - apply xleb_refl. apply Hnan. exact Hb.
Qed.

Lemma elites_positive : (1 <= elites)%nat.
Proof.
  pose proof (run_elite_n run) as H. unfold elite_n in H.
  apply bind_Ok in H. destruct H as (m & _ & H). injection H as H. lia.
Qed.

Lemma generation_step (st : @GAState xfloat G) :
  exists st',
    generation objective dim low high config n elites st = Ok st' /\
    consistent objective st' /\
    ga_pop st' O = ga_pop st (last (argsort n (ga_scores st)) O).
Proof.
  unfold generation.
  replace (Nat.ltb n elites) with false
    by (symmetry; apply Nat.ltb_ge; exact (run_elites run)).
  match goal with |- context [breed _ _ _ _ ?p ?s ?f ?g ?np] =>
    destruct (breed_returns p s f g np) as (g' & l & ->) end.
  cbn [bind]. eexists. split; [reflexivity|]. split.
  - intros i. reflexivity.
  - cbn [ga_pop]. unfold of_list.
    pose proof elites_positive as He. destruct elites as [|e]; [lia|].
    cbn [seq map app nth]. rewrite nth0_rev. reflexivity.
Qed.

Lemma consistent_number (st : @GAState xfloat G) :
  consistent objective st -> forall i, fisnan (ga_scores st i) = false.
Proof. intros Hc i. rewrite Hc. apply objective_number. Qed.

Lemma generation_dominates (st st' : @GAState xfloat G) :
  consistent objective st ->
  generation objective dim low high config n elites st = Ok st' ->
  consistent objective st' /\
  forall i, (i < n)%nat -> xleb (ga_scores st i) (ga_scores st' O) = true.
Proof.
  intros Hc Hg. destruct (generation_step st) as (st1 & Hg1 & Hc1 & Hpop).
  rewrite Hg in Hg1. injection Hg1 as <-. split; [exact Hc1|].
  intros i Hi.
  destruct (last_is_max (ga_scores st) (fun j _ => consistent_number Hc j)) as [_ Hmax].
  rewrite (Hc1 O), Hpop, <- (Hc _). apply Hmax. exact Hi.
Qed.

Lemma evolve_returns (k : nat) :
  forall st : @GAState xfloat G,
  consistent objective st ->
  exists st',
    evolve objective dim low high config n elites k st = Ok st' /\
    consistent objective st' /\
    forall i, (i < n)%nat ->
      exists j, (j < n)%nat /\ xleb (ga_scores st i) (ga_scores st' j) = true.
Proof.
  induction k as [|k IH]; intros st Hc; cbn [evolve].
  - exists st. split; [reflexivity|]. split; [exact Hc|].
    intros i Hi. exists i. split; [exact Hi|]. apply xleb_refl.
    apply consistent_number. exact Hc.
  - destruct (generation_step st) as (st1 & Hg & _ & _). rewrite Hg. cbn [bind].
    destruct (generation_dominates Hc Hg) as [Hc1 Hdom].
    destruct (IH st1 Hc1) as (st' & He & Hc' & Hdom').
    exists st'. split; [exact He|]. split; [exact Hc'|].
    intros i Hi. destruct population_positive as [_ Hn].
    destruct (Hdom' O Hn) as (j & Hj & Hle).
    exists j. split; [exact Hj|].
    apply xleb_trans with (ga_scores st1 O); [apply Hdom; exact Hi | exact Hle].
Qed.

Lemma evolve_split (k m : nat) :
  forall st : @GAState xfloat G,
  evolve objective dim low high config n elites (k + m) st =
  bind (evolve objective dim low high config n elites k st)
       (evolve objective dim low high config n elites m).
Proof.
  induction k as [|k IH]; intros st; cbn [Nat.add evolve bind]; [reflexivity|].
  destruct (generation objective dim low high config n elites st) as [st1|e];
    cbn [bind]; [apply IH | reflexivity].
Qed.

Lemma initial_population_returns :
  exists st0,
    initial_population objective dim low high config = Ok st0 /\
    consistent objective st0.
Proof.
  destruct population_positive as [Hp _].
  unfold initial_population, rng_uniform. cbv zeta.
  replace (forallb (fun k => fisfinite (high k - low k)) (seq 0 dim)) with true.
  - replace (existsb (fun k => is_negative (high k - low k)) (seq 0 dim)) with false.
    + replace (population config <? 0)%Z with false by (symmetry; apply Z.ltb_ge; lia).
      cbn [negb].
      match goal with |- context [samples ?d ?k ?m ?g] => destruct (samples d k m g) end.
      cbn [bind]. eexists. split; [reflexivity|]. intros i. reflexivity.
    + symmetry. apply not_true_is_false. intros H. apply existsb_exists in H.
      destruct H as (k & Hk & Hneg). apply in_seq in Hk.
      rewrite (run_order run) in Hneg by lia. discriminate.
  - symmetry. apply forallb_forall. intros k Hk. apply in_seq in Hk.
    apply (run_bounds run). lia.
Qed.

(** C7.  With a generator whose integers fall in the range asked for, a
    sort that sorts, an objective that never returns NaN and a
    configuration on which the run does not raise, [genetic_optimize]
    returns a candidate [x] with its fitness [f = objective x], and no
    candidate of any generation of the run - from the initial population
    to the final one - has a fitness above [f].  (The best of each
    generation is carried unchanged into the next as the first elite.) *)
Theorem genetic_optimize_best :
  exists x f,
    genetic_optimize objective dim low high config = Ok (x, f) /\
    f = objective x /\
    forall (k : nat) (st : @GAState xfloat G),
      (k <= Z.to_nat (generations config))%nat ->
      bind (initial_population objective dim low high config)
           (evolve objective dim low high config n elites k) = Ok st ->
      forall i, (i < n)%nat -> xleb (ga_scores st i) f = true.
Proof.
  destruct population_positive as [Hp Hn].
  destruct initial_population_returns as (st0 & Hinit & Hc0).
  destruct (evolve_returns (Z.to_nat (generations config)) Hc0) as (stf & Hev & Hcf & _).
  destruct (np_argmax_spec (ga_scores stf) Hn (fun j _ => consistent_number Hcf j))
    as (b & Hb & Hbn & Hmax).
  exists (ga_pop stf b), (ga_scores stf b). split; [|split].
  - unfold genetic_optimize. cbv zeta.
    fold n. rewrite Hinit. cbn [bind]. rewrite (run_elite_n run). cbn [bind].
    rewrite Hev. cbn [bind]. rewrite Hb. reflexivity.
  - apply Hcf.
  - intros k st Hk Hst i Hi. rewrite Hinit in Hst. cbn [bind] in Hst.
    destruct (evolve_returns k Hc0) as (stk & Hevk & Hck & _).
    rewrite Hst in Hevk. injection Hevk as <-.
    replace (Z.to_nat (generations config)) with (k + (Z.to_nat (generations config) - k))%nat
      in Hev by lia.
    rewrite evolve_split, Hst in Hev. cbn [bind] in Hev.
    destruct (evolve_returns (Z.to_nat (generations config) - k) Hck)
      as (stf' & Hev' & _ & Hdom).
    rewrite Hev in Hev'. injection Hev' as <-.
    destruct (Hdom i Hi) as (j & Hj & Hle).
    apply xleb_trans with (ga_scores stf j); [exact Hle | apply Hmax; exact Hj].
Qed.

End GAProofs.

(** *** The optimizer run with a counter and an insertion sort *)

Section GAInstanceProofs.
Import Optimize.
Local Open Scope np_scope.

Lemma counter_in_range : integers_in_range (gen := counter_rng).
Proof.
  intros g lo hi H. cbn.
  pose proof (Z.mod_pos_bound g (hi - lo)) as Hm. lia.
Qed.

Lemma insert_index_perm (scores : arr1 xfloat) (i : nat) (l : list nat) :
  Permutation (insert_index scores i l) (i :: l).
Proof.
  induction l as [|j t IH]; cbn [insert_index]; [reflexivity|].
  destruct (nan_last_leb (scores j) (scores i)); [|reflexivity].
  rewrite IH. apply perm_swap.
Qed.

Lemma insert_index_sorted (scores : arr1 xfloat) (i : nat) (l : list nat) :
  fisnan (scores i) = false ->
  Forall (fun j => fisnan (scores j) = false) l ->
  StronglySorted (fun a b => xleb (scores a) (scores b) = true) l ->
  StronglySorted (fun a b => xleb (scores a) (scores b) = true) (insert_index scores i l).
Proof.
  intros Hi Hl Hs. induction Hs as [|j t Hs IH Hall]; cbn [insert_index].
  - constructor; constructor.
  - apply Forall_cons_iff in Hl. destruct Hl as [Hj Ht].
    unfold nan_last_leb. rewrite Hi, orb_false_r.
    destruct (scores j <=? scores i) eqn:Hle.
    + constructor; [apply IH; exact Ht|].
      apply (Permutation_Forall (Permutation_sym (insert_index_perm scores i t))).
      constructor; [exact Hle | exact Hall].
    + assert (Hij : xleb (scores i) (scores j) = true)
        by (apply xleb_false; assumption).
      constructor; [constructor; assumption|].
      constructor; [exact Hij|].
      rewrite Forall_forall in Hall |- *. intros k Hk.
      apply xleb_trans with (scores j); [exact Hij | apply Hall; exact Hk].
Qed.

Lemma insertion_sorts (n : nat) : argsort_sorts (srt := insertion_sorter) n.
Proof.
  intros scores. cbn [argsort insertion_sorter].
  assert (H : forall (todo done : list nat),
            Permutation (fold_left (fun l i => insert_index scores i l) todo done)
                        (done ++ todo) /\
            (Forall (fun j => fisnan (scores j) = false) (done ++ todo) ->
             StronglySorted (fun a b => xleb (scores a) (scores b) = true) done ->
             StronglySorted (fun a b => xleb (scores a) (scores b) = true)
               (fold_left (fun l i => insert_index scores i l) todo done))).
  { induction todo as [|i todo IH]; intros done; cbn [fold_left].
    - rewrite app_nil_r. split; [reflexivity | auto].
    - destruct (IH (insert_index scores i done)) as [IHp IHs]. split.
      + rewrite IHp, insert_index_perm. apply Permutation_middle.
      + intros Hnan Hs. rewrite Forall_app in Hnan. destruct Hnan as [Hd Ht].
        apply Forall_cons_iff in Ht. destruct Ht as [Hi Ht].
        apply IHs.
        * rewrite Forall_app. split; [|exact Ht].
          apply (Permutation_Forall (Permutation_sym (insert_index_perm scores i done))).
          constructor; assumption.
        * apply insert_index_sorted; assumption. }
  destruct (H (seq 0 n) []) as [Hp Hs]. split; [exact Hp|].
  intros Hnan. apply Hs; [|constructor].
  apply Forall_forall. intros j Hj. apply in_seq in Hj. apply Hnan. lia.
Qed.

Lemma first_square_number (x : arr1 xfloat) : fisnan (first_square x) = false.
Proof.
  unfold first_square, fisnan. destruct (x O); cbn; rewrite Reqb_true; reflexivity.
Qed.

Lemma small_run_runnable :
  runnable 2 (fun _ => Fin (-1)) (fun _ => Fin 1) small_run 2.
Proof.
  split; cbn; try lia; try reflexivity.
  - unfold elite_n, py_int. cbn.
    destruct (Rle_dec 0 (1 / 2 * 4)) as [_|H]; [|exfalso; apply H; lra].
    rewrite <- (Int_part_spec (1 / 2 * 4) 2) by (split; lra). reflexivity.
  - unfold is_negative, fisnan. cbn. rewrite Reqb_true by reflexivity.
    apply Rltb_false. lra.
  - intros k Hk. unfold is_negative, fisnan. cbn. rewrite Reqb_true by reflexivity.
    apply Rltb_false. lra.
Qed.

(** C7 on a run of three generations of four candidates. *)
Lemma genetic_optimize_best_witness :
  exists x f,
    genetic_optimize first_square 2 (fun _ => Fin (-1)) (fun _ => Fin 1) small_run
      = Ok (x, f) /\
    f = first_square x.
Proof.
  destruct (@genetic_optimize_best Z counter_rng insertion_sorter first_square 2
              (fun _ => Fin (-1)) (fun _ => Fin 1) small_run 2
              counter_in_range (insertion_sorts _) first_square_number small_run_runnable)
    as (x & f & Hrun & Hf & _).
  exists x, f. split; assumption.
Defined.

End GAInstanceProofs.
(** * Further properties of the code *)

(** ** What [solve_equilibrium] can return *)

Section SolverReturns.
Import Data Equilibrium.
Local Open Scope np_scope.
Context {F : Type} {ops : Float64 F} {lm : Libm F}.
Variable data : ModelData F.
Variables (tariff iceberg : arr3 F) (tol damp : F).

#[local] Opaque _solve_income_and_revenue.

Let N : nat := n_countries (dims data).
Let S_ : nat := n_sectors (dims data).

(** The loop returns the state of its first pass, or the state it was
    started from when the budget is zero. *)
Lemma outer_loop_returns (n : nat) (st stf : LoopState) :
  outer_loop data tariff iceberg tol damp n st = Ok stf ->
  (n = O /\ stf = st) \/
  (exists md, outer_body data tariff iceberg damp st = Ok (stf, md) /\
              (n = 1%nat \/ (md <? tol) = true)).
Proof.
  destruct n as [|n]; intros H.
  - left. injection H as H. auto.
  - right. cbn [outer_loop] in H.
    destruct (outer_body data tariff iceberg damp st) as [[st' md]|e] eqn:Hb;
      [|discriminate H].
    cbn [bind] in H. destruct (md <? tol) eqn:Hlt.
    + injection H as H. subst st'. exists md. auto.
    + destruct n as [|n].
      * injection H as H. subst st'. exists md. auto.
      * cbn [outer_loop] in H. apply second_pass_raises in Hb. rewrite Hb in H.
        discriminate H.
Qed.

(** Real income from prices of shape [(1, N, S)] has shape [(1, n)]. *)
Lemma real_income_row (income : arr1 F) (p : arr2 F) (r : vec_array F) :
  _real_income data income (Shape_1NS p) = Ok r -> row r = true.
Proof.
  unfold _real_income, vec_map2. cbn [vec_map len row].
  destruct (broadcast_axis _ _); [|discriminate].
  intros H. injection H as H. subst r. reflexivity.
Qed.

End SolverReturns.

Section SolverEdges.
Import Data Equilibrium.
Local Open Scope np_scope.
Context {F : Type} {ops : Float64 F} {lm : Libm F}.
Variable data : ModelData F.
Variables (tariff iceberg : option (arr3 F)) (tol damp : F).

#[local] Opaque _solve_income_and_revenue.

Let N : nat := n_countries (dims data).
Let S_ : nat := n_sectors (dims data).
Let tariff' : arr3 F := match tariff with None => Data.tariff data | Some t => t end.
Let iceberg' : arr3 F := match iceberg with None => Data.iceberg data | Some t => t end.

Lemma solve_returns_inv (max_iter : nat) (r : EquilibriumResult F) :
  solve_equilibrium data tariff iceberg max_iter tol damp = Ok r ->
  exists st' md p,
    outer_body data tariff' iceberg' damp (initial_state data) = Ok (st', md) /\
    (max_iter = 1%nat \/ (md <? tol) = true) /\
    st_prices st' = Shape_1NS p /\
    _real_income data (st_income st') (Shape_1NS p) = Ok (real_income r) /\
    wages r = st_wages st' /\ prices r = Shape_1NS p /\
    income r = st_income st' /\ revenues r = st_revenues st' /\
    st_trade_shares st' = Some (trade_shares r) /\
    st_tariff_rev st' = Some (tariff_revenue r).
Proof.
  unfold solve_equilibrium. fold tariff' iceberg'. intros H.
  apply bind_Ok in H. destruct H as (stf & Hloop & H).
  apply bind_Ok in H. destruct H as (ri & Hri & H).
  apply outer_loop_returns in Hloop.
  destruct Hloop as [[_ Hst] | (md & Hb & Hwhy)].
  - subst stf. cbn in H. discriminate H.
  - pose proof Hb as Hinv. apply outer_body_inv in Hinv.
    destruct Hinv as (p0 & inc & rev & tr & _ & _ & _ & Hst & _).
    assert (Hp : exists p, st_prices stf = Shape_1NS p).
    { rewrite Hst. cbn [st_prices]. eexists. reflexivity. }
    destruct Hp as (p & Hp).
    exists stf, md, p. rewrite Hp in Hri.
    destruct (st_trade_shares stf) as [ts|] eqn:Ets; [|discriminate H].
    destruct (st_tariff_rev stf) as [tr'|] eqn:Etr; [|discriminate H].
    injection H as H. subst r. cbn.
    repeat split; try assumption; try reflexivity.
Qed.

(** X1.  Whatever the budget, when [solve_equilibrium] returns it
    returns the state its first pass left: either that pass met the
    tolerance or the budget was one pass.  The prices it returns have
    shape [(1, N, S)] and the real incomes shape [(1, n)], not the
    [(N, S)] and [(N,)] that [EquilibriumResult] documents. *)
Theorem solve_returns_first_pass (max_iter : nat) (r : EquilibriumResult F) :
  solve_equilibrium data tariff iceberg max_iter tol damp = Ok r ->
  exists st' md p,
    outer_body data tariff' iceberg' damp (initial_state data) = Ok (st', md) /\
    (max_iter = 1%nat \/ (md <? tol) = true) /\
    wages r = st_wages st' /\
    income r = st_income st' /\
    revenues r = st_revenues st' /\
    st_prices st' = Shape_1NS p /\
    prices r = Shape_1NS p /\
    row (real_income r) = true.
Proof.
  intros H. apply solve_returns_inv in H.
  destruct H as (st' & md & p & Hb & Hwhy & Hp & Hri & Hw & Hpr & Hi & Hr & _).
  exists st', md, p. repeat split; try assumption.
  eapply real_income_row. exact Hri.
Qed.

(** X2.  With a number of countries and a number of sectors that are
    different and both not 1, [solve_equilibrium] raises for every
    budget, tolerance and damping: the division of the incomes, of shape
    [(N,)], by a price index of shape [(1, S)] cannot be broadcast. *)
Theorem solve_raises_unless_broadcast (max_iter : nat) :
  N <> S_ -> N <> 1%nat -> S_ <> 1%nat ->
  exists e, solve_equilibrium data tariff iceberg max_iter tol damp = Raise e.
Proof.
  intros H H1 H2.
  destruct (solve_equilibrium data tariff iceberg max_iter tol damp) as [r|e] eqn:E;
    [|exists e; reflexivity].
  apply solve_returns_inv in E.
  destruct E as (st' & md & p & _ & _ & _ & Hri & _).
  rewrite real_income_1NS in Hri by assumption. discriminate Hri.
Qed.

End SolverEdges.

Section ZeroBudget.
Import Data Equilibrium.
Local Open Scope np_scope.
Context {F : Type} {ops : Float64 F} {lm : Libm F}.
Variable data : ModelData F.

(** X3.  A budget of zero passes is not an empty run: both loops leave
    a variable of their [return] unbound and raise
    [UnboundLocalError]. *)
Theorem zero_budget_raises (tariff iceberg : option (arr3 F)) (tol damp : F)
  (trade_shares tariff' iceberg' : arr3 F) (wages income : arr1 F) (revenues : arr2 F) :
  solve_equilibrium data tariff iceberg 0 tol damp =
    Raise (UnboundLocalError "trade_shares") /\
  _solve_income_and_revenue data trade_shares tariff' iceberg' wages income revenues 0 tol =
    Raise (UnboundLocalError "tariff_rev").
Proof.
  split; [|reflexivity].
  unfold solve_equilibrium. cbn [outer_loop bind initial_state st_income st_prices].
  match goal with
  | |- context [_real_income data ?inc (Shape_NS ?p)] =>
      destruct (real_income_NS data inc p) as (r & Hr & _)
  end.
  rewrite Hr. reflexivity.
Qed.

(** The convergence measure of a model without countries or without
    sectors: [np.max] of an array of size zero. *)
Lemma inner_max_diff_empty (income income_new : arr1 F) (revenues revenues_new : arr2 F) :
  n_countries (dims data) = O \/ n_sectors (dims data) = O ->
  inner_max_diff data income income_new revenues revenues_new =
  Raise (ValueError "zero-size array to reduction operation maximum which has no identity").
Proof.
  unfold inner_max_diff. intros [H | H]; rewrite H.
  - reflexivity.
  - destruct (np_max (flat1 _ _)) as [m1|e] eqn:E1.
    + cbn [bind]. unfold flat2. cbn [seq map].
      replace (flat_map (fun _ : nat => @nil F) (seq 0 (n_countries (dims data))))
        with (@nil F); [reflexivity|].
      induction (seq 0 (n_countries (dims data))) as [|x l IH]; [reflexivity | exact IH].
    + unfold flat1 in E1. destruct (n_countries (dims data)); cbn in E1.
      * injection E1 as E1. subst e. reflexivity.
      * discriminate E1.
Qed.

(** X4.  In a model without countries or without sectors, the
    income-revenue loop raises the [ValueError] of [np.max] on an empty
    array in its first pass, and so does [solve_equilibrium]. *)
Theorem empty_model_raises (tariff iceberg : option (arr3 F)) (tol tol' damp : F)
  (trade_shares tariff' iceberg' : arr3 F) (wages income : arr1 F) (revenues : arr2 F)
  (max_iter : nat) :
  n_countries (dims data) = O \/ n_sectors (dims data) = O ->
  (0 < max_iter)%nat ->
  _solve_income_and_revenue data trade_shares tariff' iceberg' wages income revenues
    max_iter tol' =
    Raise (ValueError "zero-size array to reduction operation maximum which has no identity") /\
  solve_equilibrium data tariff iceberg max_iter tol damp =
    Raise (ValueError "zero-size array to reduction operation maximum which has no identity").
Proof.
  intros Hempty Hpos. destruct max_iter as [|n]; [lia|].
  assert (inner : forall ts tar ice w inc rev k t,
            _solve_income_and_revenue data ts tar ice w inc rev (S k) t =
            Raise (ValueError
              "zero-size array to reduction operation maximum which has no identity")).
  { intros. unfold _solve_income_and_revenue. cbn [income_loop].
    rewrite inner_max_diff_empty by exact Hempty. reflexivity. }
  split; [apply inner|].
  unfold solve_equilibrium. cbn [outer_loop].
  unfold outer_body. cbv zeta. cbn [initial_state st_wages st_prices].
  rewrite unit_costs_NS. cbn [bind]. unfold _price_index. cbv zeta.
  change 500%nat with (S 499). rewrite inner. reflexivity.
Qed.

End ZeroBudget.

Section SolverChecks.
Import Data Equilibrium.
Local Open Scope np_scope.

#[local] Opaque _solve_income_and_revenue.

(** [free_trade] with the default arguments: the solver returns. *)
Lemma free_trade_solves :
  exists r, solve_equilibrium free_trade None None 2000 c_1e_8 c_0_3 = Ok r.
Proof.
  unfold solve_equilibrium. rewrite free_trade_initial.
  change 2000%nat with (S 1999).
  erewrite outer_loop_S by exact free_trade_pass.
  replace (Fin 0 <? c_1e_8) with true by (symmetry; xeval; reflexivity).
  cbn [bind unit_state st_income st_prices st_trade_shares st_tariff_rev st_wages
       st_revenues].
  unfold _real_income, vec_map2. cbn. eexists. reflexivity.
Qed.

(** X1 on [free_trade] with the default arguments. *)
Lemma solve_returns_first_pass_witness :
  exists r st' md p,
    solve_equilibrium free_trade None None 2000 c_1e_8 c_0_3 = Ok r /\
    outer_body free_trade (tariff free_trade) (iceberg free_trade) c_0_3
      (initial_state free_trade) = Ok (st', md) /\
    (md <? c_1e_8) = true /\
    prices r = Shape_1NS p /\ row (real_income r) = true.
Proof.
  destruct free_trade_solves as (r & Hr).
  destruct (solve_returns_first_pass free_trade None None c_1e_8 c_0_3 2000 Hr)
    as (st' & md & p & Hb & Hwhy & _ & _ & _ & _ & Hp & Hrow).
  exists r, st', md, p. repeat split; try assumption.
  destruct Hwhy as [H | H]; [discriminate H | exact H].
Defined.

(** X2 on [two_by_three] with the default arguments. *)
Lemma solve_raises_unless_broadcast_witness :
  exists e, solve_equilibrium two_by_three None None 2000 c_1e_8 c_0_3 = Raise e.
Proof.
  apply (solve_raises_unless_broadcast two_by_three None None c_1e_8 c_0_3 2000);
    cbn; lia.
Defined.

(** X4 on [no_countries] with the default arguments. *)
Lemma empty_model_raises_witness :
  solve_equilibrium no_countries None None 2000 c_1e_8 c_0_3 =
  Raise (ValueError "zero-size array to reduction operation maximum which has no identity").
Proof.
  apply (empty_model_raises no_countries None None c_1e_8 c_1e_9 c_0_3
           (fun _ _ _ => Fin 1) (fun _ _ _ => Fin 1) (fun _ _ _ => Fin 1)
           (fun _ => Fin 1) (fun _ => Fin 1) (fun _ _ => Fin 1) (max_iter := 2000)).
  - left. reflexivity.
  - lia.
Defined.

End SolverChecks.

(** ** The circular flow and the CES shares in exact arithmetic *)

Section MoreSums.
Local Open Scope R_scope.

Lemma Rlist_sum_app (l1 l2 : list R) :
  Rlist_sum (l1 ++ l2) = Rlist_sum l1 + Rlist_sum l2.
Proof. induction l1 as [|x l IH]; simpl; [lra | rewrite IH; lra]. Qed.

Lemma RSum_S (n : nat) (g : nat -> R) : RSum (S n) g = RSum n g + g n.
Proof.
  unfold RSum. rewrite seq_S, map_app, Rlist_sum_app. simpl. lra.
Qed.

Lemma RSum_zero (n : nat) : RSum n (fun _ => 0) = 0.
Proof. rewrite RSum_const; [lra | exact (fun _ => 0)]. Qed.

(** The order of two summations. *)
Lemma RSum_swap (n m : nat) (g : nat -> nat -> R) :
  RSum n (fun i => RSum m (fun j => g i j)) = RSum m (fun j => RSum n (fun i => g i j)).
Proof.
  induction n as [|n IH].
  - cbn. symmetry. apply RSum_zero.
  - rewrite RSum_S, IH, <- RSum_plus. apply RSum_ext.
    intros j _. rewrite RSum_S. reflexivity.
Qed.

Lemma RSum_nonneg (n : nat) (g : nat -> R) :
  (forall k, (k < n)%nat -> 0 <= g k) -> 0 <= RSum n g.
Proof.
  induction n as [|n IH]; intros H.
  - cbn. lra.
  - rewrite RSum_S. assert (0 <= g n) by (apply H; lia).
    assert (0 <= RSum n g) by (apply IH; intros; apply H; lia). lra.
Qed.

(** A summand of a sum of numbers that are not negative. *)
Lemma RSum_term_le (n : nat) (g : nat -> R) (j : nat) :
  (forall k, (k < n)%nat -> 0 <= g k) -> (j < n)%nat -> g j <= RSum n g.
Proof.
  induction n as [|n IH]; intros H Hj; [lia|].
  rewrite RSum_S. assert (0 <= g n) by (apply H; lia).
  assert (0 <= RSum n g) by (apply RSum_nonneg; intros; apply H; lia).
  destruct (Nat.eq_dec j n) as [->|Hne]; [lra|].
  assert (g j <= RSum n g) by (apply IH; [intros; apply H; lia | lia]). lra.
Qed.

End MoreSums.

Section MoreXFloat.
Local Open Scope np_scope.

Lemma xadd_0_r (x : xfloat) : x + Fin 0 = x.
Proof. destruct x as [r|s|]; cbn; [f_equal; lra | reflexivity | reflexivity]. Qed.

Lemma xmul_1_r (x : xfloat) : x * Fin 1 = x.
Proof.
  destruct x as [r|s|]; cbn; [f_equal; lra | | reflexivity].
  rewrite Reqb_false by lra. rewrite Rltb_false by lra. destruct s; reflexivity.
Qed.

(** [np.max] of a non-empty array of zeros. *)
Lemma np_max_zeros (l : list xfloat) :
  l <> [] -> Forall (fun x => x = Fin 0) l -> np_max l = Ok (Fin 0).
Proof.
  destruct l as [|x l]; [congruence|]. intros _ H.
  inversion H as [|? ? Hx Hl]; subst. cbn [np_max]. f_equal.
  clear H. induction l as [|y l IH]; [reflexivity|].
  inversion Hl as [|? ? Hy Hl']; subst. cbn [fold_left].
  replace (np_maximum (Fin 0) (Fin 0)) with (Fin 0).
  - apply IH. exact Hl'.
  - unfold np_maximum, fisnan. cbn. rewrite Reqb_true by reflexivity.
    rewrite Rleb_true by lra. reflexivity.
Qed.

Lemma Forall_flat1 {F : Type} (P : F -> Prop) (n : nat) (f : arr1 F) :
  (forall i, (i < n)%nat -> P (f i)) -> Forall P (flat1 n f).
Proof.
  intros H. unfold flat1. apply Forall_forall. intros x Hx.
  apply in_map_iff in Hx. destruct Hx as (i & <- & Hi). apply in_seq in Hi.
  apply H. lia.
Qed.

Lemma Forall_flat2 {F : Type} (P : F -> Prop) (n m : nat) (f : arr2 F) :
  (forall i s, (i < n)%nat -> (s < m)%nat -> P (f i s)) -> Forall P (flat2 n m f).
Proof.
  intros H. unfold flat2. apply Forall_forall. intros x Hx.
  apply in_flat_map in Hx. destruct Hx as (i & Hi & Hx).
  apply in_map_iff in Hx. destruct Hx as (s & <- & Hs).
  apply in_seq in Hi, Hs. apply H; lia.
Qed.

Lemma flat1_nonempty {F : Type} (n : nat) (f : arr1 F) : (0 < n)%nat -> flat1 n f <> [].
Proof. intros H. destruct n; [lia|]. discriminate. Qed.

Lemma flat2_nonempty {F : Type} (n m : nat) (f : arr2 F) :
  (0 < n)%nat -> (0 < m)%nat -> flat2 n m f <> [].
Proof. intros Hn Hm. destruct n; [lia|]. destruct m; [lia|]. discriminate. Qed.

(** The relative change of a real number to itself. *)
Lemma rel_change_same (r : R) :
  fabs (Fin r - Fin r) / (fabs (Fin r) + c_1e_12) = Fin 0.
Proof.
  cbn. pose proof (Rabs_pos r) as Hr.
  rewrite Reqb_false by lra. f_equal.
  replace (r - r)%R with 0%R by lra. rewrite Rabs_R0. unfold Rdiv. apply Rmult_0_l.
Qed.

End MoreXFloat.

Section FlowAccounts.
Import Data Equilibrium.
Local Open Scope np_scope.

Variable data : ModelData xfloat.
Variables (trade_shares tariff iceberg : arr3 xfloat) (wages : arr1 xfloat).
Variables (income : arr1 xfloat) (revenues : arr2 xfloat).

Let N : nat := n_countries (dims data).
Let S_ : nat := n_sectors (dims data).
Let v : FlowVars := circular_flow data trade_shares tariff iceberg wages income revenues.

(** X5.  Without tariffs on the imports of country [i] (every gross
    tariff [tariff[i,j,s]] is 1) and with finite flows, the tariff
    revenue of [i] is exactly 0 and its new income is its labor income
    plus its trade balance. *)
Theorem no_tariff_no_revenue (i : nat) :
  (forall j s, (j < N)%nat -> (s < S_)%nat -> tariff i j s = Fin 1) ->
  (forall j s, (j < N)%nat -> (s < S_)%nat -> finite (flows v i j s)) ->
  tariff_rev v i = Fin 0 /\
  income_new v i = wages i * Data.L data i + Data.D data i.
Proof.
  intros Ht Hf.
  assert (E : tariff_rev v i = Fin 0).
  { change (tariff_rev v i) with
      (np_sum N (fun j => np_sum S_ (fun s =>
         (tariff i j s - c_1) / tariff i j s * flows v i j s))).
    rewrite (np_sum_ext _ (fun _ => Fin 0)).
    - rewrite np_sum_Fin, RSum_zero. reflexivity.
    - intros j Hj. rewrite (np_sum_ext _ (fun _ => Fin 0)).
      + rewrite np_sum_Fin, RSum_zero. reflexivity.
      + intros s Hs. rewrite (Ht j s Hj Hs).
        destruct (Hf j s Hj Hs) as [f ->]. cbn.
        rewrite Reqb_false by lra. cbn. f_equal. field. }
  split; [exact E|].
  change (income_new v i) with (wages i * Data.L data i + tariff_rev v i + Data.D data i).
  rewrite E, xadd_0_r. reflexivity.
Qed.

(** X6.  Without iceberg costs, with positive gross tariffs and finite
    flows, a pass of the circular flow accounts for all expenditure:
    the revenues of all producers plus the tariff revenues of all
    countries add up to the sum of all bilateral flows. *)
Theorem expenditure_is_accounted :
  (forall i j s, (i < N)%nat -> (j < N)%nat -> (s < S_)%nat -> iceberg i j s = Fin 1) ->
  (forall i j s, (i < N)%nat -> (j < N)%nat -> (s < S_)%nat ->
     positive_real (tariff i j s)) ->
  (forall i j s, (i < N)%nat -> (j < N)%nat -> (s < S_)%nat -> finite (flows v i j s)) ->
  np_sum N (fun j => np_sum S_ (fun s => revenues_new v j s))
  + np_sum N (fun i => tariff_rev v i)
  = np_sum N (fun i => np_sum N (fun j => np_sum S_ (fun s => flows v i j s))).
Proof.
  intros Hice Htar Hfl.
  set (f := fun i j s => toR (flows v i j s)).
  set (t := fun i j s => toR (tariff i j s)).
  assert (Ef : forall i j s, (i < N)%nat -> (j < N)%nat -> (s < S_)%nat ->
            flows v i j s = Fin (f i j s)).
  { intros. apply finite_toR. apply Hfl; assumption. }
  assert (Et : forall i j s, (i < N)%nat -> (j < N)%nat -> (s < S_)%nat ->
            tariff i j s = Fin (t i j s) /\ (0 < t i j s)%R).
  { intros. apply positive_toR. apply Htar; assumption. }
  assert (Erev : forall j s, (j < N)%nat -> (s < S_)%nat ->
            revenues_new v j s = Fin (RSum N (fun i => (f i j s / t i j s)%R))).
  { intros j s Hj Hs.
    change (revenues_new v j s) with
      (np_sum N (fun i => flows v i j s / (iceberg i j s * tariff i j s))).
    rewrite (np_sum_ext _ (fun i => Fin (f i j s / t i j s))); [apply np_sum_Fin|].
    intros i Hi. rewrite (Ef i j s Hi Hj Hs), (Hice i j s Hi Hj Hs).
    destruct (Et i j s Hi Hj Hs) as [-> Hpos]. cbn.
    rewrite Reqb_false by lra. f_equal. field. lra. }
  assert (Etr : forall i, (i < N)%nat ->
            tariff_rev v i =
            Fin (RSum N (fun j => RSum S_ (fun s =>
                   ((t i j s - 1) / t i j s * f i j s)%R)))).
  { intros i Hi.
    change (tariff_rev v i) with
      (np_sum N (fun j => np_sum S_ (fun s =>
         (tariff i j s - c_1) / tariff i j s * flows v i j s))).
    rewrite (np_sum_ext _ (fun j => Fin (RSum S_ (fun s =>
               ((t i j s - 1) / t i j s * f i j s)%R)))); [apply np_sum_Fin|].
    intros j Hj.
    rewrite (np_sum_ext _ (fun s => Fin ((t i j s - 1) / t i j s * f i j s)));
      [apply np_sum_Fin|].
    intros s Hs. rewrite (Ef i j s Hi Hj Hs).
    destruct (Et i j s Hi Hj Hs) as [-> Hpos]. cbn.
    rewrite Reqb_false by lra. cbn. reflexivity. }
  rewrite (np_sum_ext (fun j => np_sum S_ (fun s => revenues_new v j s))
             (fun j => Fin (RSum S_ (fun s => RSum N (fun i => (f i j s / t i j s)%R))))).
  2:{ intros j Hj. rewrite (np_sum_ext _ _ (fun s Hs => Erev j s Hj Hs)).
      apply np_sum_Fin. }
  rewrite (np_sum_ext (fun i => tariff_rev v i) _ Etr).
  rewrite (np_sum_ext (fun i => np_sum N (fun j => np_sum S_ (fun s => flows v i j s)))
             (fun i => Fin (RSum N (fun j => RSum S_ (fun s => f i j s))))).
  2:{ intros i Hi.
      rewrite (np_sum_ext _ (fun j => Fin (RSum S_ (fun s => f i j s))));
        [apply np_sum_Fin|].
      intros j Hj. rewrite (np_sum_ext _ _ (fun s Hs => Ef i j s Hi Hj Hs)).
      apply np_sum_Fin. }
  rewrite !np_sum_Fin. cbn [fadd xfloat_ops xadd]. f_equal.
  rewrite (RSum_ext (fun j => RSum S_ (fun s => RSum N (fun i => (f i j s / t i j s)%R)))
             (fun j => RSum N (fun i => RSum S_ (fun s => (f i j s / t i j s)%R)))).
  2:{ intros j _. apply RSum_swap. }
  rewrite (RSum_swap N N (fun j i => RSum S_ (fun s => (f i j s / t i j s)%R))).
  rewrite <- RSum_plus. apply RSum_ext. intros i Hi.
  rewrite <- RSum_plus. apply RSum_ext. intros j Hj.
  rewrite <- RSum_plus. apply RSum_ext. intros s Hs.
  destruct (Et i j s Hi Hj Hs) as [_ Hpos]. field. lra.
Qed.

(** X7.  Started at a fixed point of the circular flow (finite incomes
    and revenues that a pass reproduces), in a model with at least one
    country and one sector and with a tolerance above 0, the
    income-revenue loop returns in its first pass, with the values it
    was given. *)
Theorem fixed_point_returns (tol : xfloat) (max_iter : nat) :
  (0 < N)%nat -> (0 < S_)%nat -> (0 < max_iter)%nat ->
  (Fin 0 <? tol) = true ->
  (forall i, (i < N)%nat -> finite (income i) /\ income_new v i = income i) ->
  (forall i s, (i < N)%nat -> (s < S_)%nat ->
     finite (revenues i s) /\ revenues_new v i s = revenues i s) ->
  _solve_income_and_revenue data trade_shares tariff iceberg wages income revenues
    max_iter tol = Ok (income_new v, revenues_new v, tariff_rev v).
Proof.
  intros HN HS Hit Htol Hinc Hrev.
  destruct max_iter as [|n]; [lia|].
  unfold _solve_income_and_revenue.
  assert (Hmd : flow_max_diff data trade_shares tariff iceberg wages (income, revenues)
                = Ok (Fin 0)).
  { unfold flow_max_diff, flow_vars, inner_max_diff. cbn [fst snd]. fold N S_ v.
    rewrite (@np_max_zeros (flat1 N _)).
    - rewrite (@np_max_zeros (flat2 N S_ _)).
      + cbn [bind]. unfold py_max. cbn. rewrite Rltb_false by lra. reflexivity.
      + apply flat2_nonempty; assumption.
      + apply Forall_flat2. intros i s Hi Hs. unfold rel_change2.
        destruct (Hrev i s Hi Hs) as [[r Hr] E]. rewrite E, Hr. apply rel_change_same.
    - apply flat1_nonempty; assumption.
    - apply Forall_flat1. intros i Hi. unfold rel_change1.
      destruct (Hinc i Hi) as [[r Hr] E]. rewrite E, Hr. apply rel_change_same. }
  erewrite income_loop_S by exact Hmd. cbv zeta. rewrite Htol. reflexivity.
Qed.

End FlowAccounts.

Section FlowChecks.
Import Data Equilibrium.
Local Open Scope np_scope.

(** [free_trade] with equal trade shares and unit wages, incomes and
    revenues: the flows are finite. *)
Lemma free_trade_flows_finite (i j s : nat) :
  finite (flows (circular_flow free_trade (fun _ _ _ => Fin (1 / 2)) (tariff free_trade)
                   (iceberg free_trade) (fun _ => Fin 1) (fun _ => Fin 1)
                   (fun _ _ => Fin 1)) i j s).
Proof. eexists. cbn. reflexivity. Qed.

(** X5 on [free_trade]. *)
Lemma no_tariff_no_revenue_witness :
  let v := circular_flow free_trade (fun _ _ _ => Fin (1 / 2)) (tariff free_trade)
             (iceberg free_trade) (fun _ => Fin 1) (fun _ => Fin 1) (fun _ _ => Fin 1) in
  tariff_rev v 0 = Fin 0 /\
  income_new v 0 = Fin 1 * Data.L free_trade 0 + Data.D free_trade 0.
Proof.
  apply (no_tariff_no_revenue free_trade (fun _ _ _ => Fin (1 / 2)) (tariff free_trade)
           (iceberg free_trade) (fun _ => Fin 1) (fun _ => Fin 1) (fun _ _ => Fin 1) 0).
  - intros j s _ _. reflexivity.
  - intros j s _ _. apply free_trade_flows_finite.
Defined.

(** X6 on [free_trade]. *)
Lemma expenditure_is_accounted_witness :
  let v := circular_flow free_trade (fun _ _ _ => Fin (1 / 2)) (tariff free_trade)
             (iceberg free_trade) (fun _ => Fin 1) (fun _ => Fin 1) (fun _ _ => Fin 1) in
  np_sum 2 (fun j => np_sum 1 (fun s => revenues_new v j s))
  + np_sum 2 (fun i => tariff_rev v i)
  = np_sum 2 (fun i => np_sum 2 (fun j => np_sum 1 (fun s => flows v i j s))).
Proof.
  apply (expenditure_is_accounted free_trade (fun _ _ _ => Fin (1 / 2)) (tariff free_trade)
           (iceberg free_trade) (fun _ => Fin 1) (fun _ => Fin 1) (fun _ _ => Fin 1)).
  - intros i j s _ _ _. reflexivity.
  - intros i j s _ _ _. exists 1%R. split; [reflexivity | lra].
  - intros i j s _ _ _. apply free_trade_flows_finite.
Defined.

(** X7 on [free_trade], whose state of unit incomes and revenues is a
    fixed point, with the default budget and tolerance. *)
Lemma fixed_point_returns_witness :
  let v := circular_flow free_trade (fun _ _ _ => Fin (1 / 2)) (tariff free_trade)
             (iceberg free_trade) (fun _ => Fin 1) (fun _ => Fin 1) (fun _ _ => Fin 1) in
  _solve_income_and_revenue free_trade (fun _ _ _ => Fin (1 / 2)) (tariff free_trade)
    (iceberg free_trade) (fun _ => Fin 1) (fun _ => Fin 1) (fun _ _ => Fin 1) 500 c_1e_9
  = Ok (income_new v, revenues_new v, tariff_rev v).
Proof.
  apply (fixed_point_returns free_trade (fun _ _ _ => Fin (1 / 2)) (tariff free_trade)
           (iceberg free_trade) (fun _ => Fin 1) (fun _ => Fin 1) (fun _ _ => Fin 1)
           c_1e_9 (max_iter := 500)).
  - cbn. lia.
  - cbn. lia.
  - lia.
  - cbn. apply Rltb_true. lra.
  - intros i _. split; [exists 1%R; reflexivity|]. unfold free_trade. xeval. fin.
  - intros i s _ _. split; [exists 1%R; reflexivity|]. unfold free_trade. xeval. fin.
Defined.

End FlowChecks.

(** ** The CES shares *)

Section SharesRange.
Import Data Equilibrium.
Local Open Scope np_scope.

Variable data : ModelData xfloat.
Variables (costs : arr2 xfloat) (tariff iceberg : arr3 xfloat).

Let N : nat := n_countries (dims data).
Let S_ : nat := n_sectors (dims data).

(** X8.  For an importer [i] and a sector [s] with a real elasticity,
    Armington weights that are real and not negative, and positive unit
    costs, iceberg factors and tariffs of all exporters, every trade
    share of [i] in [s] is a real number between 0 and 1. *)
Theorem trade_shares_in_range (i j s : nat) :
  (j < N)%nat ->
  finite (Data.sigma data s) ->
  (forall k, (k < N)%nat ->
     exists g, Data.gamma data i k s = Fin g /\ (0 <= g)%R) ->
  (forall k, (k < N)%nat -> positive_real (costs k s)) ->
  (forall k, (k < N)%nat -> positive_real (iceberg i k s)) ->
  (forall k, (k < N)%nat -> positive_real (tariff i k s)) ->
  exists r, snd (_price_index data costs tariff iceberg) i j s = Fin r /\
            (0 <= r <= 1)%R.
Proof.
  intros Hj [sg Hsg] Hg Hc Hi Ht.
  set (t := fun k => toR (term data costs tariff iceberg i k s)).
  assert (Et : forall k, (k < N)%nat ->
            term data costs tariff iceberg i k s = Fin (t k) /\ (0 <= t k)%R).
  { intros k Hk. unfold t, term, delivered, power. rewrite Hsg.
    destruct (Hg k Hk) as (g & -> & Hg0).
    destruct (Hc k Hk) as (c & -> & Hc0).
    destruct (Hi k Hk) as (ic & -> & Hi0).
    destruct (Ht k Hk) as (ta & -> & Ht0).
    xops. rewrite xpow_pos by (repeat apply Rmult_lt_0_compat; assumption).
    xops. cbn [toR]. split; [reflexivity|].
    apply Rmult_le_pos; [exact Hg0 | left; apply exp_pos]. }
  assert (Ed : denom data costs tariff iceberg i s = Fin (RSum N t)).
  { unfold denom. fold N.
    rewrite (np_sum_ext _ (fun k => Fin (t k))); [apply np_sum_Fin|].
    intros k Hk. apply Et. exact Hk. }
  assert (Hsum : (0 <= RSum N t)%R).
  { apply RSum_nonneg. intros k Hk. apply Et. exact Hk. }
  assert (Hle : (t j <= RSum N t)%R).
  { apply RSum_term_le; [|exact Hj]. intros k Hk. apply Et. exact Hk. }
  unfold _price_index. cbv zeta. cbn [snd]. rewrite Ed.
  destruct (Et j Hj) as [-> Hj0]. unfold np_where. xops. unfold xltb, xdiv.
  destruct (Rlt_dec 0 (RSum N t)) as [Hpos | Hneg].
  - rewrite (Rltb_true Hpos). rewrite Reqb_false by lra.
    eexists. split; [reflexivity|]. split.
    + apply Rmult_le_pos; [exact Hj0 | left; apply Rinv_0_lt_compat; exact Hpos].
    + apply Rmult_le_reg_r with (RSum N t); [exact Hpos|].
      unfold Rdiv. rewrite Rmult_assoc, Rinv_l by lra. lra.
  - rewrite Rltb_false by lra. exists 0%R. split; [reflexivity | lra].
Qed.

(** X9.  In a sector whose elasticity of substitution is 1 the CES
    exponent is 0: the trade shares are the Armington weights divided
    by their sum, whatever the costs, iceberg factors and tariffs; and
    the price index, a power with exponent [1.0 / 0.0], is 0, 1 or
    infinite as the weights of the importer sum to less than 1, to 1 or
    to more than 1. *)
Theorem unit_elasticity_degenerate (i j s : nat) :
  Data.sigma data s = Fin 1 ->
  let weights := np_sum N (fun k => Data.gamma data i k s) in
  snd (_price_index data costs tariff iceberg) i j s =
    np_where (weights >? c_0) (Data.gamma data i j s / weights) c_0 /\
  forall w, weights = Fin w -> (0 <= w)%R ->
    entries (fst (_price_index data costs tariff iceberg)) i s =
    if Rltb w 1 then Fin 0 else if Reqb w 1 then Fin 1 else Inf false.
Proof.
  intros Hs weights.
  assert (Ep : power data s = Fin 0).
  { unfold power. rewrite Hs. cbn. f_equal. lra. }
  assert (Et : forall k, term data costs tariff iceberg i k s = Data.gamma data i k s).
  { intros k. unfold term. rewrite Ep.
    replace (fpow (delivered costs tariff iceberg i k s) (Fin 0)) with (Fin 1).
    - apply xmul_1_r.
    - cbn. unfold xpow. cbn. rewrite Reqb_true by reflexivity. reflexivity. }
  assert (Ed : denom data costs tariff iceberg i s = weights).
  { unfold denom, weights. fold N. apply np_sum_ext. intros k _. apply Et. }
  unfold _price_index. cbv zeta. cbn [fst snd entries]. rewrite Ed, Et. split.
  - reflexivity.
  - intros w Hw Hw0. rewrite Hw, Ep. cbn.
    rewrite (@Reqb_true 0 0) by reflexivity. rewrite (@Reqb_false 1 0) by lra.
    rewrite (@Rltb_false 1 0) by lra. unfold xpow. cbn.
    rewrite Rabs_pos_eq by exact Hw0.
    destruct (Rlt_dec w 1) as [Hlt | Hge].
    + rewrite (@Reqb_false w 1) by lra. rewrite (Rltb_true Hlt). reflexivity.
    + rewrite (@Rltb_false w 1) by lra.
      destruct (Req_dec_T w 1) as [-> | Hne].
      * rewrite Reqb_true by reflexivity. reflexivity.
      * rewrite (Reqb_false Hne). reflexivity.
Qed.

End SharesRange.

Section WelfareChain.
Import Data Equilibrium.
Local Open Scope np_scope.

Lemma welfare_formula {F : Type} {ops : Float64 F} (base new : EquilibriumResult F) :
  len (real_income new) = len (real_income base) ->
  exists r, welfare_change base new = Ok r /\
            len r = len (real_income new) /\
            forall i, (i < len r)%nat ->
              item r i =
              (item (real_income new) i / item (real_income base) i - c_1) * c_100.
Proof.
  intros E. unfold welfare_change.
  destruct (vec_map2_same fdiv (real_income new) (real_income base) E)
    as (q & Hq & _ & Hlen & Hitem).
  rewrite Hq. cbn [bind]. eexists. split; [reflexivity|].
  cbn [vec_map len item]. split; [exact Hlen|].
  intros i Hi. rewrite Hitem by lia. reflexivity.
Qed.

(** X10.  Welfare changes chain: for three states with real incomes of
    one length whose entries are real numbers other than 0, the growth
    factor [1 + w/100] from the first to the third is the product of
    the growth factors from the first to the second and from the second
    to the third. *)
Theorem welfare_change_chain (x y z : EquilibriumResult xfloat) :
  len (real_income y) = len (real_income x) ->
  len (real_income z) = len (real_income x) ->
  (forall i, (i < len (real_income x))%nat ->
     exists a b c, item (real_income x) i = Fin a /\ item (real_income y) i = Fin b /\
                   item (real_income z) i = Fin c /\ a <> 0%R /\ b <> 0%R) ->
  exists xy yz xz,
    welfare_change x y = Ok xy /\ welfare_change y z = Ok yz /\
    welfare_change x z = Ok xz /\
    forall i, (i < len (real_income x))%nat ->
      item xz i / c_100 + c_1 =
      (item xy i / c_100 + c_1) * (item yz i / c_100 + c_1).
Proof.
  intros Hy Hz Hnum.
  destruct (welfare_formula x y Hy) as (xy & Exy & Lxy & Ixy).
  destruct (welfare_formula y z (eq_trans Hz (eq_sym Hy))) as (yz & Eyz & Lyz & Iyz).
  destruct (welfare_formula x z Hz) as (xz & Exz & Lxz & Ixz).
  exists xy, yz, xz. repeat split; try assumption.
  intros i Hi. rewrite Ixy, Iyz, Ixz by lia.
  destruct (Hnum i Hi) as (a & b & c & -> & -> & -> & Ha & Hb).
  cbn. rewrite !Reqb_false by (try assumption; lra). cbn.
  rewrite !Reqb_false by lra. cbn. f_equal. field. split; assumption.
Qed.

End WelfareChain.

Section SharesChecks.
Import Data Equilibrium.
Local Open Scope np_scope.

(** X8 on [free_trade] at unit costs. *)
Lemma trade_shares_in_range_witness :
  exists r, snd (_price_index free_trade (fun _ _ => Fin 1) (tariff free_trade)
                   (iceberg free_trade)) 0 1 0 = Fin r /\ (0 <= r <= 1)%R.
Proof.
  apply (trade_shares_in_range free_trade (fun _ _ => Fin 1) (tariff free_trade)
           (iceberg free_trade) 0 (j := 1) 0).
  - cbn. lia.
  - exists 4%R. reflexivity.
  - intros k _. exists (1 / 2)%R. split; [reflexivity | lra].
  - intros k _. exists 1%R. split; [reflexivity | lra].
  - intros k _. exists 1%R. split; [reflexivity | lra].
  - intros k _. exists 1%R. split; [reflexivity | lra].
Defined.

(** X9 on [unit_elasticity]: at costs 5 and at costs 1 alike, the
    shares are those of the weights, and the price index of weights
    that sum to 1 is 1. *)
Lemma unit_elasticity_degenerate_witness :
  snd (_price_index unit_elasticity (fun _ _ => Fin 5) (tariff unit_elasticity)
         (iceberg unit_elasticity)) 0 1 0 =
  np_where (np_sum 2 (fun k => Data.gamma unit_elasticity 0 k 0) >? c_0)
    (Data.gamma unit_elasticity 0 1 0 / np_sum 2 (fun k => Data.gamma unit_elasticity 0 k 0))
    c_0 /\
  entries (fst (_price_index unit_elasticity (fun _ _ => Fin 5) (tariff unit_elasticity)
                  (iceberg unit_elasticity))) 0 0 = Fin 1.
Proof.
  destruct (unit_elasticity_degenerate unit_elasticity (fun _ _ => Fin 5)
              (tariff unit_elasticity) (iceberg unit_elasticity) 0 1 0 eq_refl)
    as [Hshares Hprice].
  split; [exact Hshares|].
  rewrite (Hprice (1 / 2 + 1 / 2)%R).
  - rewrite Rltb_false by lra. rewrite Reqb_true by lra. reflexivity.
  - cbn. reflexivity.
  - lra.
Defined.

(** X10 on three states with real incomes 2, 3 and 6. *)
Lemma welfare_change_chain_witness :
  exists xy yz xz,
    welfare_change (state_of_income 2) (state_of_income 3) = Ok xy /\
    welfare_change (state_of_income 3) (state_of_income 6) = Ok yz /\
    welfare_change (state_of_income 2) (state_of_income 6) = Ok xz /\
    item xz 0 / c_100 + c_1 = (item xy 0 / c_100 + c_1) * (item yz 0 / c_100 + c_1).
Proof.
  destruct (@welfare_change_chain (state_of_income 2) (state_of_income 3)
              (state_of_income 6) eq_refl eq_refl)
    as (xy & yz & xz & Hxy & Hyz & Hxz & H).
  - intros i _. exists 2%R, 3%R, 6%R. repeat split; lra.
  - exists xy, yz, xz. repeat split; try assumption. apply H. cbn. lia.
Defined.

End SharesChecks.

(** ** Loading the inputs *)

Section InferSize.
Import Data.
Local Open Scope Z_scope.

Lemma fold_left_max_ge (l : list Z) (x : Z) :
  x <= fold_left Z.max l x /\ forall i, In i l -> i <= fold_left Z.max l x.
Proof.
  revert x. induction l as [|y l IH]; intros x; cbn [fold_left].
  - split; [lia | contradiction].
  - destruct (IH (Z.max x y)) as [H1 H2]. split; [lia|].
    intros i [<- | Hi]; [lia | apply H2; exact Hi].
Qed.

Lemma fold_left_max_in (l : list Z) (x : Z) :
  fold_left Z.max l x = x \/ In (fold_left Z.max l x) l.
Proof.
  revert x. induction l as [|y l IH]; intros x; cbn [fold_left].
  - left. reflexivity.
  - destruct (IH (Z.max x y)) as [H | H].
    + rewrite H. destruct (Z.max_spec x y) as [[_ E] | [_ E]]; rewrite E.
      * right. left. reflexivity.
      * left. reflexivity.
    + right. right. exact H.
Qed.

Lemma infer_size_inv (ids : list Z) (n : Z) :
  _infer_size ids = Ok n ->
  (forall i, In i ids -> i < n) /\ In (n - 1) ids.
Proof.
  destruct ids as [|x l]; intros H; [discriminate H|].
  cbn [_infer_size] in H. injection H as H.
  destruct (fold_left_max_ge l x) as [Hx Hl]. split.
  - intros i [<- | Hi]; [lia | specialize (Hl i Hi); lia].
  - replace (n - 1) with (fold_left Z.max l x) by lia.
    destruct (fold_left_max_in l x) as [E | Hin]; [rewrite E; left; reflexivity|].
    right. exact Hin.
Qed.

(** X11.  [_infer_size] raises [ValueError] on a file without rows;
    otherwise the size it returns is above every id of the file, and
    the id just below it occurs: ids may leave gaps, but the largest
    one fixes the size. *)
Theorem infer_size_bounds :
  _infer_size [] = Raise (ValueError "max() arg is an empty sequence") /\
  forall (ids : list Z) (n : Z),
    _infer_size ids = Ok n ->
    (forall i, In i ids -> i < n) /\ In (n - 1) ids.
Proof. split; [reflexivity | exact infer_size_inv]. Qed.

End InferSize.

Section FillRows.
Import Data.
Context {F : Type} {ops : Float64 F}.

Lemma py_index_Ok (n i : Z) (k : nat) :
  py_index n i = Ok k ->
  (Z.of_nat k < n)%Z /\ (i = Z.of_nat k \/ i = (Z.of_nat k - n)%Z).
Proof.
  unfold py_index.
  destruct ((0 <=? i) && (i <? n))%Z eqn:E1.
  - intros H. injection H as <-. apply andb_prop in E1. destruct E1 as [A B].
    apply Z.leb_le in A. apply Z.ltb_lt in B. lia.
  - destruct ((- n <=? i) && (i <? 0))%Z eqn:E2; [|discriminate].
    intros H. injection H as <-. apply andb_prop in E2. destruct E2 as [A B].
    apply Z.leb_le in A. apply Z.ltb_lt in B. lia.
Qed.

Lemma py_index_raises (n i : Z) :
  out_of_range n i <-> py_index n i = Raise IndexError.
Proof.
  unfold py_index, out_of_range.
  destruct ((0 <=? i) && (i <? n))%Z eqn:E1.
  - apply andb_prop in E1. destruct E1 as [A B].
    apply Z.leb_le in A. apply Z.ltb_lt in B. split; [lia | discriminate].
  - destruct ((- n <=? i) && (i <? 0))%Z eqn:E2.
    + apply andb_prop in E2. destruct E2 as [A B].
      apply Z.leb_le in A. apply Z.ltb_lt in B. split; [lia | discriminate].
    + split; [reflexivity|]. intros _.
      apply andb_false_iff in E1, E2.
      rewrite Z.leb_gt, Z.ltb_ge in E1. rewrite Z.leb_gt, Z.ltb_ge in E2. lia.
Qed.

Lemma py_index_hit (n i : Z) (k k' : nat) :
  py_index n i = Ok k' -> (Z.of_nat k < n)%Z ->
  Nat.eqb k k' = ((i =? Z.of_nat k) || (i =? Z.of_nat k - n))%Z.
Proof.
  intros H Hk. apply py_index_Ok in H. destruct H as [Hk' Hi].
  destruct (Nat.eqb_spec k k') as [-> | Hne].
  - symmetry. apply orb_true_iff. rewrite !Z.eqb_eq. exact Hi.
  - symmetry. apply orb_false_iff. rewrite !Z.eqb_neq. lia.
Qed.

(** What the loop over the rows of a file leaves in the array. *)
Lemma fill1_lookup (n : Z) (f : F -> F) (rows : list (Z * F)) :
  forall v w : arr1 F,
  fill1 n f rows v = Ok w ->
  forall k, (Z.of_nat k < n)%Z ->
    w k = match last_value n k rows with
          | Some x => f x
          | None => v k
          end.
Proof.
  induction rows as [|[i x] rest IH]; intros v w H k Hk.
  - injection H as <-. reflexivity.
  - cbn [fill1] in H. apply bind_Ok in H. destruct H as (i' & Hi & H).
    rewrite (IH _ _ H k Hk). cbn [last_value].
    destruct (last_value n k rest); [reflexivity|].
    unfold set1. rewrite (@py_index_hit n i k i' Hi Hk).
    destruct ((i =? Z.of_nat k) || (i =? Z.of_nat k - n))%Z; reflexivity.
Qed.

(** X12.  The loop that stores the rows of a file raises, and then
    [IndexError], exactly when some row has an id outside [[-n, n)]:
    an id from [-n] to [-1] is accepted. *)
Theorem fill1_out_of_range (n : Z) (f : F -> F) (rows : list (Z * F)) (v : arr1 F) :
  (Exists (fun r => out_of_range n (fst r)) rows <->
   fill1 n f rows v = Raise IndexError) /\
  (forall e, fill1 n f rows v = Raise e -> e = IndexError).
Proof.
  revert v. induction rows as [|[i x] rest IH]; intros v.
  - split; [|discriminate]. split; [intros H; inversion H | discriminate].
  - cbn [fill1]. destruct (py_index n i) as [i'|e] eqn:Hi; cbn [bind].
    + destruct (IH (set1 v i' (f x))) as [IH1 IH2]. split; [|exact IH2].
      rewrite <- IH1. split.
      * intros H. inversion H as [? ? H0 | ? ? H0]; subst; [|exact H0].
        cbn [fst] in H0. apply py_index_raises in H0. congruence.
      * intros H. right. exact H.
    + assert (E : e = IndexError).
      { unfold py_index in Hi.
        destruct ((0 <=? i) && (i <? n))%Z; [discriminate|].
        destruct ((- n <=? i) && (i <? 0))%Z; [discriminate|].
        injection Hi as <-. reflexivity. }
      subst e. split.
      * split; [reflexivity|]. intros _. left. cbn [fst].
        apply py_index_raises. exact Hi.
      * intros e H. injection H as <-. reflexivity.
Qed.

Lemma set_nth_length (l : list string) (i : nat) (x : string) :
  List.length (set_nth l i x) = List.length l.
Proof.
  revert i. induction l as [|y l IH]; intros i; [reflexivity|].
  destruct i; cbn; [reflexivity | rewrite IH; reflexivity].
Qed.

Lemma fill_names_length (rows : list (Z * string)) :
  forall names names', fill_names rows names = Ok names' ->
  List.length names' = List.length names.
Proof.
  induction rows as [|[i x] rest IH]; intros names names' H.
  - injection H as <-. reflexivity.
  - cbn [fill_names] in H. apply bind_Ok in H. destruct H as (i' & _ & H).
    rewrite (IH _ _ H). apply set_nth_length.
Qed.

(** Every row of a file of names is stored: its id is in range. *)
Lemma fill_names_ids (rows : list (Z * string)) :
  forall names names', fill_names rows names = Ok names' ->
  forall i, In i (map fst rows) ->
    (- Z.of_nat (List.length names) <= i < Z.of_nat (List.length names))%Z.
Proof.
  induction rows as [|[i x] rest IH]; intros names names' H j Hj.
  - contradiction.
  - cbn [fill_names] in H. apply bind_Ok in H. destruct H as (i' & Hi & H).
    destruct Hj as [<- | Hj].
    + cbn [fst]. apply py_index_Ok in Hi. lia.
    + specialize (IH _ _ H j Hj). rewrite set_nth_length in IH. exact IH.
Qed.

(** The steps of [load_inputs], read off a call that returned. *)
Lemma load_inputs_inv (inp : Inputs F) (data : ModelData F) :
  load_inputs inp = Ok data ->
  exists n_c n_s tf,
    _infer_size (map fst (countries_csv inp)) = Ok n_c /\
    _infer_size (map fst (sectors_csv inp)) = Ok n_s /\
    dims data = {| n_countries := Z.to_nat n_c; n_sectors := Z.to_nat n_s |} /\
    fill_names (countries_csv inp) (repeat EmptyString (Z.to_nat n_c)) = Ok (countries data) /\
    fill_names (sectors_csv inp) (repeat EmptyString (Z.to_nat n_s)) = Ok (sectors data) /\
    fill3 n_c n_c n_s (fun x => x) (trade_flows_csv inp) (fun _ _ _ => c_0) = Ok tf /\
    trade_flows data = Some tf /\
    fill3 n_c n_c n_s (fun rate => c_1 + rate)%np (tariffs_baseline_csv inp)
      (fun _ _ _ => c_1) = Ok (tariff data) /\
    fill3 n_c n_s n_s (fun x => x) (io_coeffs_csv inp) (fun _ _ _ => c_0) = Ok (alpha data) /\
    fill1 n_s (fun x => x) (elasticities_csv inp) (fun _ => c_0) = Ok (sigma data) /\
    fill1 n_c (fun x => x) (labor_endowments_csv inp) (fun _ => c_0) = Ok (L data) /\
    fill1 n_c (fun x => x) (trade_balance_csv inp) (fun _ => c_0) = Ok (D data) /\
    match gamma_weights_csv inp with
    | Some rows =>
        fill3 n_c n_c n_s (fun x => x) rows (fun _ _ _ => c_0) = Ok (gamma data)
    | None =>
        gamma data =
        (fun i j s =>
           np_where (np_sum (Z.to_nat n_c) (fun j => tf i j s) >? c_0)
             (tf i j s / np_sum (Z.to_nat n_c) (fun j => tf i j s)) c_0)%np
    end /\
    match utility_weights_csv inp with
    | Some rows =>
        exists raw,
          fill2 n_c n_s (fun x => x) rows (fun _ _ => c_0) = Ok raw /\
          a data =
          (fun i s =>
             np_where (np_sum (Z.to_nat n_s) (fun s => raw i s) >? c_0)
               (raw i s / np_sum (Z.to_nat n_s) (fun s => raw i s)) (raw i s))%np
    | None => a data = (fun _ _ => c_1 / of_int n_s)%np
    end.
Proof.
  intros H. unfold load_inputs in H.
  apply bind_Ok in H; destruct H as (n_c & Hc & H).
  apply bind_Ok in H; destruct H as (n_s & Hs & H).
  cbn [n_countries n_sectors] in H.
  apply bind_Ok in H; destruct H as (cs & Hcs & H).
  apply bind_Ok in H; destruct H as (ss & Hss & H).
  apply bind_Ok in H; destruct H as (tf & Htf & H).
  apply bind_Ok in H; destruct H as (tar & Htar & H).
  apply bind_Ok in H; destruct H as (al & Hal & H).
  destruct (existsb _ _); [discriminate H|].
  apply bind_Ok in H; destruct H as (sg & Hsg & H).
  apply bind_Ok in H; destruct H as (l & Hl & H).
  apply bind_Ok in H; destruct H as (d & Hd & H).
  apply bind_Ok in H; destruct H as (ice & Hice & H).
  apply bind_Ok in H; destruct H as (gm & Hgm & H).
  apply bind_Ok in H; destruct H as (zz & Hz & H).
  apply bind_Ok in H; destruct H as (aa & Ha & H).
  cbn [validate bind] in H. injection H as H. subst data.
  exists n_c, n_s, tf. cbn.
  repeat (split; [first [assumption | reflexivity]|]).
  split.
  - destruct (gamma_weights_csv inp); [exact Hgm|]. injection Hgm as <-. reflexivity.
  - destruct (utility_weights_csv inp).
    + apply bind_Ok in Ha. destruct Ha as (raw & Hraw & Ha). injection Ha as <-.
      exists raw. split; [exact Hraw | reflexivity].
    + injection Ha as <-. reflexivity.
Qed.

Lemma load_inputs_sizes_inv (inp : Inputs F) (data : ModelData F) :
  load_inputs inp = Ok data ->
  let N := n_countries (dims data) in
  let S_ := n_sectors (dims data) in
  (1 <= N)%nat /\ (1 <= S_)%nat /\
  List.length (countries data) = N /\ List.length (sectors data) = S_ /\
  (forall i, In i (map fst (countries_csv inp)) -> (- Z.of_nat N <= i < Z.of_nat N)%Z) /\
  (forall s, In s (map fst (sectors_csv inp)) -> (- Z.of_nat S_ <= s < Z.of_nat S_)%Z) /\
  In (Z.of_nat N - 1)%Z (map fst (countries_csv inp)) /\
  In (Z.of_nat S_ - 1)%Z (map fst (sectors_csv inp)).
Proof.
  intros H. apply load_inputs_inv in H.
  destruct H as (n_c & n_s & tf & Hc & Hs & Hd & Hcs & Hss & _).
  rewrite Hd. cbn [n_countries n_sectors]. cbv zeta.
  pose proof (fill_names_length _ _ Hcs) as Lc. rewrite repeat_length in Lc.
  pose proof (fill_names_length _ _ Hss) as Ls. rewrite repeat_length in Ls.
  pose proof (fill_names_ids _ _ Hcs) as Ic. rewrite repeat_length in Ic.
  pose proof (fill_names_ids _ _ Hss) as Is. rewrite repeat_length in Is.
  destruct (infer_size_inv _ Hc) as [_ Mc].
  destruct (infer_size_inv _ Hs) as [_ Ms].
  pose proof (Ic _ Mc) as Bc. pose proof (Is _ Ms) as Bs.
  assert (Pc : (1 <= n_c)%Z) by lia. assert (Ps : (1 <= n_s)%Z) by lia.
  rewrite !Z2Nat.id by lia.
  rewrite Z2Nat.id in Ic by lia. rewrite Z2Nat.id in Is by lia.
  repeat split; try lia; try assumption; try (intros; apply Ic; assumption);
    try (intros; apply Is; assumption).
Qed.

(** X13.  Data that [load_inputs] returns have at least one country
    and one sector, name lists of exactly [N] and [S] entries, every id
    of [countries.csv] and [sectors.csv] within the sizes, and the
    largest id of each file one below the size. *)
Theorem load_inputs_sizes (inp : Inputs F) (data : ModelData F) :
  load_inputs inp = Ok data ->
  let N := n_countries (dims data) in
  let S_ := n_sectors (dims data) in
  (1 <= N)%nat /\ (1 <= S_)%nat /\
  List.length (countries data) = N /\ List.length (sectors data) = S_ /\
  (forall i, In i (map fst (countries_csv inp)) -> (- Z.of_nat N <= i < Z.of_nat N)%Z) /\
  (forall s, In s (map fst (sectors_csv inp)) -> (- Z.of_nat S_ <= s < Z.of_nat S_)%Z) /\
  In (Z.of_nat N - 1)%Z (map fst (countries_csv inp)) /\
  In (Z.of_nat S_ - 1)%Z (map fst (sectors_csv inp)).
Proof. exact (load_inputs_sizes_inv inp (data := data)). Qed.

(** X14.  In data that [load_inputs] returns, the elasticity of a
    sector, the labor endowment and the trade balance of a country are
    those of the last row of the file that names it (by its id, or by
    its id minus the size), and 0 when no row does. *)
Theorem load_inputs_defaults (inp : Inputs F) (data : ModelData F) :
  load_inputs inp = Ok data ->
  let n_c := Z.of_nat (n_countries (dims data)) in
  let n_s := Z.of_nat (n_sectors (dims data)) in
  let entry n k rows := match last_value n k rows with Some x => x | None => c_0 end in
  (forall s, (s < n_sectors (dims data))%nat ->
     sigma data s = entry n_s s (elasticities_csv inp)) /\
  (forall i, (i < n_countries (dims data))%nat ->
     L data i = entry n_c i (labor_endowments_csv inp) /\
     D data i = entry n_c i (trade_balance_csv inp)).
Proof.
  intros H. pose proof (load_inputs_sizes_inv inp H) as Hsz. cbv zeta in Hsz.
  destruct Hsz as (HN & HS & _).
  apply load_inputs_inv in H.
  destruct H as (n_c & n_s & tf & Hc & Hs & Hd & _ & _ & _ & _ & _ & _ & Hsg & Hl & Hdd & _).
  rewrite Hd in *. cbn [n_countries n_sectors] in *. cbv zeta.
  assert (Pc : (1 <= n_c)%Z) by lia. assert (Ps : (1 <= n_s)%Z) by lia.
  rewrite !Z2Nat.id by lia. split.
  - intros s Hlt. rewrite (fill1_lookup _ _ _ Hsg s) by lia. reflexivity.
  - intros i Hlt. rewrite (fill1_lookup _ _ _ Hl i), (fill1_lookup _ _ _ Hdd i) by lia.
    split; reflexivity.
Qed.

End FillRows.

Section LoadedWeights.
Import Data.
Local Open Scope np_scope.

(** Weights divided by their positive sum add up to 1. *)
Lemma normalised_sum (n : nat) (g : nat -> R) (alt : nat -> xfloat) :
  (0 < RSum n g)%R ->
  np_sum n (fun j => np_where (Fin (RSum n g) >? c_0) (Fin (g j) / Fin (RSum n g)) (alt j))
  = Fin 1.
Proof.
  intros Hpos.
  rewrite (np_sum_ext _ (fun j => Fin (g j / RSum n g))).
  - rewrite np_sum_Fin, RSum_div. f_equal. field. lra.
  - intros j _. cbn. rewrite (Rltb_true Hpos), Reqb_false by lra. reflexivity.
Qed.

Lemma fill2_finite (n m : Z) (rows : list (Z * Z * xfloat)) :
  Forall (fun r => finite (snd r)) rows ->
  forall v w : arr2 xfloat,
  (forall i s, finite (v i s)) ->
  fill2 n m (fun x => x) rows v = Ok w ->
  forall i s, finite (w i s).
Proof.
  induction 1 as [|[[i j] x] rest Hx _ IH]; intros v w Hv H.
  - injection H as <-. exact Hv.
  - cbn [fill2] in H. apply bind_Ok in H. destruct H as (i' & _ & H).
    apply bind_Ok in H. destruct H as (j' & _ & H).
    refine (IH _ _ _ H). intros a b.
    unfold set2. destruct (_ && _); [exact Hx | apply Hv].
Qed.

Lemma fill3_finite (n m p : Z) (rows : list (Z * Z * Z * xfloat)) :
  Forall (fun r => finite (snd r)) rows ->
  forall v w : arr3 xfloat,
  (forall i j s, finite (v i j s)) ->
  fill3 n m p (fun x => x) rows v = Ok w ->
  forall i j s, finite (w i j s).
Proof.
  induction 1 as [|[[[i j] k] x] rest Hx _ IH]; intros v w Hv H.
  - injection H as <-. exact Hv.
  - cbn [fill3] in H. apply bind_Ok in H. destruct H as (i' & _ & H).
    apply bind_Ok in H. destruct H as (j' & _ & H).
    apply bind_Ok in H. destruct H as (k' & _ & H).
    refine (IH _ _ _ H). intros a b c.
    unfold set3. destruct (_ && _ && _); [exact Hx | apply Hv].
Qed.

(** X15.  In exact arithmetic, for every country [i] of data that
    [load_inputs] returns.  Without a file of utility weights, every
    weight of [i] is [1/S] and they sum to 1.  With a file of real
    weights, let [file] be the array that the rows of the file fill
    (0 where no row writes) and [d] the sum of its row [i]: when [d]
    is positive, the weights of [i] are those of the file divided by
    [d], and sum to 1; otherwise they are those of the file, unchanged,
    and sum to [d]. *)
Theorem utility_weights_normalised (inp : Inputs xfloat) (data : ModelData xfloat)
  (i : nat) :
  load_inputs inp = Ok data ->
  (forall rows, utility_weights_csv inp = Some rows ->
     Forall (fun r => finite (snd r)) rows) ->
  let N := n_countries (dims data) in
  let S_ := n_sectors (dims data) in
  (utility_weights_csv inp = None ->
     (forall s, a data i s = Fin (1 / INR S_)) /\
     np_sum S_ (fun s => a data i s) = Fin 1) /\
  (forall rows, utility_weights_csv inp = Some rows ->
     exists file d,
       fill2 (Z.of_nat N) (Z.of_nat S_) (fun x => x) rows (fun _ _ => c_0) = Ok file /\
       np_sum S_ (fun s => file i s) = Fin d /\
       ((0 < d)%R ->
        (forall s, a data i s = file i s / Fin d) /\
        np_sum S_ (fun s => a data i s) = Fin 1) /\
       ((d <= 0)%R ->
        (forall s, a data i s = file i s) /\
        np_sum S_ (fun s => a data i s) = Fin d)).
Proof.
  intros H Hfin. pose proof (load_inputs_sizes_inv inp H) as Hsz. cbv zeta in Hsz.
  destruct Hsz as (HN & HS & _).
  apply load_inputs_inv in H.
  destruct H as (n_c & n_s & tf & _ & _ & Hd & H). rewrite Hd in *.
  cbn [n_countries n_sectors] in *.
  do 10 (destruct H as [_ H]).
  assert (Pc : (1 <= n_c)%Z) by lia.
  assert (Pn : (1 <= n_s)%Z) by lia.
  rewrite !Z2Nat.id by lia.
  split.
  - intros Hnone. rewrite Hnone in H.
    assert (En : (0 < IZR n_s)%R) by (apply IZR_lt; lia).
    assert (Ea : forall s, a data i s = Fin (1 / INR (Z.to_nat n_s))).
    { intros s. rewrite H. cbn. rewrite Reqb_false by lra.
      rewrite INR_IZR_INZ, Z2Nat.id by lia. reflexivity. }
    split; [exact Ea|].
    rewrite (np_sum_ext _ (fun _ => Fin (1 / INR (Z.to_nat n_s))) (fun s _ => Ea s)).
    rewrite np_sum_Fin, RSum_const by exact (fun _ => 0%R).
    rewrite INR_IZR_INZ, Z2Nat.id by lia. f_equal. field. lra.
  - intros rows Hrows. rewrite Hrows in H.
    destruct H as (raw & Hraw & Ha).
    assert (Hr : forall i s, finite (raw i s)).
    { eapply fill2_finite; [exact (Hfin rows Hrows) | | exact Hraw].
      intros. exists 0%R. reflexivity. }
    set (g := fun s => toR (raw i s)).
    assert (Eg : forall s, raw i s = Fin (g s)).
    { intros s. apply finite_toR. apply Hr. }
    assert (Ed : np_sum (Z.to_nat n_s) (fun s => raw i s) = Fin (RSum (Z.to_nat n_s) g)).
    { rewrite (np_sum_ext (fun s => raw i s) (fun s => Fin (g s)) (fun s _ => Eg s)).
      apply np_sum_Fin. }
    exists raw, (RSum (Z.to_nat n_s) g).
    split; [exact Hraw|]. split; [exact Ed|]. split.
    + intros Hpos.
      assert (Ea : forall s, a data i s = raw i s / Fin (RSum (Z.to_nat n_s) g)).
      { intros s. rewrite Ha, Ed. cbn. rewrite (Rltb_true Hpos). reflexivity. }
      split; [exact Ea|].
      rewrite (np_sum_ext _ (fun s => Fin (g s / RSum (Z.to_nat n_s) g))).
      * rewrite np_sum_Fin, RSum_div. f_equal. field. lra.
      * intros s _. rewrite Ea, Eg. cbn. rewrite Reqb_false by lra. reflexivity.
    + intros Hneg.
      assert (Ea : forall s, a data i s = raw i s).
      { intros s. rewrite Ha, Ed. cbn. rewrite Rltb_false by lra. reflexivity. }
      split; [exact Ea|].
      rewrite (np_sum_ext _ (fun s => raw i s) (fun s _ => Ea s)). exact Ed.
Qed.

(** X16.  In exact arithmetic and without a file of Armington weights,
    the weights that [load_inputs] infers from real trade flows sum,
    for every importer and sector, to 1 over the exporters when the
    importer's total flow in the sector is positive, and are all 0
    otherwise. *)
Theorem inferred_gamma_normalised (inp : Inputs xfloat) (data : ModelData xfloat)
  (i s : nat) :
  load_inputs inp = Ok data ->
  gamma_weights_csv inp = None ->
  Forall (fun r => finite (snd r)) (trade_flows_csv inp) ->
  exists tf d,
    trade_flows data = Some tf /\
    np_sum (n_countries (dims data)) (fun j => tf i j s) = Fin d /\
    ((0 < d)%R ->
     np_sum (n_countries (dims data)) (fun j => gamma data i j s) = Fin 1) /\
    ((d <= 0)%R -> forall j, gamma data i j s = Fin 0).
Proof.
  intros H Hnone Hfin.
  apply load_inputs_inv in H.
  destruct H as (n_c & n_s & tf & _ & _ & Hd & _ & _ & Htf & Etf & H). rewrite Hd.
  cbn [n_countries n_sectors].
  do 5 (destruct H as [_ H]). destruct H as [Hg _]. rewrite Hnone in Hg.
  assert (Hr : forall i j s, finite (tf i j s)).
  { eapply fill3_finite; [exact Hfin | | exact Htf].
    intros. exists 0%R. reflexivity. }
  set (g := fun j => toR (tf i j s)).
  assert (Eg : forall j, tf i j s = Fin (g j)).
  { intros j. apply finite_toR. apply Hr. }
  exists tf, (RSum (Z.to_nat n_c) g).
  split; [exact Etf|].
  assert (Ed : np_sum (Z.to_nat n_c) (fun j => tf i j s) = Fin (RSum (Z.to_nat n_c) g)).
  { rewrite (np_sum_ext _ (fun j => Fin (g j)) (fun j _ => Eg j)). apply np_sum_Fin. }
  split; [exact Ed|]. rewrite Hg. split.
  - intros Hpos.
    rewrite (np_sum_ext _
               (fun j => np_where (Fin (RSum (Z.to_nat n_c) g) >? c_0)
                           (Fin (g j) / Fin (RSum (Z.to_nat n_c) g)) c_0)).
    + apply normalised_sum. exact Hpos.
    + intros j _. rewrite Ed, Eg. reflexivity.
  - intros Hneg j. rewrite Ed. cbn. rewrite Rltb_false by lra. reflexivity.
Qed.

End LoadedWeights.

Section LoadChecksMore.
Import Data.
Local Open Scope np_scope.

(** [two_country_inputs] loads, in exact arithmetic. *)
Lemma two_country_loads :
  exists data, load_inputs (two_country_inputs (F := xfloat)) = Ok data.
Proof.
  unfold load_inputs, two_country_inputs.
  cbv -[Rltb Rleb Reqb Rplus Rminus Rmult Rdiv Ropp Rinv IZR].
  xdecide. eexists. reflexivity.
Qed.

(** The sizes that [load_inputs] infers for [two_country_inputs]. *)
Lemma two_country_dims (data : ModelData xfloat) :
  load_inputs (two_country_inputs (F := xfloat)) = Ok data ->
  n_countries (dims data) = 2%nat /\ n_sectors (dims data) = 1%nat.
Proof.
  intros H. apply load_inputs_inv in H.
  destruct H as (n_c & n_s & tf & Hc & Hs & Hd & _).
  cbn in Hc, Hs. injection Hc as <-. injection Hs as <-.
  rewrite Hd. split; reflexivity.
Qed.

(** In the file of utility weights of [two_country_inputs] the weights
    of country 1 sum to 3. *)
Lemma two_country_file_sum (file : arr2 xfloat) (d : R) :
  fill2 2 1 (fun x => x) [(0, 0, of_int 1); (1, 0, of_int 3)]%Z (fun _ _ => c_0) = Ok file ->
  np_sum 1 (fun s => file 1%nat s) = Fin d ->
  (0 < d)%R.
Proof.
  intros Hf Hd. cbn in Hf. injection Hf as <-.
  cbn in Hd. injection Hd as <-. lra.
Qed.

(** X15 on [two_country_inputs]: the file gives country 1 the weight 3
    in its one sector, and the loaded weight is 1. *)
Lemma utility_weights_normalised_witness :
  exists data,
    load_inputs (two_country_inputs (F := xfloat)) = Ok data /\
    np_sum (n_sectors (dims data)) (fun s => a data 1 s) = Fin 1.
Proof.
  destruct two_country_loads as (data & Hd).
  exists data. split; [exact Hd|].
  destruct (two_country_dims Hd) as [HN HS].
  destruct (@utility_weights_normalised two_country_inputs data 1 Hd) as [_ Hfile].
  - intros rows E. injection E as <-.
    repeat constructor; eexists; reflexivity.
  - destruct (Hfile _ eq_refl) as (file & d & Hfill & Hsum & Hpos & _).
    rewrite HN, HS in Hfill. rewrite HS in Hsum.
    exact (proj2 (Hpos (two_country_file_sum Hfill Hsum))).
Defined.

(** X16 on [two_country_inputs]: the flows into country 0 are 3 and 1. *)
Lemma inferred_gamma_normalised_witness :
  exists data tf d,
    load_inputs (two_country_inputs (F := xfloat)) = Ok data /\
    trade_flows data = Some tf /\
    np_sum (n_countries (dims data)) (fun j => tf 0%nat j 0%nat) = Fin d /\
    ((0 < d)%R ->
     np_sum (n_countries (dims data)) (fun j => gamma data 0 j 0) = Fin 1).
Proof.
  destruct two_country_loads as (data & Hd).
  destruct (@inferred_gamma_normalised two_country_inputs data 0 0 Hd eq_refl)
    as (tf & d & Htf & Hsum & Hone & _).
  - repeat constructor; eexists; reflexivity.
  - exists data, tf, d. repeat split; assumption.
Defined.

End LoadChecksMore.

Section LoadChecks64More.
Import Data.
Local Open Scope float_scope.

(** X13 on [two_country_inputs], in binary64. *)
Lemma load_inputs_sizes_witness :
  exists data,
    load_inputs (two_country_inputs (F := float)) = Ok data /\
    n_countries (dims data) = 2%nat /\ n_sectors (dims data) = 1%nat /\
    List.length (countries data) = n_countries (dims data) /\
    List.length (sectors data) = n_sectors (dims data).
Proof.
  eexists. split; [vm_compute; reflexivity|].
  split; [reflexivity|]. split; [reflexivity|].
  match goal with
  | |- List.length (countries ?d) = _ /\ _ =>
      destruct (@load_inputs_sizes float b64_ops two_country_inputs d)
        as (_ & _ & Hc & Hs & _)
  end.
  - vm_compute. reflexivity.
  - split; assumption.
Defined.

(** X14 on [two_country_inputs], in binary64: the labor endowment of
    country 1 is the 2 of the row with id [-1], and its trade balance,
    which no row gives, is 0. *)
Lemma load_inputs_defaults_witness :
  exists data,
    load_inputs (two_country_inputs (F := float)) = Ok data /\
    L data 1%nat = 2 /\ D data 1%nat = 0.
Proof.
  eexists. split; [vm_compute; reflexivity|].
  match goal with
  | |- L ?d _ = _ /\ _ =>
      destruct (@load_inputs_defaults float b64_ops two_country_inputs d) as [_ H]
  end.
  - vm_compute. reflexivity.
  - destruct (H 1%nat) as [HL HD]; [vm_compute; lia|].
    rewrite HL, HD. split; vm_compute; reflexivity.
Defined.

End LoadChecks64More.
(** ** Edges of the genetic optimizer *)

Section GAEdges.
Import Optimize.
Local Open Scope np_scope.
Context {F G : Type} {ops : Float64 F} {gen : Generator G F} {srt : Sorter F}.

Variable objective : arr1 F -> F.
Variable dim : nat.
Variables low high : arr1 F.
Variable config : GAConfig F.

Let n : nat := Z.to_nat (population config).

(** [max(1, ...)]: there is always an elite. *)
Lemma elite_n_positive (e : nat) : elite_n config = Ok e -> (1 <= e)%nat.
Proof.
  unfold elite_n. intros H. apply bind_Ok in H. destruct H as (k & _ & H).
  injection H as <-. lia.
Qed.

(** A generation with more elites than candidates: [elites[i]] is out
    of range. *)
Lemma generation_too_many_elites (e : nat) (st : GAState) :
  (n < e)%nat -> generation objective dim low high config n e st = Raise IndexError.
Proof.
  intros H. unfold generation. cbv zeta.
  replace (Nat.ltb n e) with true by (symmetry; apply Nat.ltb_lt; exact H).
  reflexivity.
Qed.

(** X17.  With a population of zero or less, [genetic_optimize] raises
    whatever the objective, the bounds and the rest of the
    configuration: a negative size is refused, and an empty population
    has no elite to copy and no best candidate to return. *)
Theorem nonpositive_population_raises :
  (population config <= 0)%Z ->
  exists e, genetic_optimize objective dim low high config = Raise e.
Proof.
  intros Hp. unfold genetic_optimize. cbv zeta.
  destruct (initial_population objective dim low high config) as [st|e] eqn:Hinit;
    [|exists e; reflexivity].
  cbn [bind].
  destruct (elite_n config) as [el|e] eqn:Hel; [|exists e; reflexivity].
  cbn [bind]. pose proof (elite_n_positive Hel) as He.
  replace (Z.to_nat (population config)) with O by lia.
  destruct (Z.to_nat (generations config)) as [|k].
  - cbn [evolve bind flat1 seq map np_argmax]. eexists. reflexivity.
  - cbn [evolve]. unfold generation. cbv zeta.
    replace (Nat.ltb 0 el) with true by (symmetry; apply Nat.ltb_lt; lia).
    eexists. reflexivity.
Qed.

(** X18.  There is always at least one elite, whatever [elite_share]
    is; and when the elites outnumber the population (an [elite_share]
    above 1), the first generation raises [IndexError]. *)
Theorem too_many_elites_raises (e : nat) (st : GAState) :
  elite_n config = Ok e ->
  (1 <= e)%nat /\
  (initial_population objective dim low high config = Ok st ->
   (n < e)%nat -> (1 <= generations config)%Z ->
   genetic_optimize objective dim low high config = Raise IndexError).
Proof.
  intros He. split; [exact (elite_n_positive He)|].
  intros Hinit Hlt Hg. unfold genetic_optimize. cbv zeta.
  rewrite Hinit. cbn [bind]. rewrite He. cbn [bind].
  destruct (Z.to_nat (generations config)) as [|k] eqn:Ek; [lia|].
  cbn [evolve]. fold n. rewrite generation_too_many_elites by exact Hlt. reflexivity.
Qed.

(** X19.  With fewer than two coordinates there is no crossover point:
    once both parents have been selected and the draw falls below
    [crossover_rate], [rng.integers(1, dim)] raises [ValueError]. *)
Theorem crossover_needs_two_coordinates (pop : arr2 F) (scores : arr1 F)
  (g g1 g2 : G) (parent1 parent2 : arr1 F) :
  (dim <= 1)%nat ->
  tournament_select config pop scores g = Ok (g1, parent1) ->
  tournament_select config pop scores g1 = Ok (g2, parent2) ->
  (snd (sample_random g2) <? crossover_rate config) = true ->
  make_child dim low high config pop scores g = Raise (ValueError "low >= high").
Proof.
  intros Hd H1 H2 Hu. unfold make_child. rewrite H1. cbn [bind]. rewrite H2. cbn [bind].
  destruct (sample_random g2) as [g3 u]. cbn [snd] in Hu. rewrite Hu.
  unfold rng_integers.
  replace (1 <? Z.of_nat dim)%Z with false by (symmetry; apply Z.ltb_ge; lia).
  reflexivity.
Qed.

End GAEdges.

Section GAEdgeChecks.
Import Optimize.
Local Open Scope np_scope.

(** X17 on [empty_run]. *)
Lemma nonpositive_population_raises_witness :
  exists e, genetic_optimize (gen := counter_rng) (srt := insertion_sorter)
              first_square 2 (fun _ => Fin (-1)) (fun _ => Fin 1) empty_run = Raise e.
Proof.
  apply (nonpositive_population_raises (gen := counter_rng) (srt := insertion_sorter)).
  cbn. lia.
Defined.

Lemma crowded_elites : elite_n crowded_run = Ok 8%nat.
Proof.
  unfold elite_n, py_int. cbn.
  destruct (Rle_dec 0 (2 * 4)) as [_|H]; [|exfalso; apply H; lra].
  rewrite <- (Int_part_spec (2 * 4) 8) by (split; lra). reflexivity.
Qed.

Lemma crowded_initial :
  exists st, initial_population (gen := counter_rng) first_square 2
               (fun _ => Fin (-1)) (fun _ => Fin 1) crowded_run = Ok st.
Proof.
  unfold initial_population, rng_uniform.
  cbv -[Rltb Rleb Reqb Rplus Rminus Rmult Rdiv Ropp Rinv IZR first_square].
  xdecide. eexists. reflexivity.
Qed.

(** X18 on [crowded_run]. *)
Lemma too_many_elites_raises_witness :
  genetic_optimize (gen := counter_rng) (srt := insertion_sorter)
    first_square 2 (fun _ => Fin (-1)) (fun _ => Fin 1) crowded_run = Raise IndexError.
Proof.
  destruct crowded_initial as (st & Hst).
  apply (proj2 (too_many_elites_raises (gen := counter_rng) (srt := insertion_sorter)
                  first_square 2 (fun _ => Fin (-1)) (fun _ => Fin 1) crowded_run
                  st crowded_elites)).
  - exact Hst.
  - cbn. lia.
  - cbn. lia.
Defined.

(** Two tournaments of [small_run] on a population of equal scores,
    with the generator at 4. *)
Lemma small_tournaments :
  exists p1 p2,
    tournament_select (gen := counter_rng) small_run (fun _ _ => Fin 0) (fun _ => Fin 0) 4%Z
      = Ok (7%Z, p1) /\
    tournament_select (gen := counter_rng) small_run (fun _ _ => Fin 0) (fun _ => Fin 0) 7%Z
      = Ok (10%Z, p2).
Proof.
  unfold tournament_select, rng_integers_n.
  cbv -[Rltb Rleb Reqb Rplus Rminus Rmult Rdiv Ropp Rinv IZR].
  xdecide. do 2 eexists. split; reflexivity.
Qed.

(** X19 on [small_run] with one coordinate. *)
Lemma crossover_needs_two_coordinates_witness :
  make_child (gen := counter_rng) 1 (fun _ => Fin (-1)) (fun _ => Fin 1) small_run
    (fun _ _ => Fin 0) (fun _ => Fin 0) 4%Z = Raise (ValueError "low >= high").
Proof.
  destruct small_tournaments as (p1 & p2 & H1 & H2).
  eapply (crossover_needs_two_coordinates (gen := counter_rng));
    [apply le_n | exact H1 | exact H2 |].
  cbv -[Rltb Rleb Reqb Rplus Rminus Rmult Rdiv Ropp Rinv IZR].
  apply Rltb_true. lra.
Defined.

End GAEdgeChecks.

(** ** The optimizer stays within the bounds *)

Section ArgmaxIndex.
Context {F : Type} {ops : Float64 F}.

Lemma argmax_from_index (l : list F) :
  forall (i best : nat) (bv : F),
  argmax_from l i best bv = best \/
  (i <= argmax_from l i best bv < i + List.length l)%nat.
Proof.
  induction l as [|x t IH]; intros i best bv; cbn [argmax_from].
  - left. reflexivity.
  - destruct (fisnan bv); [left; reflexivity|].
    destruct (negb (fleb x bv)).
    + destruct (IH (S i) i x) as [E | E]; right; cbn [List.length]; lia.
    + destruct (IH (S i) best bv) as [E | E]; [left; exact E | right].
      cbn [List.length]. lia.
Qed.

Lemma np_argmax_index (l : list F) (b : nat) :
  np_argmax l = Ok b -> (b < List.length l)%nat.
Proof.
  destruct l as [|x t]; [discriminate|]. cbn [np_argmax]. intros H. injection H as <-.
  cbn [List.length]. destruct (argmax_from_index t 1 0 x) as [E | E]; lia.
Qed.

Lemma flat1_length (n : nat) (f : arr1 F) : List.length (flat1 n f) = n.
Proof. unfold flat1. rewrite length_map, length_seq. reflexivity. Qed.

End ArgmaxIndex.

Section Samples.
Import Optimize.
Context {F G : Type} {ops : Float64 F} {gen : Generator G F}.

(** Every sample of a sequence of draws is a draw. *)
Lemma samples_nth {X : Type} (draw : nat -> G -> G * X) (d : X) (m : nat) :
  forall (k : nat) (g : G) (j : nat), (j < m)%nat ->
  exists g', nth j (snd (samples draw k m g)) d = snd (draw (k + j)%nat g').
Proof.
  induction m as [|m IH]; intros k g j Hj; [lia|].
  cbn [samples]. destruct (draw k g) as [g1 x] eqn:E1.
  destruct (samples draw (S k) m g1) as [g2 xs] eqn:E2. cbn [snd].
  destruct j as [|j].
  - exists g. rewrite Nat.add_0_r, E1. reflexivity.
  - destruct (IH (S k) g1 j) as (g' & Hg'); [lia|].
    rewrite E2 in Hg'. cbn [snd] in Hg'. exists g'. cbn [nth]. rewrite Hg'.
    f_equal. f_equal. lia.
Qed.

Lemma samples_length {X : Type} (draw : nat -> G -> G * X) (m : nat) :
  forall (k : nat) (g : G), List.length (snd (samples draw k m g)) = m.
Proof.
  induction m as [|m IH]; intros k g; [reflexivity|].
  cbn [samples]. destruct (draw k g) as [g1 x].
  specialize (IH (S k) g1). destruct (samples draw (S k) m g1) as [g2 xs].
  cbn [snd] in *. cbn. rewrite IH. reflexivity.
Qed.

Lemma mapM_py_index_bound (m : Z) (l : list Z) :
  forall ys, mapM (py_index m) l = Ok ys ->
  Forall (fun k => (Z.of_nat k < m)%Z) ys.
Proof.
  induction l as [|i l IH]; intros ys H.
  - injection H as <-. constructor.
  - cbn [mapM] in H. apply bind_Ok in H. destruct H as (k & Hk & H).
    apply bind_Ok in H. destruct H as (ys' & Hys & H). injection H as <-.
    constructor; [|apply IH; exact Hys].
    apply py_index_Ok in Hk. tauto.
Qed.

End Samples.

Section WithinBounds.
Import Optimize.
Local Open Scope np_scope.
Context {G : Type} {gen : Generator G xfloat} {srt : Sorter xfloat}.

Variable objective : arr1 xfloat -> xfloat.
Variable dim : nat.
Variables low high : arr1 xfloat.
Variable config : GAConfig xfloat.

Let n : nat := Z.to_nat (population config).

Hypothesis uniform_law : uniform_in_range.
Hypothesis normal_law : normal_is_finite.
Hypothesis sort_law : argsort_sorts n.
Hypothesis bounds : ordered_bounds dim low high.
Hypothesis scale : finite (mutation_scale config).

(** The rows of a population, all within the bounds. *)
Let rows_within (pop : arr2 xfloat) : Prop :=
  forall i, (i < n)%nat -> within dim low high (pop i).

Lemma clip_within (c : arr1 xfloat) :
  (forall k, (k < dim)%nat -> fisnan (c k) = false) ->
  within dim low high (fun k => np_clip (c k) (low k) (high k)).
Proof.
  intros Hc k Hk. destruct (bounds Hk) as (l & h & El & Eh & Hlh).
  specialize (Hc k Hk). rewrite El, Eh. exists l.
  unfold np_clip, np_maximum, np_minimum, fisnan in *.
  destruct (c k) as [r|[]|]; cbn in *.
  - rewrite Reqb_true in * by reflexivity. cbn.
    destruct (Rle_dec l r) as [H1 | H1].
    + rewrite (Rleb_true H1). cbn. rewrite Reqb_true by reflexivity. cbn.
      destruct (Rle_dec r h) as [H2 | H2].
      * rewrite (Rleb_true H2). exists r, h. repeat split; try reflexivity; lra.
      * rewrite Rleb_false by lra. exists h, h. repeat split; try reflexivity; lra.
    + rewrite Rleb_false by lra. cbn. rewrite Reqb_true by reflexivity. cbn.
      rewrite (Rleb_true Hlh). exists l, h. repeat split; try reflexivity; lra.
  - rewrite Reqb_true by reflexivity. cbn. rewrite (Rleb_true Hlh).
    exists l, h. repeat split; try reflexivity; lra.
  - exists h, h. repeat split; try reflexivity; lra.
  - discriminate Hc.
Qed.

Lemma within_number (x : arr1 xfloat) (k : nat) :
  within dim low high x -> (k < dim)%nat -> finite (x k).
Proof. intros H Hk. destruct (H k Hk) as (l & v & h & _ & E & _). exists v. exact E. Qed.

Lemma finite_number (x : xfloat) : finite x -> fisnan x = false.
Proof.
  intros [r ->]. unfold fisnan. cbn. rewrite Reqb_true by reflexivity. reflexivity.
Qed.

(** A tournament returns a row of the population. *)
Lemma tournament_row (pop : arr2 xfloat) (scores : arr1 xfloat) (g g' : G)
  (parent : arr1 xfloat) :
  tournament_select config pop scores g = Ok (g', parent) ->
  exists i, (i < n)%nat /\ parent = pop i.
Proof.
  unfold tournament_select. intros H.
  apply bind_Ok in H. destruct H as ([g1 idx] & _ & H).
  apply bind_Ok in H. destruct H as (ys & Hys & H).
  apply bind_Ok in H. destruct H as (b & Hb & H).
  injection H as _ <-.
  apply mapM_py_index_bound in Hys. apply np_argmax_index in Hb.
  rewrite length_map in Hb.
  exists (nth b ys O). split; [|reflexivity].
  rewrite Forall_forall in Hys.
  assert (Hin : In (nth b ys O) ys) by (apply nth_In; exact Hb).
  specialize (Hys _ Hin). unfold n. lia.
Qed.

Lemma make_child_within (pop : arr2 xfloat) (scores : arr1 xfloat) (g g' : G)
  (child : arr1 xfloat) :
  rows_within pop ->
  make_child dim low high config pop scores g = Ok (g', child) ->
  within dim low high child.
Proof.
  intros Hpop H. unfold make_child in H.
  apply bind_Ok in H. destruct H as ([g1 p1] & H1 & H).
  apply bind_Ok in H. destruct H as ([g2 p2] & H2 & H).
  apply tournament_row in H1. destruct H1 as (i1 & Hi1 & ->).
  apply tournament_row in H2. destruct H2 as (i2 & Hi2 & ->).
  destruct (sample_random g2) as [g3 u].
  apply bind_Ok in H. destruct H as ([g4 c1] & Hc1 & H).
  assert (N1 : forall k, (k < dim)%nat -> finite (c1 k)).
  { intros k Hk. destruct (u <? crossover_rate config).
    - apply bind_Ok in Hc1. destruct Hc1 as ([g5 cp] & _ & Hc1).
      injection Hc1 as _ <-.
      destruct (Nat.ltb k (Z.to_nat cp));
        [apply (within_number (Hpop i1 Hi1) Hk) | apply (within_number (Hpop i2 Hi2) Hk)].
    - injection Hc1 as _ <-. apply (within_number (Hpop i1 Hi1) Hk). }
  destruct (sample_random g4) as [g5 u'].
  apply bind_Ok in H. destruct H as ([g6 c2] & Hc2 & H).
  injection H as _ <-. apply clip_within.
  intros k Hk. apply finite_number.
  destruct (u' <? mutation_rate config).
  - apply bind_Ok in Hc2. destruct Hc2 as ([g7 noise] & Hn & Hc2).
    injection Hc2 as _ <-.
    unfold rng_normal in Hn. destruct (is_negative (mutation_scale config)); [discriminate|].
    destruct (@samples_nth G _
                (fun _ g0 => sample_normal g0 c_0 (mutation_scale config))
                c_0 dim 0 g5 k Hk) as (gk & Hgk).
    destruct (samples (fun _ g0 => sample_normal g0 c_0 (mutation_scale config)) 0 dim g5)
      as [g8 xs].
    injection Hn as _ <-. unfold of_list.
    cbn [snd c_0 xfloat_ops] in Hgk. cbn [c_0 xfloat_ops]. rewrite Hgk.
    destruct scale as [s Hs]. rewrite Hs.
    destruct (normal_law gk 0%R s) as [z Hz]. rewrite Hz.
    destruct (N1 k Hk) as [r ->]. eexists. reflexivity.
  - injection Hc2 as _ <-. apply N1. exact Hk.
Qed.

Lemma breed_within (pop : arr2 xfloat) (scores : arr1 xfloat) (fuel : nat) :
  rows_within pop ->
  forall (g g' : G) (new_pop l : list (arr1 xfloat)),
  Forall (within dim low high) new_pop ->
  breed dim low high config pop scores fuel g new_pop = Ok (g', l) ->
  Forall (within dim low high) l /\ List.length l = (List.length new_pop + fuel)%nat.
Proof.
  intros Hpop. induction fuel as [|fuel IH]; intros g g' new_pop l Hnew H.
  - injection H as _ <-. split; [exact Hnew | lia].
  - cbn [breed] in H. apply bind_Ok in H. destruct H as ([g1 child] & Hc & H).
    apply make_child_within in Hc; [|exact Hpop].
    apply IH in H.
    + destruct H as [H1 H2]. split; [exact H1|]. rewrite H2, length_app. cbn. lia.
    + apply Forall_app. split; [exact Hnew | constructor; [exact Hc | constructor]].
Qed.

Lemma generation_within (e : nat) (st st' : @GAState xfloat G) :
  rows_within (ga_pop st) ->
  generation objective dim low high config n e st = Ok st' ->
  rows_within (ga_pop st').
Proof.
  intros Hst H. unfold generation in H. cbv zeta in H.
  destruct (Nat.ltb n e) eqn:Ee; [discriminate H|]. apply Nat.ltb_ge in Ee.
  apply bind_Ok in H. destruct H as ([g l] & Hb & H). injection H as <-.
  cbn [ga_pop].
  destruct (sort_law (ga_scores st)) as [Hperm _].
  assert (Hsorted : rows_within
            (fun i => ga_pop st (nth i (rev (argsort n (ga_scores st))) O))).
  { intros i Hi. apply Hst.
    assert (Hlen : List.length (rev (argsort n (ga_scores st))) = n).
    { rewrite length_rev, (Permutation_length Hperm), length_seq. reflexivity. }
    assert (Hin : In (nth i (rev (argsort n (ga_scores st))) O) (argsort n (ga_scores st))).
    { apply in_rev. apply nth_In. lia. }
    apply (Permutation_in _ Hperm) in Hin. apply in_seq in Hin. lia. }
  apply breed_within in Hb.
  - destruct Hb as [Hall Hlen]. rewrite !length_map, !length_seq in Hlen.
    intros i Hi. unfold of_list. rewrite Forall_forall in Hall.
    apply Hall. apply nth_In. unfold arr1 in *. lia.
  - exact Hsorted.
  - apply Forall_forall. intros x Hx. apply in_map_iff in Hx.
    destruct Hx as (i & <- & Hi). apply in_seq in Hi. apply Hsorted. lia.
Qed.

Lemma evolve_within (e k : nat) :
  forall st st' : @GAState xfloat G,
  rows_within (ga_pop st) ->
  evolve objective dim low high config n e k st = Ok st' ->
  rows_within (ga_pop st').
Proof.
  induction k as [|k IH]; intros st st' Hst H.
  - injection H as <-. exact Hst.
  - cbn [evolve] in H. apply bind_Ok in H. destruct H as (st1 & Hg & H).
    apply (IH st1 st'); [|exact H]. eapply generation_within; eassumption.
Qed.

Lemma initial_within (st : @GAState xfloat G) :
  initial_population objective dim low high config = Ok st ->
  rows_within (ga_pop st).
Proof.
  unfold initial_population, rng_uniform. cbv zeta. intros H.
  apply bind_Ok in H. destruct H as ([g pop] & Hu & H). injection H as <-.
  cbn [ga_pop].
  destruct (negb _); [discriminate|]. destruct (existsb _ _); [discriminate|].
  destruct (population config <? 0)%Z; [discriminate|].
  match type of Hu with
  | context [samples ?d 0 ?m ?g0] =>
      pose proof (@samples_nth G _ d (fun _ => c_0) m 0 g0) as Hrow;
      pose proof (@samples_length G _ d m 0 g0) as Hlen;
      destruct (samples d 0 m g0) as [g1 rows]
  end.
  injection Hu as _ <-. cbn [snd] in Hrow, Hlen. fold n in Hrow, Hlen.
  intros i Hi k Hk. unfold of_list at 1.
  destruct (Hrow i Hi) as (gi & Hgi).
  change (fun _ : nat => Fin 0) with (fun _ : nat => @c_0 xfloat _).
  rewrite Hgi. clear Hrow Hgi.
  match goal with
  | |- context [samples ?d 0 dim gi] =>
      destruct (@samples_nth G _ d c_0 dim 0 gi k Hk) as (gk & Hgk);
      destruct (samples d 0 dim gi) as [g2 row]
  end.
  cbn [snd] in *. unfold of_list. rewrite Hgk. cbn [Nat.add].
  destruct (bounds Hk) as (l & h & El & Eh & Hlh). rewrite El, Eh.
  destruct (uniform_law gk Hlh) as (x & Ex & Hx). rewrite Ex.
  exists l, x, h. repeat split; try reflexivity; lra.
Qed.

(** X20.  With a generator whose uniform draws fall between the bounds
    and whose normal draws are real numbers, a sort that permutes, real
    bounds with [low <= high] and a real mutation scale: the candidate
    that [genetic_optimize] returns lies within the bounds in every
    coordinate. *)
Theorem optimum_within_bounds (x : arr1 xfloat) (f : xfloat) :
  genetic_optimize objective dim low high config = Ok (x, f) ->
  within dim low high x.
Proof.
  unfold genetic_optimize. cbv zeta. fold n. intros H.
  apply bind_Ok in H. destruct H as (st0 & Hinit & H).
  apply bind_Ok in H. destruct H as (e & _ & H).
  apply bind_Ok in H. destruct H as (stf & Hev & H).
  apply bind_Ok in H. destruct H as (b & Hb & H). injection H as <- _.
  apply np_argmax_index in Hb. rewrite flat1_length in Hb.
  apply initial_within in Hinit.
  eapply evolve_within; [exact Hinit | exact Hev | exact Hb].
Qed.

End WithinBounds.

Section GARuns.
Import Optimize.
Local Open Scope np_scope.
Context {G : Type} {gen : Generator G xfloat} {srt : Sorter xfloat}.

Variable objective : arr1 xfloat -> xfloat.
Variable dim : nat.
Variables low high : arr1 xfloat.
Variable config : GAConfig xfloat.
Variable elites : nat.

Hypothesis rng_law : integers_in_range.
Hypothesis sort_law : argsort_sorts (Z.to_nat (population config)).
Hypothesis objective_number : forall x, fisnan (objective x) = false.
Hypothesis run : runnable dim low high config elites.

(** On a runnable configuration the optimizer returns. *)
Lemma genetic_optimize_runs :
  exists x f, genetic_optimize objective dim low high config = Ok (x, f).
Proof.
  destruct (population_positive run) as [Hp Hn].
  destruct (initial_population_returns objective run) as (st0 & Hinit & Hc0).
  destruct (evolve_returns rng_law sort_law objective_number run
              (Z.to_nat (generations config)) Hc0) as (stf & Hev & Hcf & _).
  destruct (np_argmax_spec (ga_scores stf) Hn
              (fun j _ => consistent_number objective_number Hcf j))
    as (b & Hb & _).
  exists (ga_pop stf b), (ga_scores stf b).
  unfold genetic_optimize. cbv zeta.
  rewrite Hinit. cbn [bind]. rewrite (run_elite_n run). cbn [bind].
  rewrite Hev. cbn [bind]. rewrite Hb. reflexivity.
Qed.

End GARuns.

Section BoundsChecks.
Import Optimize.
Local Open Scope np_scope.

Lemma counter_unit_range (g : Z) :
  exists u, counter_unit g = Fin u /\ (0 <= u <= 1)%R.
Proof.
  unfold counter_unit. eexists. split; [reflexivity|].
  pose proof (Z.mod_pos_bound g 10 ltac:(lia)) as [H0 H1].
  apply IZR_le in H0. apply Z.lt_le_incl, IZR_le in H1.
  split.
  - apply Rmult_le_pos; [exact H0 | lra].
  - apply Rmult_le_reg_r with 10%R; [lra|].
    unfold Rdiv. rewrite Rmult_assoc, Rinv_l by lra. lra.
Qed.

Lemma counter_uniform : uniform_in_range (gen := counter_rng).
Proof.
  intros g l h Hlh. cbn [sample_uniform counter_rng snd].
  destruct (counter_unit_range g) as (u & -> & Hu). cbn.
  eexists. split; [reflexivity|]. split; nra.
Qed.

Lemma counter_normal : normal_is_finite (gen := counter_rng).
Proof.
  intros g loc s. cbn [sample_normal counter_rng snd].
  destruct (counter_unit_range g) as (u & -> & _). cbn.
  eexists. reflexivity.
Qed.

(** X20 on [small_run] between -1 and 1. *)
Lemma optimum_within_bounds_witness :
  exists x f,
    genetic_optimize (gen := counter_rng) (srt := insertion_sorter) first_square 2
      (fun _ => Fin (-1)) (fun _ => Fin 1) small_run = Ok (x, f) /\
    within 2 (fun _ => Fin (-1)) (fun _ => Fin 1) x.
Proof.
  destruct (genetic_optimize_runs (gen := counter_rng) (srt := insertion_sorter)
              first_square counter_in_range (insertion_sorts _) first_square_number
              small_run_runnable) as (x & f & Hrun).
  exists x, f. split; [exact Hrun|].
  eapply (optimum_within_bounds (gen := counter_rng) (srt := insertion_sorter));
    [exact counter_uniform | exact counter_normal | apply insertion_sorts | | | exact Hrun].
  - intros k _. exists (-1)%R, 1%R. repeat split; try reflexivity; lra.
  - exists (1 / 20)%R. reflexivity.
Defined.

End BoundsChecks.

(** ** The script that prints the model's tables *)

Section FromModelRuns.
Import Data Equilibrium Tables.
Context {F : Type} {ops : Float64 F} {lm : Libm F}.
Variable format_6f : F -> string.

(** X21.  [from_model] never runs to its end: it stops with
    [SystemExit] when a file is missing or with an exception of
    [load_inputs] or [solve_equilibrium]; and when the inputs load, the
    solver returns and the scenario file exists, it prints the header
    of the real incomes and then raises [TypeError] at the first
    country, because the real incomes have shape [(1, n)] and their one
    item is an array, not a float. *)
Theorem from_model_never_completes (files : Files F) :
  (exists out e, from_model format_6f files = (out, Some e)) /\
  forall data base_eq,
    countries_csv_exists files = true ->
    load_inputs (inputs files) = Ok data ->
    solve_equilibrium data None None 2000 c_1e_8 c_0_3 = Ok base_eq ->
    scenario_tariffs_csv_exists files = true ->
    from_model format_6f files =
    (["Baseline real income (by country):"%string],
     Some (TypeError "unsupported format string passed to numpy.ndarray.__format__")).
Proof.
  assert (printed : forall data base_eq,
            load_inputs (inputs files) = Ok data ->
            solve_equilibrium data None None 2000 c_1e_8 c_0_3 = Ok base_eq ->
            print_incomes format_6f (countries data) (real_income base_eq) =
            ([], Some (TypeError
                   "unsupported format string passed to numpy.ndarray.__format__"))).
  { intros data base_eq Hl Hs. unfold print_incomes.
    apply solve_returns_inv in Hs.
    destruct Hs as (st' & md & p & _ & _ & _ & Hri & _).
    rewrite (real_income_row _ _ _ Hri).
    pose proof (load_inputs_sizes_inv _ Hl) as Hsz. cbv zeta in Hsz.
    destruct Hsz as (HN & _ & Hlen & _).
    destruct (countries data) as [|c cs]; [cbn in Hlen; lia | reflexivity]. }
  split.
  - unfold from_model.
    destruct (countries_csv_exists files); cbn [negb]; [|do 2 eexists; reflexivity].
    destruct (load_inputs (inputs files)) as [data|e] eqn:Hl; [|do 2 eexists; reflexivity].
    destruct (solve_equilibrium data None None 2000 c_1e_8 c_0_3) as [base_eq|e] eqn:Hs;
      [|do 2 eexists; reflexivity].
    destruct (scenario_tariffs_csv_exists files); cbn [negb]; [|do 2 eexists; reflexivity].
    rewrite (printed data base_eq eq_refl Hs). do 2 eexists. reflexivity.
  - intros data base_eq Hc Hl Hs Hsc. unfold from_model.
    rewrite Hc, Hl, Hs, Hsc. cbn [negb]. rewrite (printed data base_eq Hl Hs). reflexivity.
Qed.

End FromModelRuns.

